(** * search::Retrieval — progressive viewport expansion

    A shallow embedding of [search/retrieval.cpp]: the [Limits] accessors,
    the [FeatureBucket] constructor, [Retrieval::Init], [Retrieval::Go],
    [Retrieval::RetrieveForViewport], [ViewportCoversAllMwms] and
    [CountRetrievedFeatures], together with the two file-local helpers
    [RetrieveAddressFeatures] and [RetrieveGeometryFeatures].

    Conventions.
    - [double] is IEEE binary64, embedded as Rocq's primitive floats.
    - [uint32_t] and [uint64_t] are embedded as [N]; the only arithmetic
      performed on them ([count += size] on a [uint64_t]) has its
      wrap-around written out.
    - [ASSERT] is modelled with its debug-build meaning: a failing assertion
      aborts the run, and the abort records which assertion failed.
    - The [for (;;)] loop of [Go] is modelled with fuel: one unit of fuel per
      loop iteration.
    - Every call the engine makes to an outside collaborator that performs
      I/O or is visible to the caller (the two matchers, the callback) is
      recorded, in order, in a trace of events. *)

From Stdlib Require Import List Bool ZArith NArith Lia Permutation Sorted.
From Stdlib Require Import Floats.PrimFloat.
From Stdlib Require Import Floats.SpecFloat Floats.FloatOps Floats.FloatAxioms.
Import ListNotations.

(** ** Machine data *)

Definition double : Type := PrimFloat.float.
Definition uint32_t : Type := N.
Definition uint64_t : Type := N.

Bind Scope float_scope with double.
Bind Scope N_scope with uint32_t uint64_t.

(** [a >= b] on doubles (false as soon as one side is NaN). *)
Definition double_ge (a b : double) : bool := PrimFloat.leb b a.

Definition uint64_add (a b : uint64_t) : uint64_t := ((a + b) mod 2 ^ 64)%N.

(** ** Outcomes of a run *)

(** The assertions of retrieval.cpp. *)
Inductive Assertion : Type :=
| MinNumFeaturesUnset      (* ASSERT(IsMinNumFeaturesSet(), ()) *)
| MaxViewportScaleUnset    (* ASSERT(IsMaxViewportScaleSet(), ()) *)
| NullMwmValue             (* ASSERT(value, ()) *)
| ViewportMissesBounds.    (* ASSERT(viewport.IsIntersect(header.GetBounds()), ()) *)

Inductive outcome (A : Type) : Type :=
| Returned (a : A)
| AssertionFailed (which : Assertion)
| OutOfFuel.

Arguments Returned {A} a.
Arguments AssertionFailed {A} which.
Arguments OutOfFuel {A}.

(** ** std::sort and std::set_intersection on vector<uint32_t> *)

(** The ascending rearrangement of a sequence of integers is unique, so any
    sorting function is extensionally [std::sort]; insertion is used here. *)
Fixpoint insert_sorted (x : uint32_t) (l : list uint32_t) : list uint32_t :=
  match l with
  | [] => [x]
  | y :: l' => if (x <=? y)%N then x :: l else y :: insert_sorted x l'
  end.

Fixpoint sort (l : list uint32_t) : list uint32_t :=
  match l with
  | [] => []
  | x :: l' => insert_sorted x (sort l')
  end.

(** The two-pointer merge of [std::set_intersection]: while both ranges are
    non-empty, with heads [x] and [y]: if [x < y] advance the first range;
    else if [y < x] advance the second; else output [x] and advance both. *)
Fixpoint set_intersection (a b : list uint32_t) : list uint32_t :=
  match a with
  | [] => []
  | x :: a' =>
      (fix advance_second (b : list uint32_t) : list uint32_t :=
         match b with
         | [] => []
         | y :: b' =>
             if (x <? y)%N then set_intersection a' b
             else if (y <? x)%N then advance_second b'
             else x :: set_intersection a' b'
         end) b
  end.

(** [bool const EmptyFilter::operator()(uint32_t) const { return true; }] *)
Definition EmptyFilter (featureId : uint32_t) : bool := true.

(** The two container sections a tile must have. *)
Inductive FileTag : Type := SEARCH_INDEX_FILE_TAG | INDEX_FILE_TAG.

(** ** Outside collaborators

    Everything retrieval.cpp uses but does not define: the rectangle
    geometry of [m2::RectD], the tile registry ([Index], [MwmSet::MwmHandle],
    [MwmValue], [MwmInfo]), the trie matcher and the scale index.  They are
    parameters of the development. *)
Class Collaborators : Type := {
  (* m2::RectD *)
  RectD : Type;
  (* [r.Scale(s)] on a copy of [r] *)
  Scale : RectD -> double -> RectD;
  (* [a.IsIntersect(b)] *)
  IsIntersect : RectD -> RectD -> bool;
  (* [a.IsRectInside(b)]: [b] lies inside [a] *)
  IsRectInside : RectD -> RectD -> bool;

  (* MwmSet::MwmId, MwmValue, MwmSet::MwmHandle *)
  MwmId : Type;
  MwmValue : Type;
  MwmHandle : Type;
  IsAlive : MwmHandle -> bool;
  (* [handle.GetValue<MwmValue>()]; the null pointer is [None] *)
  GetValue : MwmHandle -> option MwmValue;
  GetId : MwmHandle -> MwmId;
  (* [value->GetHeader().GetBounds()] and [.GetScaleRange()] *)
  GetBounds : MwmValue -> RectD;
  GetScaleRange : MwmValue -> Z * Z;
  (* [value->m_cont.IsExist(tag)] *)
  IsExist : MwmValue -> FileTag -> bool;

  (* SearchQueryParams *)
  SearchQueryParams : Type;
  m_scale : SearchQueryParams -> Z;

  (* The trie read from the tile's search section, and the values
     [MatchFeaturesInTrie(params, *trieRoot, filter, collector)] hands to
     its collector, in order. *)
  TrieIterator : Type;
  TrieValue : Type;
  ReadTrie : MwmValue -> TrieIterator;
  m_featureId : TrieValue -> uint32_t;
  MatchFeaturesInTrie :
    SearchQueryParams -> TrieIterator -> (uint32_t -> bool) -> list TrieValue;

  (* [covering::CoveringGetter(viewport, ViewportWithLowLevels).Get(scale)] *)
  CoveringIntervals : RectD -> Z -> list (Z * Z);
  (* The ids [index.ForEachInIntervalAndScale(collector, lo, hi, scale)]
     hands to its collector, in order. *)
  ForEachInIntervalAndScale : MwmValue -> Z -> Z -> Z -> list uint32_t;

  (* Index, MwmInfo, platform::CountryFile *)
  Index : Type;
  MwmInfo : Type;
  CountryFile : Type;
  GetMwmsInfo : Index -> list MwmInfo;
  (* [info->GetLocalFile().GetCountryFile()] *)
  GetCountryFile : MwmInfo -> CountryFile;
  GetMwmHandleByCountryFile : Index -> CountryFile -> MwmHandle
}.

Section Retrieval.

Context {C : Collaborators}.

(** ** The trace of a run *)

Inductive Event : Type :=
| AddressMatcherRun (handle : MwmHandle)
| GeometryMatcherRun (handle : MwmHandle) (viewport : RectD)
| OnMwmProcessed (id : MwmId) (offsets : list uint32_t).

(** A computation that may abort and that appends to the trace. *)
Definition M (A : Type) : Type := outcome (A * list Event).

Definition ret {A : Type} (a : A) : M A := Returned (a, []).

Definition bind {A B : Type} (m : M A) (k : A -> M B) : M B :=
  match m with
  | Returned (a, t1) =>
      match k a with
      | Returned (b, t2) => Returned (b, t1 ++ t2)
      | AssertionFailed w => AssertionFailed w
      | OutOfFuel => OutOfFuel
      end
  | AssertionFailed w => AssertionFailed w
  | OutOfFuel => OutOfFuel
  end.

Definition emit (e : Event) : M unit := Returned (tt, [e]).

Definition ASSERT (cond : bool) (which : Assertion) : M unit :=
  if cond then ret tt else AssertionFailed which.

(** [a && b] where evaluating [b] may abort: [b] runs only when [a] holds. *)
Definition and_then (a : bool) (b : M bool) : M bool :=
  if a then b else ret false.

Notation "x <- m ;; k" := (bind m (fun x => k))
  (at level 61, m at next level, right associativity).
Notation "m ;;; k" := (bind m (fun _ => k))
  (at level 61, right associativity).

(** ** Retrieval::Limits *)

Record Limits : Type := {
  m_minNumFeatures : uint64_t;
  m_maxViewportScale : double;
  m_minNumFeaturesSet : bool;
  m_maxViewportScaleSet : bool
}.

Definition Limits_ctor : Limits :=
  {| m_minNumFeatures := 0%N;
     m_maxViewportScale := 0%float;
     m_minNumFeaturesSet := false;
     m_maxViewportScaleSet := false |}.

Definition SetMinNumFeatures (l : Limits) (minNumFeatures : uint64_t) : Limits :=
  {| m_minNumFeatures := minNumFeatures;
     m_maxViewportScale := m_maxViewportScale l;
     m_minNumFeaturesSet := true;
     m_maxViewportScaleSet := m_maxViewportScaleSet l |}.

Definition IsMinNumFeaturesSet (l : Limits) : bool := m_minNumFeaturesSet l.

Definition GetMinNumFeatures (l : Limits) : M uint64_t :=
  ASSERT (IsMinNumFeaturesSet l) MinNumFeaturesUnset ;;;
  ret (m_minNumFeatures l).

Definition SetMaxViewportScale (l : Limits) (maxViewportScale : double) : Limits :=
  {| m_minNumFeatures := m_minNumFeatures l;
     m_maxViewportScale := maxViewportScale;
     m_minNumFeaturesSet := m_minNumFeaturesSet l;
     m_maxViewportScaleSet := true |}.

Definition IsMaxViewportScaleSet (l : Limits) : bool := m_maxViewportScaleSet l.

Definition GetMaxViewportScale (l : Limits) : M double :=
  ASSERT (IsMaxViewportScaleSet l) MaxViewportScaleUnset ;;;
  ret (m_maxViewportScale l).

(** ** The matchers *)

(** [offsets.clear()], then one [push_back(value.m_featureId)] per value the
    trie matcher emits; the result is the new content of [offsets]. *)
Definition RetrieveAddressFeatures (handle : MwmHandle) (params : SearchQueryParams)
  : M (list uint32_t) :=
  emit (AddressMatcherRun handle) ;;;
  match GetValue handle with
  | None => AssertionFailed NullMwmValue
  | Some value =>
      let trieRoot := ReadTrie value in
      ret (map m_featureId (MatchFeaturesInTrie params trieRoot EmptyFilter))
  end.

Definition RetrieveGeometryFeatures (handle : MwmHandle) (viewport : RectD)
  (params : SearchQueryParams) : M (list uint32_t) :=
  emit (GeometryMatcherRun handle viewport) ;;;
  match GetValue handle with
  | None => AssertionFailed NullMwmValue
  | Some value =>
      ASSERT (IsIntersect viewport (GetBounds value)) ViewportMissesBounds ;;;
      let scaleRange := GetScaleRange value in
      let scale := Z.min (Z.max (m_scale params) (fst scaleRange)) (snd scaleRange) in
      let intervals := CoveringIntervals viewport scale in
      ret (flat_map
             (fun interval =>
                ForEachInIntervalAndScale value (fst interval) (snd interval) scale)
             intervals)
  end.

(** ** Retrieval::FeatureBucket *)

Record FeatureBucket : Type := {
  m_handle : MwmHandle;
  m_addressFeatures : list uint32_t;
  m_geometryFeatures : list uint32_t;
  m_intersection : list uint32_t;
  m_bounds : RectD;
  m_intersectsWithViewport : bool;
  m_coveredByViewport : bool;
  m_finished : bool
}.

(** Assignments to one member of a bucket. *)
Definition set_addressFeatures (b : FeatureBucket) (v : list uint32_t) : FeatureBucket :=
  {| m_handle := m_handle b; m_addressFeatures := v;
     m_geometryFeatures := m_geometryFeatures b; m_intersection := m_intersection b;
     m_bounds := m_bounds b; m_intersectsWithViewport := m_intersectsWithViewport b;
     m_coveredByViewport := m_coveredByViewport b; m_finished := m_finished b |}.

Definition set_geometryFeatures (b : FeatureBucket) (v : list uint32_t) : FeatureBucket :=
  {| m_handle := m_handle b; m_addressFeatures := m_addressFeatures b;
     m_geometryFeatures := v; m_intersection := m_intersection b;
     m_bounds := m_bounds b; m_intersectsWithViewport := m_intersectsWithViewport b;
     m_coveredByViewport := m_coveredByViewport b; m_finished := m_finished b |}.

Definition set_intersection_member (b : FeatureBucket) (v : list uint32_t) : FeatureBucket :=
  {| m_handle := m_handle b; m_addressFeatures := m_addressFeatures b;
     m_geometryFeatures := m_geometryFeatures b; m_intersection := v;
     m_bounds := m_bounds b; m_intersectsWithViewport := m_intersectsWithViewport b;
     m_coveredByViewport := m_coveredByViewport b; m_finished := m_finished b |}.

Definition set_intersectsWithViewport (b : FeatureBucket) (v : bool) : FeatureBucket :=
  {| m_handle := m_handle b; m_addressFeatures := m_addressFeatures b;
     m_geometryFeatures := m_geometryFeatures b; m_intersection := m_intersection b;
     m_bounds := m_bounds b; m_intersectsWithViewport := v;
     m_coveredByViewport := m_coveredByViewport b; m_finished := m_finished b |}.

Definition set_coveredByViewport (b : FeatureBucket) (v : bool) : FeatureBucket :=
  {| m_handle := m_handle b; m_addressFeatures := m_addressFeatures b;
     m_geometryFeatures := m_geometryFeatures b; m_intersection := m_intersection b;
     m_bounds := m_bounds b; m_intersectsWithViewport := m_intersectsWithViewport b;
     m_coveredByViewport := v; m_finished := m_finished b |}.

Definition set_finished (b : FeatureBucket) (v : bool) : FeatureBucket :=
  {| m_handle := m_handle b; m_addressFeatures := m_addressFeatures b;
     m_geometryFeatures := m_geometryFeatures b; m_intersection := m_intersection b;
     m_bounds := m_bounds b; m_intersectsWithViewport := m_intersectsWithViewport b;
     m_coveredByViewport := m_coveredByViewport b; m_finished := v |}.

(** [FeatureBucket::FeatureBucket(MwmSet::MwmHandle && handle)]: the three
    vectors are default-constructed, hence empty. *)
Definition FeatureBucket_ctor (handle : MwmHandle) : M FeatureBucket :=
  match GetValue handle with
  | None => AssertionFailed NullMwmValue
  | Some value =>
      ret {| m_handle := handle;
             m_addressFeatures := [];
             m_geometryFeatures := [];
             m_intersection := [];
             m_bounds := GetBounds value;
             m_intersectsWithViewport := false;
             m_coveredByViewport := false;
             m_finished := false |}
  end.

(** ** Retrieval *)

Record Retrieval : Type := {
  m_index : option Index;          (* Index *, null as [None] *)
  m_viewport : RectD;
  m_params : SearchQueryParams;
  m_limits : Limits;
  m_buckets : list FeatureBucket
}.

Definition set_buckets (r : Retrieval) (buckets : list FeatureBucket) : Retrieval :=
  {| m_index := m_index r; m_viewport := m_viewport r; m_params := m_params r;
     m_limits := m_limits r; m_buckets := buckets |}.

(** [v.clear()] *)
Definition clear {A : Type} (v : list A) : list A := [].

(** The admission loop of [Init]: [buckets] is [m_buckets] so far. *)
Fixpoint Init_admit (index : Index) (infos : list MwmInfo)
  (buckets : list FeatureBucket) : M (list FeatureBucket) :=
  match infos with
  | [] => ret buckets
  | info :: infos' =>
      let handle := GetMwmHandleByCountryFile index (GetCountryFile info) in
      if negb (IsAlive handle) then Init_admit index infos' buckets
      else
        match GetValue handle with
        | Some value =>
            if IsExist value SEARCH_INDEX_FILE_TAG && IsExist value INDEX_FILE_TAG
            then
              bucket <- FeatureBucket_ctor handle ;;
              Init_admit index infos' (buckets ++ [bucket])
            else Init_admit index infos' buckets
        | None => Init_admit index infos' buckets
        end
  end.

(** [Retrieval::Init]; [this] is the controller as it was before the call. *)
Definition Init (this : Retrieval) (index : Index) (viewport : RectD)
  (params : SearchQueryParams) (limits : Limits) : M Retrieval :=
  let this := {| m_index := Some index; m_viewport := viewport; m_params := params;
                 m_limits := limits; m_buckets := m_buckets this |} in
  let infos := GetMwmsInfo index in
  let this := set_buckets this (clear (m_buckets this)) in
  buckets <- Init_admit index infos (m_buckets this) ;;
  ret (set_buckets this buckets).

(** [for (auto & bucket : m_buckets) body], the body updating the bucket
    in place. *)
Fixpoint for_each_bucket (body : FeatureBucket -> M FeatureBucket)
  (buckets : list FeatureBucket) : M (list FeatureBucket) :=
  match buckets with
  | [] => ret []
  | bucket :: rest =>
      bucket' <- body bucket ;;
      rest' <- for_each_bucket body rest ;;
      ret (bucket' :: rest')
  end.

Definition empty {A : Type} (v : list A) : bool :=
  match v with [] => true | _ :: _ => false end.

(** The body of the loop of [RetrieveForViewport]. *)
Definition RetrieveForViewport_bucket (params : SearchQueryParams) (viewport : RectD)
  (bucket : FeatureBucket) : M FeatureBucket :=
  if m_coveredByViewport bucket || m_finished bucket
     || negb (IsIntersect viewport (m_bounds bucket))
  then ret bucket
  else
    bucket <-
      (if negb (m_intersectsWithViewport bucket) then
         offsets <- RetrieveAddressFeatures (m_handle bucket) params ;;
         let bucket := set_addressFeatures bucket (sort offsets) in
         ret (set_intersectsWithViewport bucket true)
       else ret bucket) ;;
    bucket <-
      (if negb (m_coveredByViewport bucket) then
         offsets <- RetrieveGeometryFeatures (m_handle bucket) viewport params ;;
         let bucket := set_geometryFeatures bucket (sort offsets) in
         let bucket := set_intersection_member bucket (clear (m_intersection bucket)) in
         ret (set_intersection_member bucket
                (m_intersection bucket
                   ++ set_intersection (m_addressFeatures bucket)
                        (m_geometryFeatures bucket)))
       else ret bucket) ;;
    if negb (m_coveredByViewport bucket) && IsRectInside viewport (m_bounds bucket)
    then
      let bucket := set_coveredByViewport bucket true in
      let bucket := set_finished bucket true in
      (if negb (empty (m_intersection bucket))
       then emit (OnMwmProcessed (GetId (m_handle bucket)) (m_intersection bucket))
       else ret tt) ;;;
      ret bucket
    else ret bucket.

Definition RetrieveForViewport (viewport : RectD) (this : Retrieval) : M Retrieval :=
  buckets <- for_each_bucket (RetrieveForViewport_bucket (m_params this) viewport)
               (m_buckets this) ;;
  ret (set_buckets this buckets).

Fixpoint ViewportCoversAllMwms_from (buckets : list FeatureBucket) : bool :=
  match buckets with
  | [] => true
  | bucket :: rest =>
      if negb (m_coveredByViewport bucket) then false
      else ViewportCoversAllMwms_from rest
  end.

Definition ViewportCoversAllMwms (this : Retrieval) : bool :=
  ViewportCoversAllMwms_from (m_buckets this).

Definition CountRetrievedFeatures (this : Retrieval) : uint64_t :=
  fold_left
    (fun count bucket => uint64_add count (N.of_nat (length (m_intersection bucket))))
    (m_buckets this) 0%N.

Definition kViewportScaleMul : double := PrimFloat.sqrt 2%float.

(** The expansion loop of [Go], entered with the loop variable
    [viewportScale]; [fuel] bounds the number of iterations. *)
Fixpoint Go_loop (fuel : nat) (viewportScale : double) (this : Retrieval) : M Retrieval :=
  match fuel with
  | O => OutOfFuel
  | S fuel' =>
      let scale := viewportScale in
      clamp <- and_then (IsMaxViewportScaleSet (m_limits this))
                 (maxScale <- GetMaxViewportScale (m_limits this) ;;
                  ret (double_ge scale maxScale)) ;;
      scale <- (if clamp then GetMaxViewportScale (m_limits this) else ret scale) ;;
      let viewport := m_viewport this in
      let viewport := Scale viewport scale in
      this <- RetrieveForViewport viewport this ;;
      if ViewportCoversAllMwms this then ret this
      else
        stop <- and_then (IsMaxViewportScaleSet (m_limits this))
                  (maxScale <- GetMaxViewportScale (m_limits this) ;;
                   ret (double_ge scale maxScale)) ;;
        if stop then ret this
        else
          stop <- and_then (IsMinNumFeaturesSet (m_limits this))
                    (minNum <- GetMinNumFeatures (m_limits this) ;;
                     ret (minNum <=? CountRetrievedFeatures this)%N) ;;
          if stop then ret this
          else Go_loop fuel' (PrimFloat.mul viewportScale kViewportScaleMul) this
  end.

(** The body of the loop that follows the expansion loop in [Go]. *)
Definition Go_finish_bucket (bucket : FeatureBucket) : M FeatureBucket :=
  if m_finished bucket then ret bucket
  else
    let bucket := set_finished bucket true in
    (if negb (empty (m_intersection bucket))
     then emit (OnMwmProcessed (GetId (m_handle bucket)) (m_intersection bucket))
     else ret tt) ;;;
    ret bucket.

(** [Retrieval::Go] *)
Definition Go (fuel : nat) (this : Retrieval) : M Retrieval :=
  this <- Go_loop fuel 1%float this ;;
  buckets <- for_each_bucket Go_finish_bucket (m_buckets this) ;;
  ret (set_buckets this buckets).

(** ** Observations

    What the statements below read off a trace, a bucket or the loop. *)

(** The calls [callback.OnMwmProcessed(id, offsets)] of a trace, in order. *)
Definition sink_calls (t : list Event) : list (MwmId * list uint32_t) :=
  flat_map (fun e => match e with OnMwmProcessed id offsets => [(id, offsets)] | _ => [] end) t.

(** The tiles the Address Matcher was run on, in order. *)
Definition address_runs (t : list Event) : list MwmHandle :=
  flat_map (fun e => match e with AddressMatcherRun handle => [handle] | _ => [] end) t.

(** The viewports the Geometry Matcher was run with, in order. *)
Definition geometry_viewports (t : list Event) : list RectD :=
  flat_map (fun e => match e with GeometryMatcherRun _ viewport => [viewport] | _ => [] end) t.

(** What the sink is handed for a bucket that is being finished. *)
Definition report (b : FeatureBucket) : list (MwmId * list uint32_t) :=
  if empty (m_intersection b) then [] else [(GetId (m_handle b), m_intersection b)].

(** The report of a bucket that went from not finished ([before]) to
    finished ([after]); nothing for any other bucket. *)
Definition finished_now (before after : FeatureBucket) : list (MwmId * list uint32_t) :=
  if m_finished before then []
  else if m_finished after then report after else [].

(** The handle of a bucket that went from never intersected to intersected. *)
Definition contacted_now (before after : FeatureBucket) : list MwmHandle :=
  if m_intersectsWithViewport before then []
  else if m_intersectsWithViewport after then [m_handle after] else [].

(** The value of the loop variable [viewportScale] on iteration [k]
    (counting from 0) of the loop of [Go]. *)
Fixpoint viewportScale_at (k : nat) : double :=
  match k with
  | O => 1%float
  | S k' => PrimFloat.mul (viewportScale_at k') kViewportScaleMul
  end.

(** The value of the local [scale] after the clamp, for a given value of the
    loop variable. *)
Definition clamped_scale (limits : Limits) (viewportScale : double) : double :=
  if IsMaxViewportScaleSet limits && double_ge viewportScale (m_maxViewportScale limits)
  then m_maxViewportScale limits
  else viewportScale.

(** The three [break] conditions at the end of an iteration. *)
Definition loop_exits (scale : double) (this : Retrieval) : bool :=
  ViewportCoversAllMwms this
  || (IsMaxViewportScaleSet (m_limits this)
      && double_ge scale (m_maxViewportScale (m_limits this)))
  || (IsMinNumFeaturesSet (m_limits this)
      && (m_minNumFeatures (m_limits this) <=? CountRetrievedFeatures this)%N).

(** The admission test of [Init]. *)
Definition admitted (handle : MwmHandle) : bool :=
  IsAlive handle
  && match GetValue handle with
     | Some value =>
         IsExist value SEARCH_INDEX_FILE_TAG && IsExist value INDEX_FILE_TAG
     | None => false
     end.

(** [b] is the bucket the constructor builds for [handle]. *)
Definition fresh_bucket_of (handle : MwmHandle) (b : FeatureBucket) : Prop :=
  m_handle b = handle
  /\ (exists value, GetValue handle = Some value /\ m_bounds b = GetBounds value)
  /\ m_addressFeatures b = [] /\ m_geometryFeatures b = [] /\ m_intersection b = []
  /\ m_intersectsWithViewport b = false
  /\ m_coveredByViewport b = false
  /\ m_finished b = false.

(** The bodies of the two loops over [m_buckets] that [Go] runs. *)
Inductive bucket_loop_body (params : SearchQueryParams)
  : (FeatureBucket -> M FeatureBucket) -> Prop :=
| body_pass (viewport : RectD) :
    bucket_loop_body params (RetrieveForViewport_bucket params viewport)
| body_finish : bucket_loop_body params Go_finish_bucket.

(** Zero or more loops over the buckets, run one after the other. *)
Inductive bucket_loops (params : SearchQueryParams)
  : list FeatureBucket -> list FeatureBucket -> list Event -> Prop :=
| loops_none (bs : list FeatureBucket) : bucket_loops params bs bs []
| loops_cons (body : FeatureBucket -> M FeatureBucket)
    (bs bs1 bs2 : list FeatureBucket) (t1 t2 : list Event) :
    bucket_loop_body params body ->
    for_each_bucket body bs = Returned (bs1, t1) ->
    bucket_loops params bs1 bs2 t2 ->
    bucket_loops params bs bs2 (t1 ++ t2).

(** One loop over the buckets, bucket by bucket: the relational reading of
    [for_each_bucket]. *)
Inductive each_bucket (body : FeatureBucket -> M FeatureBucket)
  : list FeatureBucket -> list FeatureBucket -> list Event -> Prop :=
| each_nil : each_bucket body [] [] []
| each_cons (b b' : FeatureBucket) (t : list Event)
    (bs bs' : list FeatureBucket) (ts : list Event) :
    body b = Returned (b', t) ->
    each_bucket body bs bs' ts ->
    each_bucket body (b :: bs) (b' :: bs') (t ++ ts).

(** [f before after], collected over the buckets in order. *)
Definition over_buckets {X : Type} (f : FeatureBucket -> FeatureBucket -> list X)
  (before after : list FeatureBucket) : list X :=
  flat_map (fun p => f (fst p) (snd p)) (combine before after).

(** How a bucket may differ from an earlier state of itself. *)
Definition bucket_evolves (params : SearchQueryParams) (b b' : FeatureBucket) : Prop :=
  m_handle b' = m_handle b
  /\ m_bounds b' = m_bounds b
  /\ (m_finished b = true -> b' = b)
  /\ (m_coveredByViewport b = true -> m_coveredByViewport b' = true)
  /\ (m_intersectsWithViewport b = true ->
      m_intersectsWithViewport b' = true
      /\ m_addressFeatures b' = m_addressFeatures b)
  /\ (m_intersectsWithViewport b' = false -> m_addressFeatures b' = m_addressFeatures b)
  /\ (m_intersectsWithViewport b = false -> m_intersectsWithViewport b' = true ->
      exists offsets tA,
        RetrieveAddressFeatures (m_handle b) params = Returned (offsets, tA)
        /\ m_addressFeatures b' = sort offsets).

(** A bucket no viewport has intersected yet is neither covered nor
    finished. *)
Definition untouched_is_open (b : FeatureBucket) : Prop :=
  m_intersectsWithViewport b = false ->
  m_coveredByViewport b = false /\ m_finished b = false.

(** The handle [Init] acquires for a registry entry. *)
Definition handle_of (index : Index) (info : MwmInfo) : MwmHandle :=
  GetMwmHandleByCountryFile index (GetCountryFile info).

(** Whether a run ended on one of the two assertions of [Limits]. *)
Definition trips_limit_assertion {A : Type} (o : M A) : bool :=
  match o with
  | AssertionFailed MinNumFeaturesUnset => true
  | AssertionFailed MaxViewportScaleUnset => true
  | _ => false
  end.

(** ** Further observations *)

(** The header of the tile is at hand and the bounds were read from it. *)
Definition bucket_has_header (b : FeatureBucket) : Prop :=
  exists value, GetValue (m_handle b) = Some value /\ m_bounds b = GetBounds value.

(** A covered bucket is finished and was intersected. *)
Definition flags_ordered (b : FeatureBucket) : Prop :=
  m_coveredByViewport b = true ->
  m_finished b = true /\ m_intersectsWithViewport b = true.

(** What the three sequences of a bucket hold: nothing before the first
    contact; after it the sorted output of the Address Matcher, the sorted
    output of the Geometry Matcher for some viewport, and their merge. *)
Definition holds_matches (params : SearchQueryParams) (b : FeatureBucket) : Prop :=
  if m_intersectsWithViewport b
  then exists offsets tA viewport geometry tG,
      RetrieveAddressFeatures (m_handle b) params = Returned (offsets, tA)
      /\ RetrieveGeometryFeatures (m_handle b) viewport params = Returned (geometry, tG)
      /\ m_addressFeatures b = sort offsets
      /\ m_geometryFeatures b = sort geometry
      /\ m_intersection b = set_intersection (sort offsets) (sort geometry)
  else m_addressFeatures b = [] /\ m_geometryFeatures b = [] /\ m_intersection b = [].

Definition bucket_sound (params : SearchQueryParams) (b : FeatureBucket) : Prop :=
  bucket_has_header b /\ flags_ordered b /\ holds_matches params b.

(** The runs of the Geometry Matcher of a trace: tile and viewport. *)
Definition geometry_runs (t : list Event) : list (MwmHandle * RectD) :=
  flat_map
    (fun e => match e with
              | GeometryMatcherRun handle viewport => [(handle, viewport)]
              | _ => []
              end) t.

(** The number of ids in a list of sink calls, and in the intersections of
    a list of buckets. *)
Definition ids_delivered (calls : list (MwmId * list uint32_t)) : nat :=
  list_sum (map (fun call => length (snd call)) calls).

Definition ids_retrieved (buckets : list FeatureBucket) : nat :=
  list_sum (map (fun bucket => length (m_intersection bucket)) buckets).


(** What the three sequences of a bucket hold, told with the runs of the
    Geometry Matcher so far ([runs]): nothing before the first contact;
    after it the sorted output of the Address Matcher for the tile, the
    sorted output of the Geometry Matcher for the tile with the viewport of
    one of these runs, and their merge. The bucket is covered exactly when
    that viewport contains its bounds. *)
Definition holds_matches_of (params : SearchQueryParams)
  (runs : list (MwmHandle * RectD)) (b : FeatureBucket) : Prop :=
  if m_intersectsWithViewport b
  then exists offsets tA pass_viewport geometry tG,
      RetrieveAddressFeatures (m_handle b) params = Returned (offsets, tA)
      /\ RetrieveGeometryFeatures (m_handle b) pass_viewport params
         = Returned (geometry, tG)
      /\ In (m_handle b, pass_viewport) runs
      /\ m_coveredByViewport b = IsRectInside pass_viewport (m_bounds b)
      /\ m_addressFeatures b = sort offsets
      /\ m_geometryFeatures b = sort geometry
      /\ m_intersection b = set_intersection (sort offsets) (sort geometry)
  else m_coveredByViewport b = false
       /\ m_addressFeatures b = [] /\ m_geometryFeatures b = []
       /\ m_intersection b = [].


End Retrieval.

(** * The callbacks of the integration tests

    [search/integration_tests/retrieval_test.cpp] drives [Init] and [Go]
    with two implementations of [Retrieval::Callback]. A failing [TEST]
    ends the callback with the failure. [MwmSet::MwmId] is compared with
    [operator==], a parameter here. *)
Section TestCallbacks.

Context {C : Collaborators}.
Variable MwmId_eqb : MwmId -> MwmId -> bool.

Inductive TestFailure : Type :=
| CallbackTriggeredTwice   (* TEST(!m_triggered, ("Callback must be triggered only once.")) *)
| UnexpectedMwm            (* TEST_EQUAL(m_id, id, ()) *)
| UnknownMwm               (* TEST(it != m_ids.cend(), ("Unknown mwm:", id)) *)
| MwmTriggeredTwice.       (* TEST(rt == m_retrieved.cend(), ...) *)

Inductive tested (A : Type) : Type :=
| Passed (a : A)
| Failed (why : TestFailure).

Arguments Passed {A} a.
Arguments Failed {A} why.

(** [class TestCallback] *)
Record TestCallback : Type := {
  m_id : MwmId;
  m_offsets : list uint32_t;
  m_triggered : bool
}.

Definition TestCallback_ctor (id : MwmId) : TestCallback :=
  {| m_id := id; m_offsets := []; m_triggered := false |}.

Definition TestCallback_OnMwmProcessed (this : TestCallback) (id : MwmId)
  (offsets : list uint32_t) : tested TestCallback :=
  if negb (negb (m_triggered this)) then Failed CallbackTriggeredTwice
  else if negb (MwmId_eqb (m_id this) id) then Failed UnexpectedMwm
  else Passed {| m_id := m_id this; m_offsets := offsets; m_triggered := true |}.

Definition WasTriggered (this : TestCallback) : bool := m_triggered this.
Definition Offsets (this : TestCallback) : list uint32_t := m_offsets this.

(** [class MultiMwmCallback]; the [set<MwmSet::MwmId>] is kept as a list
    without repetitions. *)
Record MultiMwmCallback : Type := {
  m_ids : list MwmId;
  m_retrieved : list MwmId;
  m_numFeatures : uint64_t
}.

Definition MultiMwmCallback_ctor (ids : list MwmId) : MultiMwmCallback :=
  {| m_ids := ids; m_retrieved := []; m_numFeatures := 0%N |}.

(** [s.find(id) != s.cend()] and [s.insert(id)] *)
Definition contains (s : list MwmId) (id : MwmId) : bool := existsb (MwmId_eqb id) s.
Definition set_insert (s : list MwmId) (id : MwmId) : list MwmId :=
  if contains s id then s else id :: s.

Definition MultiMwmCallback_OnMwmProcessed (this : MultiMwmCallback) (id : MwmId)
  (offsets : list uint32_t) : tested MultiMwmCallback :=
  if negb (contains (m_ids this) id) then Failed UnknownMwm
  else if negb (negb (contains (m_retrieved this) id)) then Failed MwmTriggeredTwice
  else Passed {| m_ids := m_ids this;
                 m_retrieved := set_insert (m_retrieved this) id;
                 m_numFeatures :=
                   uint64_add (m_numFeatures this) (N.of_nat (length offsets)) |}.

Definition GetNumMwms (this : MultiMwmCallback) : uint64_t :=
  N.of_nat (length (m_retrieved this)).
Definition GetNumFeatures (this : MultiMwmCallback) : uint64_t := m_numFeatures this.

(** The callback as [Go] drives it: one call of [OnMwmProcessed] for each
    sink call of the trace, in order, until a [TEST] fails. *)
Fixpoint deliver {S : Type} (OnMwmProcessed : S -> MwmId -> list uint32_t -> tested S)
  (callback : S) (calls : list (MwmId * list uint32_t)) : tested S :=
  match calls with
  | [] => Passed callback
  | (id, offsets) :: calls' =>
      match OnMwmProcessed callback id offsets with
      | Passed callback' => deliver OnMwmProcessed callback' calls'
      | Failed why => Failed why
      end
  end.

End TestCallbacks.

Arguments Passed {A} a.
Arguments Failed {A} why.


(** * Pixel traits ([namespace yg])

    The channel converters of the pixel formats: [DownsampleImpl],
    [Downsample] and the constants of [RGBA8Traits] and [RGBA4Traits].
    Channels are unsigned; a pixel is the sequence of its channels;
    [unsigned] template arguments are 32 bits wide. *)
Module yg.

(** [a - b] on [unsigned] *)
Definition unsigned_sub (a b : N) : N := ((a + 2 ^ 32 - b mod 2 ^ 32) mod 2 ^ 32)%N.

(** [ch1 / Denom]: the value that [ch2 = ch1 / Denom] assigns, before its
    conversion to the type [Ch2] of [ch2]; [DownsampleImpl_to] below adds
    the conversion. *)
Definition DownsampleImpl (Denom : N) (ch1 : N) : N := (ch1 / Denom)%N.

(** [ch2 = ch1 / Denom] with the template parameter [Ch2] told: [Ch2] is
    the conversion of the quotient to the type of [ch2], whose result is the
    value that [ch2] holds afterwards. *)
Definition DownsampleImpl_to (Ch2 : N -> N) (Denom : N) (ch1 : N) : N :=
  Ch2 (DownsampleImpl Denom ch1).

(** The conversion to an unsigned integral channel type of [bits] bits:
    the value modulo [2^bits]. *)
Definition unsigned_channel (bits : N) (value : N) : N := (value mod 2 ^ bits)%N.

(** [static const int Denom = 1 << (FromBig - ToSmall)]: an [int] only
    when the shift is below 31. *)
Definition Downsample_Denom (FromBig ToSmall : N) : option N :=
  let shift := unsigned_sub FromBig ToSmall in
  if (shift <? 31)%N then Some (N.shiftl 1 shift) else None.

(** [static_for_each(src, dst, op)]: [op] on every channel of [src], the
    result written to the corresponding channel of [dst]. *)
Definition static_for_each (op : N -> N) (src : list N) : list N := map op src.

(** [Downsample<FromBig, ToSmall>::operator()]: the quotients assigned to
    the channels of [dst], which are its new content where the channels of
    [dst] hold them unchanged; [Downsample_to] below adds the conversion to
    the channel type of [dst]. *)
Definition Downsample (FromBig ToSmall : N) (src : list N) : option (list N) :=
  match Downsample_Denom FromBig ToSmall with
  | Some Denom => Some (static_for_each (DownsampleImpl Denom) src)
  | None => None
  end.

(** [Downsample<FromBig, ToSmall>::operator()] with the channel type of the
    template parameter [DstP] told: the new content of [dst]. *)
Definition Downsample_to (Ch2 : N -> N) (FromBig ToSmall : N) (src : list N)
  : option (list N) :=
  match Downsample_Denom FromBig ToSmall with
  | Some Denom => Some (static_for_each (DownsampleImpl_to Ch2 Denom) src)
  | None => None
  end.

Record Traits : Type := {
  maxChannelVal : Z;
  channelScaleFactor : Z;
  color_converter : N * N        (* the arguments of [Downsample<_, _>] *)
}.

Definition RGBA8Traits : Traits :=
  {| maxChannelVal := 255; channelScaleFactor := 1; color_converter := (8, 8)%N |}.

Definition RGBA4Traits : Traits :=
  {| maxChannelVal := 15; channelScaleFactor := 16; color_converter := (8, 4)%N |}.

(** [DATA_TRAITS], by whether [OMIM_GL_ES] is defined. *)
Definition DATA_TRAITS (OMIM_GL_ES : bool) : Traits :=
  if OMIM_GL_ES then RGBA4Traits else RGBA8Traits.

Definition convert (traits : Traits) (src : list N) : option (list N) :=
  Downsample (fst (color_converter traits)) (snd (color_converter traits)) src.

End yg.


(** * A concrete registry

    A small world on which the engine runs by computation: rectangles with
    [double] corners, tiles whose features sit on the integer grid
    [0..10] x [0..10], one covering cell per grid point. It mirrors the
    fixtures of [search/integration_tests/retrieval_test.cpp]. *)
Module Town.

Record Rect : Type := {
  minX : double; minY : double; maxX : double; maxY : double
}.

(** Modelled from the spec: [m2::RectD] (geometry/rect2d.hpp) is not part of
    the sources at hand. "Scaling a rectangle by s means uniform scaling
    about its centroid." *)
Definition Rect_Scale (r : Rect) (s : double) : Rect :=
  let cx := PrimFloat.div (PrimFloat.add (minX r) (maxX r)) 2%float in
  let cy := PrimFloat.div (PrimFloat.add (minY r) (maxY r)) 2%float in
  let hx := PrimFloat.mul (PrimFloat.sub (maxX r) (minX r)) (PrimFloat.mul s 0.5%float) in
  let hy := PrimFloat.mul (PrimFloat.sub (maxY r) (minY r)) (PrimFloat.mul s 0.5%float) in
  {| minX := PrimFloat.sub cx hx; minY := PrimFloat.sub cy hy;
     maxX := PrimFloat.add cx hx; maxY := PrimFloat.add cy hy |}.

(** Modelled from the spec: "the viewport intersects bounds" for
    axis-aligned rectangles. *)
Definition Rect_IsIntersect (a b : Rect) : bool :=
  negb (PrimFloat.ltb (maxX a) (minX b) || PrimFloat.ltb (maxX b) (minX a)
        || PrimFloat.ltb (maxY a) (minY b) || PrimFloat.ltb (maxY b) (minY a)).

Definition Rect_IsPointInside (a : Rect) (x y : double) : bool :=
  PrimFloat.leb (minX a) x && PrimFloat.leb x (maxX a)
  && PrimFloat.leb (minY a) y && PrimFloat.leb y (maxY a).

(** Modelled from the spec: "the viewport fully contains bounds". *)
Definition Rect_IsRectInside (a b : Rect) : bool :=
  Rect_IsPointInside a (minX b) (minY b) && Rect_IsPointInside a (maxX b) (maxY b).

(** A tile: its registry entry, its header, its trie (token, feature id) and
    its scale index (cell, feature id). *)
Record Tile : Type := {
  tile_id : N;
  tile_alive : bool;
  tile_loaded : bool;
  tile_hasSearchIndex : bool;
  tile_hasGeometryIndex : bool;
  tile_bounds : Rect;
  tile_scaleRange : Z * Z;
  tile_trie : list (N * uint32_t);
  tile_cells : list (Z * uint32_t)
}.

Record Params : Type := { params_token : N; params_scale : Z }.

Definition axis : list (Z * double) :=
  [(0%Z, 0%float); (1%Z, 1%float); (2%Z, 2%float); (3%Z, 3%float);
   (4%Z, 4%float); (5%Z, 5%float); (6%Z, 6%float); (7%Z, 7%float);
   (8%Z, 8%float); (9%Z, 9%float); (10%Z, 10%float)].

Definition cell (x y : Z) : Z := (x * 11 + y)%Z.

(** The cells whose grid point lies in the viewport, one interval each. *)
Definition covering (viewport : Rect) (scale : Z) : list (Z * Z) :=
  flat_map
    (fun px =>
       flat_map
         (fun py =>
            if Rect_IsPointInside viewport (snd px) (snd py)
            then [(cell (fst px) (fst py), cell (fst px) (fst py))]
            else [])
         axis)
    axis.

Definition features_in_interval (tile : Tile) (lo hi scale : Z) : list uint32_t :=
  map snd (filter (fun entry => (lo <=? fst entry)%Z && (fst entry <=? hi)%Z)
             (tile_cells tile)).

Definition match_trie (params : Params) (trie : list (N * uint32_t))
  (filter_ : uint32_t -> bool) : list uint32_t :=
  map snd (filter (fun entry => (fst entry =? params_token params)%N && filter_ (snd entry))
             trie).

Definition no_tile : Tile :=
  {| tile_id := 0; tile_alive := false; tile_loaded := false;
     tile_hasSearchIndex := false; tile_hasGeometryIndex := false;
     tile_bounds := {| minX := 0; minY := 0; maxX := 0; maxY := 0 |};
     tile_scaleRange := (0, 17)%Z; tile_trie := []; tile_cells := [] |}.

Definition handle_by_id (index : list Tile) (id : N) : Tile :=
  match find (fun tile => (tile_id tile =? id)%N) index with
  | Some tile => tile
  | None => no_tile
  end.

#[export] Instance world : Collaborators := {|
  RectD := Rect;
  Scale := Rect_Scale;
  IsIntersect := Rect_IsIntersect;
  IsRectInside := Rect_IsRectInside;
  MwmId := N;
  MwmValue := Tile;
  MwmHandle := Tile;
  IsAlive := tile_alive;
  GetValue := fun tile => if tile_loaded tile then Some tile else None;
  GetId := tile_id;
  GetBounds := tile_bounds;
  GetScaleRange := tile_scaleRange;
  IsExist := fun tile tag =>
    match tag with
    | SEARCH_INDEX_FILE_TAG => tile_hasSearchIndex tile
    | INDEX_FILE_TAG => tile_hasGeometryIndex tile
    end;
  SearchQueryParams := Params;
  m_scale := params_scale;
  TrieIterator := list (N * uint32_t);
  TrieValue := uint32_t;
  ReadTrie := tile_trie;
  m_featureId := fun value => value;
  MatchFeaturesInTrie := match_trie;
  CoveringIntervals := covering;
  ForEachInIntervalAndScale := features_in_interval;
  Index := list Tile;
  MwmInfo := Tile;
  CountryFile := N;
  GetMwmsInfo := fun index => index;
  GetCountryFile := tile_id;
  GetMwmHandleByCountryFile := handle_by_id
|}.

Definition rect (x0 y0 x1 y1 : double) : Rect :=
  {| minX := x0; minY := y0; maxX := x1; maxY := y1 |}.

Definition tile (id : N) (bounds : Rect) (trie : list (N * uint32_t))
  (cells : list (Z * uint32_t)) : Tile :=
  {| tile_id := id; tile_alive := true; tile_loaded := true;
     tile_hasSearchIndex := true; tile_hasGeometryIndex := true;
     tile_bounds := bounds; tile_scaleRange := (0, 17)%Z;
     tile_trie := trie; tile_cells := cells |}.

(** Token 1 is "whiskey bar", token 2 is "mtv". *)
Definition whiskey : Params := {| params_token := 1; params_scale := 17 |}.
Definition mtv_query : Params := {| params_token := 2; params_scale := 17 |}.

(** Retrieval_Smoke: a hundred bars on [0..9] x [0..9], feature [10 x + y]
    at [(x, y)]. *)
Definition grid10 : list (Z * Z) :=
  flat_map (fun x => map (fun y => (x, y)) [0; 1; 2; 3; 4; 5; 6; 7; 8; 9]%Z)
    [0; 1; 2; 3; 4; 5; 6; 7; 8; 9]%Z.

Definition WhiskeyTown : Tile :=
  tile 1 (rect 0 0 9 9)
    (map (fun p => (1%N, Z.to_N (fst p * 10 + snd p))) grid10)
    (map (fun p => (cell (fst p) (snd p), Z.to_N (fst p * 10 + snd p))) grid10).

(** Retrieval_3Mwms: one feature per tile, at (0,0), (10,0) and (0,10). *)
Definition msk : Tile := tile 11 (rect 0 0 0 0) [(2%N, 0%N)] [(cell 0 0, 0%N)].
Definition mtv : Tile := tile 12 (rect 10 0 10 0) [(2%N, 0%N)] [(cell 10 0, 0%N)].
Definition zrh : Tile := tile 13 (rect 0 10 0 10) [(2%N, 0%N)] [(cell 0 10, 0%N)].

(** A tile without a search section, and a handle that is not alive. *)
Definition roads_only : Tile :=
  {| tile_id := 14; tile_alive := true; tile_loaded := true;
     tile_hasSearchIndex := false; tile_hasGeometryIndex := true;
     tile_bounds := rect 0 0 1 1; tile_scaleRange := (0, 17)%Z;
     tile_trie := []; tile_cells := [(cell 0 0, 5%N)] |}.
Definition deregistered : Tile :=
  {| tile_id := 15; tile_alive := false; tile_loaded := false;
     tile_hasSearchIndex := true; tile_hasGeometryIndex := true;
     tile_bounds := rect 0 0 1 1; tile_scaleRange := (0, 17)%Z;
     tile_trie := [(2%N, 3%N)]; tile_cells := [(cell 0 0, 3%N)] |}.

(** A tile in which feature 7 is a street: it is indexed under two names
    that both carry token 1, and its geometry crosses two cells. *)
Definition HighStreet : Tile :=
  tile 21 (rect 0 0 1 0) [(1%N, 7%N); (1%N, 7%N)] [(cell 0 0, 7%N); (cell 1 0, 7%N)].

(** A controller that has never been initialised. *)
Definition blank : Retrieval :=
  {| m_index := None; m_viewport := rect 0 0 0 0; m_params := whiskey;
     m_limits := Limits_ctor; m_buckets := [] |}.

Definition initialised (index : list Tile) (viewport : Rect) (params : Params)
  (limits : Limits) : Retrieval :=
  match Init blank index viewport params limits with
  | Returned (r, _) => r
  | _ => blank
  end.

(** The runs the statements below are checked on. *)

Definition outcome_of (run : M Retrieval) (otherwise : Retrieval) : Retrieval * list Event :=
  match run with
  | Returned result => result
  | _ => (otherwise, [])
  end.

Definition unit_square : Rect := rect 0 0 1 1.
Definition around_origin : Rect := rect (-1) (-1) 1 1.

(** Retrieval_3Mwms without limits, the registry also holding a tile
    without search section and a dead handle. *)
Definition registry : list Tile := [msk; roads_only; mtv; deregistered; zrh].
Definition three_tiles : Retrieval :=
  Eval vm_compute in initialised registry around_origin mtv_query Limits_ctor.
Definition three_tiles_done : Retrieval * list Event :=
  Eval vm_compute in outcome_of (Go 10 three_tiles) three_tiles.

(** Retrieval_3Mwms with [SetMinNumFeatures(1)]. *)
Definition three_tiles_min1 : Retrieval :=
  Eval vm_compute in
    initialised registry around_origin mtv_query (SetMinNumFeatures Limits_ctor 1).
Definition three_tiles_min1_done : Retrieval * list Event :=
  Eval vm_compute in outcome_of (Go 10 three_tiles_min1) three_tiles_min1.

(** Retrieval_Smoke with [SetMaxViewportScale(5.0)]. *)
Definition bars_max5 : Retrieval :=
  Eval vm_compute in initialised [WhiskeyTown] unit_square whiskey (SetMaxViewportScale Limits_ctor 5).
Definition bars_max5_done : Retrieval * list Event :=
  Eval vm_compute in outcome_of (Go 10 bars_max5) bars_max5.

(** Retrieval_Smoke with [SetMinNumFeatures(0)]. *)
Definition bars_min0 : Retrieval :=
  Eval vm_compute in initialised [WhiskeyTown] unit_square whiskey (SetMinNumFeatures Limits_ctor 0).
Definition bars_min0_done : Retrieval * list Event :=
  Eval vm_compute in outcome_of (Go 10 bars_min0) bars_min0.

(** The street that both matchers emit twice. *)
Definition street : Retrieval :=
  Eval vm_compute in initialised [HighStreet] unit_square whiskey Limits_ctor.
Definition street_done : Retrieval * list Event :=
  Eval vm_compute in outcome_of (Go 10 street) street.

(** A registry in which no tile is admitted. *)
Definition nothing_admitted : Retrieval :=
  Eval vm_compute in initialised [roads_only; deregistered] unit_square whiskey Limits_ctor.

Definition hd_bucket (r : Retrieval) : FeatureBucket :=
  match m_buckets r with
  | b :: _ => b
  | [] =>
      {| m_handle := no_tile; m_addressFeatures := []; m_geometryFeatures := [];
         m_intersection := []; m_bounds := rect 0 0 0 0;
         m_intersectsWithViewport := false; m_coveredByViewport := false;
         m_finished := false |}
  end.

(** Retrieval_Smoke with [SetMaxViewportScale(0.5)]. *)
Definition bars_max_half : Retrieval :=
  Eval vm_compute in
    initialised [WhiskeyTown] unit_square whiskey (SetMaxViewportScale Limits_ctor 0.5).


End Town.

(** * Properties *)

(** ** Sorting and intersecting *)

Lemma insert_sorted_perm (x : uint32_t) (l : list uint32_t) :
  Permutation (x :: l) (insert_sorted x l).
Proof.
  induction l as [|y l IH]; simpl.
  - apply Permutation_refl.
  - destruct (x <=? y)%N.
    + apply Permutation_refl.
    + eapply perm_trans; [apply perm_swap|]. now apply perm_skip.
Qed.

Lemma sort_perm (l : list uint32_t) : Permutation l (sort l).
Proof.
  induction l as [|x l IH]; simpl.
  - apply perm_nil.
  - eapply perm_trans; [apply perm_skip, IH|]. apply insert_sorted_perm.
Qed.

Lemma insert_sorted_ascending (x : uint32_t) (l : list uint32_t) :
  StronglySorted N.le l -> StronglySorted N.le (insert_sorted x l).
Proof.
  induction 1 as [|y l Hl IH Hy]; simpl.
  - repeat constructor.
  - destruct (N.leb_spec x y) as [Hxy|Hxy].
    + constructor; [now constructor|].
      constructor; [exact Hxy|].
      eapply Forall_impl; [|exact Hy]. intros z Hz. simpl in Hz. lia.
    + constructor; [exact IH|].
      eapply Permutation_Forall; [apply insert_sorted_perm|].
      constructor; [lia|exact Hy].
Qed.

Lemma sort_ascending (l : list uint32_t) : StronglySorted N.le (sort l).
Proof.
  induction l as [|x l IH]; simpl.
  - constructor.
  - now apply insert_sorted_ascending.
Qed.

Lemma ascending_NoDup_strict (l : list uint32_t) :
  StronglySorted N.le l -> NoDup l -> StronglySorted N.lt l.
Proof.
  induction 1 as [|x l Hl IH Hx]; intros Hnd.
  - constructor.
  - inversion Hnd as [|? ? Hnotin Hnd']; subst.
    constructor; [now apply IH|].
    rewrite Forall_forall in Hx |- *. intros y Hy.
    specialize (Hx y Hy). simpl in Hx.
    assert (x <> y) by (intros ->; contradiction). lia.
Qed.

Lemma sort_strict (l : list uint32_t) : NoDup l -> StronglySorted N.lt (sort l).
Proof.
  intros Hnd. apply ascending_NoDup_strict.
  - apply sort_ascending.
  - eapply Permutation_NoDup; [apply sort_perm|exact Hnd].
Qed.

(** Every output of the merge is taken from the first range and is matched
    by an equal element of the second. *)
Lemma set_intersection_In (a b : list uint32_t) (z : uint32_t) :
  In z (set_intersection a b) -> In z a /\ In z b.
Proof.
  revert b. induction a as [|x a IHa]; intros b; simpl; [tauto|].
  induction b as [|y b IHb]; simpl; [tauto|].
  destruct (N.ltb_spec x y) as [Hxy|Hxy].
  - intros H. apply IHa in H. simpl in H. tauto.
  - destruct (N.ltb_spec y x) as [Hyx|Hyx].
    + intros H. apply IHb in H. tauto.
    + assert (x = y) by lia. subst y. simpl.
      intros [->|H]; [tauto|]. apply IHa in H. tauto.
Qed.

Section Sublists.

Variable R : uint32_t -> uint32_t -> Prop.

(** The output keeps the order of the second range ... *)
Lemma set_intersection_sorted_second (a b : list uint32_t) :
  StronglySorted R b -> StronglySorted R (set_intersection a b).
Proof.
  revert b. induction a as [|x a IHa]; intros b Hb; simpl; [constructor|].
  induction Hb as [|y b Hb IHb Hy]; simpl; [constructor|].
  destruct (N.ltb_spec x y) as [Hxy|Hxy].
  - apply IHa. now constructor.
  - destruct (N.ltb_spec y x) as [Hyx|Hyx].
    + exact IHb.
    + assert (x = y) by lia. subst y.
      constructor; [now apply IHa|].
      rewrite Forall_forall in Hy |- *. intros z Hz.
      apply Hy. now apply set_intersection_In in Hz.
Qed.

(** ... and the order of the first. *)
Lemma set_intersection_sorted_first (a b : list uint32_t) :
  StronglySorted R a -> StronglySorted R (set_intersection a b).
Proof.
  intros Ha. revert b. induction Ha as [|x a Ha IHa Hx]; intros b; simpl; [constructor|].
  induction b as [|y b IHb]; simpl; [constructor|].
  destruct (N.ltb_spec x y) as [Hxy|Hxy].
  - apply IHa.
  - destruct (N.ltb_spec y x) as [Hyx|Hyx].
    + exact IHb.
    + constructor; [apply IHa|].
      rewrite Forall_forall in Hx |- *. intros z Hz.
      apply Hx. now apply set_intersection_In in Hz.
Qed.

End Sublists.

Section Properties.

Context {C : Collaborators}.

Notation "x <- m ;; k" := (bind m (fun x => k))
  (at level 61, m at next level, right associativity).
Notation "m ;;; k" := (bind m (fun _ => k))
  (at level 61, right associativity).

(** ** The monad *)

Lemma bind_Returned (A B : Type) (m : M A) (k : A -> M B) (b : B) (t : list Event) :
  bind m k = Returned (b, t) ->
  exists a t1 t2, m = Returned (a, t1) /\ k a = Returned (b, t2) /\ t = t1 ++ t2.
Proof.
  unfold bind. destruct m as [[a t1]| |]; try discriminate.
  destruct (k a) as [[b' t2]| |] eqn:Hk; try discriminate.
  intros H. inversion H; subst. now exists a, t1, t2.
Qed.

Lemma ret_Returned (A : Type) (a a' : A) (t : list Event) :
  ret a = Returned (a', t) -> a' = a /\ t = [].
Proof. unfold ret. intros H. now inversion H. Qed.

Lemma sink_calls_app (t1 t2 : list Event) :
  sink_calls (t1 ++ t2) = sink_calls t1 ++ sink_calls t2.
Proof. apply flat_map_app. Qed.

Lemma address_runs_app (t1 t2 : list Event) :
  address_runs (t1 ++ t2) = address_runs t1 ++ address_runs t2.
Proof. apply flat_map_app. Qed.

Lemma geometry_viewports_app (t1 t2 : list Event) :
  geometry_viewports (t1 ++ t2) = geometry_viewports t1 ++ geometry_viewports t2.
Proof. apply flat_map_app. Qed.

(** ** The matchers *)

Lemma RetrieveAddressFeatures_trace (handle : MwmHandle) (params : SearchQueryParams)
  (offsets : list uint32_t) (t : list Event) :
  RetrieveAddressFeatures handle params = Returned (offsets, t) ->
  t = [AddressMatcherRun handle].
Proof.
  unfold RetrieveAddressFeatures, emit, bind, ret.
  destruct (GetValue handle); try discriminate.
  intros H. now inversion H.
Qed.

Lemma RetrieveGeometryFeatures_trace (handle : MwmHandle) (viewport : RectD)
  (params : SearchQueryParams) (offsets : list uint32_t) (t : list Event) :
  RetrieveGeometryFeatures handle viewport params = Returned (offsets, t) ->
  t = [GeometryMatcherRun handle viewport].
Proof.
  unfold RetrieveGeometryFeatures, emit, bind, ret, ASSERT.
  destruct (GetValue handle); try discriminate.
  destruct (IsIntersect _ _); try discriminate.
  intros H. now inversion H.
Qed.

(** ** One bucket, one pass *)

(** What the body of [RetrieveForViewport] does to a bucket it does not skip. *)
Lemma RetrieveForViewport_bucket_visited (params : SearchQueryParams) (viewport : RectD)
  (b b' : FeatureBucket) (t : list Event) :
  m_coveredByViewport b || m_finished b || negb (IsIntersect viewport (m_bounds b)) = false ->
  RetrieveForViewport_bucket params viewport b = Returned (b', t) ->
  exists address tA geometry,
    (if m_intersectsWithViewport b
     then address = m_addressFeatures b /\ tA = []
     else exists offsets,
         RetrieveAddressFeatures (m_handle b) params = Returned (offsets, tA)
         /\ address = sort offsets)
    /\ RetrieveGeometryFeatures (m_handle b) viewport params
       = Returned (geometry, [GeometryMatcherRun (m_handle b) viewport])
    /\ b' = {| m_handle := m_handle b;
               m_addressFeatures := address;
               m_geometryFeatures := sort geometry;
               m_intersection := set_intersection address (sort geometry);
               m_bounds := m_bounds b;
               m_intersectsWithViewport := true;
               m_coveredByViewport := IsRectInside viewport (m_bounds b);
               m_finished := IsRectInside viewport (m_bounds b) |}
    /\ t = tA ++ [GeometryMatcherRun (m_handle b) viewport]
           ++ (if IsRectInside viewport (m_bounds b)
                  && negb (empty (set_intersection address (sort geometry)))
               then [OnMwmProcessed (GetId (m_handle b))
                       (set_intersection address (sort geometry))]
               else []).
Proof.
  intros Hskip H. unfold RetrieveForViewport_bucket in H. rewrite Hskip in H.
  apply orb_false_elim in Hskip as [Hskip _].
  apply orb_false_elim in Hskip as [Hcov Hfin].
  apply bind_Returned in H as (b1 & t1 & t' & H1 & H & ->).
  apply bind_Returned in H as (b2 & t2 & t3 & H2 & H3 & ->).
  assert (Hb1 : exists address,
             (if m_intersectsWithViewport b
              then address = m_addressFeatures b /\ t1 = []
              else exists offsets,
                  RetrieveAddressFeatures (m_handle b) params = Returned (offsets, t1)
                  /\ address = sort offsets)
             /\ b1 = set_intersectsWithViewport (set_addressFeatures b address) true).
  { destruct (m_intersectsWithViewport b) eqn:Hint; simpl in H1.
    - apply ret_Returned in H1 as [-> ->]. exists (m_addressFeatures b). split; [tauto|].
      destruct b; simpl in *; now subst.
    - apply bind_Returned in H1 as (offsets & tA & tB & HA & HB & ->).
      apply ret_Returned in HB as [-> ->]. rewrite app_nil_r.
      exists (sort offsets). split; [|reflexivity]. now exists offsets. }
  destruct Hb1 as (address & Haddr & ->).
  simpl in H2. rewrite Hcov in H2. simpl in H2.
  apply bind_Returned in H2 as (geometry & tG & tB & HG & HB & ->).
  apply ret_Returned in HB as [-> ->]. rewrite app_nil_r.
  pose proof (RetrieveGeometryFeatures_trace _ _ _ _ _ HG) as ->.
  exists address, t1, geometry. split; [exact Haddr|]. split; [exact HG|].
  simpl in H3. rewrite Hcov in H3. simpl in H3.
  destruct (IsRectInside viewport (m_bounds b)); simpl in H3 |- *.
  - apply bind_Returned in H3 as ([] & tS & tB & HS & HB & ->).
    apply ret_Returned in HB as [-> ->]. rewrite app_nil_r.
    split; [reflexivity|].
    destruct (empty (set_intersection address (sort geometry))); simpl in HS |- *.
    + apply ret_Returned in HS as [_ ->]. reflexivity.
    + unfold emit in HS. inversion HS; subst. reflexivity.
  - apply ret_Returned in H3 as [-> ->]. split; [|reflexivity].
    unfold set_intersection_member, set_geometryFeatures,
      set_intersectsWithViewport, set_addressFeatures; simpl.
    now rewrite Hcov, Hfin.
Qed.

Lemma RetrieveForViewport_bucket_skipped (params : SearchQueryParams) (viewport : RectD)
  (b : FeatureBucket) :
  m_coveredByViewport b || m_finished b || negb (IsIntersect viewport (m_bounds b)) = true ->
  RetrieveForViewport_bucket params viewport b = ret b.
Proof. intros H. unfold RetrieveForViewport_bucket. now rewrite H. Qed.

(** What the body of the final loop of [Go] does to a bucket. *)
Lemma Go_finish_bucket_eq (b : FeatureBucket) :
  Go_finish_bucket b
  = Returned (if m_finished b then b else set_finished b true,
              if m_finished b || empty (m_intersection b) then []
              else [OnMwmProcessed (GetId (m_handle b)) (m_intersection b)]).
Proof.
  unfold Go_finish_bucket. destruct (m_finished b); [reflexivity|].
  simpl. destruct (empty (m_intersection b)); reflexivity.
Qed.

Lemma bind_ret_l (A B : Type) (a : A) (k : A -> M B) : bind (ret a) k = k a.
Proof. unfold bind, ret. destruct (k a) as [[b t]| |]; reflexivity. Qed.

(** ** One loop over the buckets *)

Lemma for_each_bucket_each (body : FeatureBucket -> M FeatureBucket)
  (bs bs' : list FeatureBucket) (t : list Event) :
  for_each_bucket body bs = Returned (bs', t) <-> each_bucket body bs bs' t.
Proof.
  split.
  - revert bs' t. induction bs as [|b bs IH]; intros bs' t H; simpl in H.
    + apply ret_Returned in H as [-> ->]. constructor.
    + apply bind_Returned in H as (b' & t1 & t2 & Hb & H & ->).
      apply bind_Returned in H as (rest & t3 & t4 & Hrest & H & ->).
      apply ret_Returned in H as [-> ->]. rewrite app_nil_r.
      constructor; [exact Hb|now apply IH].
  - induction 1 as [|b b' t bs bs' ts Hb _ IH]; simpl; [reflexivity|].
    rewrite Hb, IH. unfold bind, ret. now rewrite app_nil_r.
Qed.

Lemma each_bucket_Forall2 (body : FeatureBucket -> M FeatureBucket)
  (R : FeatureBucket -> FeatureBucket -> Prop)
  (bs bs' : list FeatureBucket) (t : list Event) :
  (forall b b' t, body b = Returned (b', t) -> R b b') ->
  each_bucket body bs bs' t -> Forall2 R bs bs'.
Proof.
  intros HR. induction 1; constructor; eauto.
Qed.

Lemma each_bucket_over (X : Type) (body : FeatureBucket -> M FeatureBucket)
  (obs : list Event -> list X) (f : FeatureBucket -> FeatureBucket -> list X)
  (bs bs' : list FeatureBucket) (t : list Event) :
  (forall t1 t2, obs (t1 ++ t2) = obs t1 ++ obs t2) -> obs [] = [] ->
  (forall b b' t, body b = Returned (b', t) -> obs t = f b b') ->
  each_bucket body bs bs' t -> obs t = over_buckets f bs bs'.
Proof.
  intros Happ Hnil Hf. induction 1 as [|b b' t bs bs' ts Hb _ IH]; [exact Hnil|].
  rewrite Happ, IH, (Hf _ _ _ Hb). reflexivity.
Qed.

(** ** How a bucket evolves *)

Lemma bucket_evolves_refl (params : SearchQueryParams) (b : FeatureBucket) :
  bucket_evolves params b b.
Proof.
  unfold bucket_evolves. repeat split; auto.
  intros H1 H2. congruence.
Qed.

Lemma bucket_evolves_trans (params : SearchQueryParams) (a b c : FeatureBucket) :
  bucket_evolves params a b -> bucket_evolves params b c -> bucket_evolves params a c.
Proof.
  intros (Hh1 & Hb1 & Hf1 & Hc1 & Hi1 & Hn1 & Hr1) (Hh2 & Hb2 & Hf2 & Hc2 & Hi2 & Hn2 & Hr2).
  unfold bucket_evolves. repeat split.
  - congruence.
  - congruence.
  - intros Hf. specialize (Hf1 Hf). subst b. auto.
  - auto.
  - destruct (Hi1 H) as [Hib _]. now apply Hi2.
  - destruct (Hi1 H) as [Hib Hab]. destruct (Hi2 Hib) as [_ Hac]. congruence.
  - intros Hc. rewrite (Hn2 Hc). apply Hn1.
    destruct (m_intersectsWithViewport b) eqn:Hib; [|reflexivity].
    destruct (Hi2 eq_refl) as [Hic _]. congruence.
  - intros Ha Hc. destruct (m_intersectsWithViewport b) eqn:Hib.
    + destruct (Hr1 Ha eq_refl) as (offsets & tA & HA & Hs).
      exists offsets, tA. split; [exact HA|].
      destruct (Hi2 eq_refl) as [_ Hac]. congruence.
    + destruct (Hr2 eq_refl Hc) as (offsets & tA & HA & Hs).
      exists offsets, tA. rewrite <- Hh1. split; [exact HA|exact Hs].
Qed.

(** Every step of either loop body: how the bucket changes, which calls
    reach the sink, and whether the Address Matcher is run. *)
Lemma bucket_loop_body_step (params : SearchQueryParams)
  (body : FeatureBucket -> M FeatureBucket) (b b' : FeatureBucket) (t : list Event) :
  bucket_loop_body params body ->
  body b = Returned (b', t) ->
  bucket_evolves params b b'
  /\ sink_calls t = finished_now b b'
  /\ address_runs t = contacted_now b b'.
Proof.
  intros [viewport|] H.
  - destruct (m_coveredByViewport b || m_finished b
              || negb (IsIntersect viewport (m_bounds b))) eqn:Hskip.
    + rewrite (RetrieveForViewport_bucket_skipped params viewport b Hskip) in H.
      apply ret_Returned in H as [-> ->].
      split; [apply bucket_evolves_refl|].
      unfold finished_now, contacted_now.
      destruct (m_finished b), (m_intersectsWithViewport b); auto.
    + destruct (RetrieveForViewport_bucket_visited params viewport b b' t Hskip H)
        as (address & tA & geometry & Haddr & HG & -> & ->).
      apply orb_false_elim in Hskip as [Hskip _].
      apply orb_false_elim in Hskip as [Hcov Hfin].
      unfold bucket_evolves, finished_now, contacted_now, report; simpl.
      rewrite Hfin, Hcov.
      rewrite !sink_calls_app, !address_runs_app.
      destruct (m_intersectsWithViewport b) eqn:Hint.
      * destruct Haddr as [-> ->]. simpl.
        repeat split; try congruence.
        destruct (IsRectInside viewport (m_bounds b)); simpl; [|reflexivity].
        destruct (empty _); reflexivity.
        destruct (IsRectInside viewport (m_bounds b) && _); reflexivity.
      * destruct Haddr as (offsets & HA & ->).
        pose proof (RetrieveAddressFeatures_trace _ _ _ _ HA) as ->. simpl.
        repeat split; try congruence.
        -- intros _ _. now exists offsets, [AddressMatcherRun (m_handle b)].
        -- destruct (IsRectInside viewport (m_bounds b)); simpl; [|reflexivity].
           destruct (empty _); reflexivity.
        -- destruct (IsRectInside viewport (m_bounds b) && _); reflexivity.
  - rewrite Go_finish_bucket_eq in H. inversion H; subst; clear H.
    unfold bucket_evolves, finished_now, contacted_now, report.
    destruct (m_finished b) eqn:Hfin; simpl.
    + repeat split; auto; try congruence.
      destruct (m_intersectsWithViewport b); reflexivity.
    + repeat split; auto; try congruence;
        destruct (empty (m_intersection b)), (m_intersectsWithViewport b);
        reflexivity.
Qed.

(** ** Several loops in a row *)

Lemma Forall2_same (X : Type) (R : X -> X -> Prop) (l : list X) :
  (forall x, R x x) -> Forall2 R l l.
Proof. intros HR. induction l; constructor; auto. Qed.

Lemma Forall2_compose (X : Type) (R : X -> X -> Prop) (l1 l2 l3 : list X) :
  (forall a b c, R a b -> R b c -> R a c) ->
  Forall2 R l1 l2 -> Forall2 R l2 l3 -> Forall2 R l1 l3.
Proof.
  intros HR H12. revert l3. induction H12; intros l3 H23; inversion H23; subst;
    constructor; eauto.
Qed.

Lemma bucket_loops_app (params : SearchQueryParams)
  (bs bs1 bs2 : list FeatureBucket) (t1 t2 : list Event) :
  bucket_loops params bs bs1 t1 -> bucket_loops params bs1 bs2 t2 ->
  bucket_loops params bs bs2 (t1 ++ t2).
Proof.
  induction 1 as [|body bs bs1 bs1' ta tb Hbody Hfirst _ IH]; intros H2.
  - exact H2.
  - rewrite <- app_assoc. econstructor; eauto.
Qed.

Lemma bucket_loops_one (params : SearchQueryParams)
  (body : FeatureBucket -> M FeatureBucket) (bs bs' : list FeatureBucket) (t : list Event) :
  bucket_loop_body params body ->
  for_each_bucket body bs = Returned (bs', t) ->
  bucket_loops params bs bs' t.
Proof.
  intros Hbody H. rewrite <- (app_nil_r t). econstructor; eauto. constructor.
Qed.

Lemma bucket_loops_evolve (params : SearchQueryParams)
  (bs bs' : list FeatureBucket) (t : list Event) :
  bucket_loops params bs bs' t -> Forall2 (bucket_evolves params) bs bs'.
Proof.
  induction 1 as [bs|body bs bs1 bs2 t1 t2 Hbody Hfirst _ IH].
  - apply Forall2_same, bucket_evolves_refl.
  - eapply Forall2_compose; [apply bucket_evolves_trans| |exact IH].
    apply for_each_bucket_each in Hfirst.
    eapply each_bucket_Forall2; [|exact Hfirst].
    intros b b' t Hb. now apply (bucket_loop_body_step params body b b' t Hbody Hb).
Qed.

Lemma over_buckets_cons (X : Type) (f : FeatureBucket -> FeatureBucket -> list X)
  (a b : FeatureBucket) (l1 l2 : list FeatureBucket) :
  over_buckets f (a :: l1) (b :: l2) = f a b ++ over_buckets f l1 l2.
Proof. reflexivity. Qed.

Lemma over_buckets_same (X : Type) (f : FeatureBucket -> FeatureBucket -> list X)
  (l : list FeatureBucket) :
  (forall b, f b b = []) -> over_buckets f l l = [].
Proof.
  intros Hf. induction l as [|b l IH]; [reflexivity|].
  rewrite over_buckets_cons, Hf, IH. reflexivity.
Qed.

Lemma over_buckets_telescope (X : Type) (f : FeatureBucket -> FeatureBucket -> list X)
  (R : FeatureBucket -> FeatureBucket -> Prop) (l1 l2 l3 : list FeatureBucket) :
  (forall a b c, R a b -> R b c -> f a b ++ f b c = f a c) ->
  Forall2 R l1 l2 -> Forall2 R l2 l3 ->
  Permutation (over_buckets f l1 l2 ++ over_buckets f l2 l3) (over_buckets f l1 l3).
Proof.
  intros Hf H12. revert l3.
  induction H12 as [|a b l1 l2 Hab _ IH]; intros l3 H23; inversion H23 as [|? c ? l3' Hbc H23']; subst.
  - apply perm_nil.
  - rewrite !over_buckets_cons, <- (Hf a b c Hab Hbc), <- !app_assoc.
    apply Permutation_app_head.
    eapply perm_trans; [apply Permutation_app_swap_app|].
    apply Permutation_app_head. now apply IH.
Qed.

(** What a run of loops shows of an observation that telescopes. *)
Lemma bucket_loops_over (X : Type) (params : SearchQueryParams)
  (obs : list Event -> list X) (f : FeatureBucket -> FeatureBucket -> list X)
  (bs bs' : list FeatureBucket) (t : list Event) :
  (forall t1 t2, obs (t1 ++ t2) = obs t1 ++ obs t2) -> obs [] = [] ->
  (forall body b b' t, bucket_loop_body params body ->
                       body b = Returned (b', t) -> obs t = f b b') ->
  (forall b, f b b = []) ->
  (forall a b c, bucket_evolves params a b -> bucket_evolves params b c ->
                 f a b ++ f b c = f a c) ->
  bucket_loops params bs bs' t ->
  Permutation (obs t) (over_buckets f bs bs').
Proof.
  intros Happ Hnil Hstep Hsame Htel.
  induction 1 as [bs|body bs bs1 bs2 t1 t2 Hbody Hfirst Hrest IH].
  - rewrite Hnil, over_buckets_same by exact Hsame. apply perm_nil.
  - rewrite Happ. pose proof Hfirst as Hev. apply for_each_bucket_each in Hfirst.
    rewrite (each_bucket_over X body obs f bs bs1 t1 Happ Hnil (fun b b' t => Hstep body b b' t Hbody) Hfirst).
    eapply perm_trans; [apply Permutation_app_head, IH|].
    apply over_buckets_telescope with (R := bucket_evolves params).
    + exact Htel.
    + eapply bucket_loops_evolve, bucket_loops_one; eauto.
    + eapply bucket_loops_evolve; eauto.
Qed.

Lemma finished_now_same (b : FeatureBucket) : finished_now b b = [].
Proof. unfold finished_now. now destruct (m_finished b). Qed.

Lemma finished_now_telescope (params : SearchQueryParams) (a b c : FeatureBucket) :
  bucket_evolves params a b -> bucket_evolves params b c ->
  finished_now a b ++ finished_now b c = finished_now a c.
Proof.
  intros (_ & _ & Hf1 & _) (_ & _ & Hf2 & _). unfold finished_now.
  destruct (m_finished a) eqn:Ha.
  - pose proof (Hf1 eq_refl) as ->. pose proof (Hf2 Ha) as ->. now rewrite Ha.
  - destruct (m_finished b) eqn:Hb.
    + pose proof (Hf2 eq_refl) as ->. rewrite Hb. apply app_nil_r.
    + reflexivity.
Qed.

Lemma contacted_now_same (b : FeatureBucket) : contacted_now b b = [].
Proof. unfold contacted_now. now destruct (m_intersectsWithViewport b). Qed.

Lemma contacted_now_telescope (params : SearchQueryParams) (a b c : FeatureBucket) :
  bucket_evolves params a b -> bucket_evolves params b c ->
  contacted_now a b ++ contacted_now b c = contacted_now a c.
Proof.
  intros (_ & _ & _ & _ & Hi1 & _) (Hh2 & _ & _ & _ & Hi2 & _). unfold contacted_now.
  destruct (m_intersectsWithViewport a) eqn:Ha.
  - destruct (Hi1 eq_refl) as [Hb _]. rewrite Hb. reflexivity.
  - destruct (m_intersectsWithViewport b) eqn:Hb.
    + destruct (Hi2 eq_refl) as [Hc _]. rewrite Hc, Hh2. reflexivity.
    + reflexivity.
Qed.

(** ** The loop of [Go] *)

Lemma bind_ext (A B : Type) (m : M A) (k1 k2 : A -> M B) :
  (forall a, k1 a = k2 a) -> bind m k1 = bind m k2.
Proof. intros H. unfold bind. destruct m as [[a t]| |]; [now rewrite H|reflexivity..]. Qed.

Lemma set_buckets_same (r : Retrieval) : set_buckets r (m_buckets r) = r.
Proof. now destruct r. Qed.

Lemma RetrieveForViewport_Returned (viewport : RectD) (r r1 : Retrieval) (t : list Event) :
  RetrieveForViewport viewport r = Returned (r1, t) ->
  for_each_bucket (RetrieveForViewport_bucket (m_params r) viewport) (m_buckets r)
  = Returned (m_buckets r1, t)
  /\ r1 = set_buckets r (m_buckets r1).
Proof.
  unfold RetrieveForViewport. intros H.
  apply bind_Returned in H as (bs & t1 & t2 & Hbs & H & ->).
  apply ret_Returned in H as [-> ->]. rewrite app_nil_r. now split.
Qed.

(** The guarded reads of the limits never trip their assertions. *)
Lemma clamp_bind (B : Type) (limits : Limits) (viewportScale : double)
  (k : double -> M B) :
  (clamp <- and_then (IsMaxViewportScaleSet limits)
              (maxScale <- GetMaxViewportScale limits ;;
               ret (double_ge viewportScale maxScale)) ;;
   scale <- (if clamp then GetMaxViewportScale limits else ret viewportScale) ;;
   k scale)
  = k (clamped_scale limits viewportScale).
Proof.
  unfold clamped_scale, and_then, GetMaxViewportScale, ASSERT, IsMaxViewportScaleSet.
  destruct (m_maxViewportScaleSet limits); simpl.
  - destruct (double_ge viewportScale (m_maxViewportScale limits)); simpl;
      destruct (k _) as [[b t]| |]; reflexivity.
  - destruct (k _) as [[b t]| |]; reflexivity.
Qed.

Lemma max_check_bind (B : Type) (limits : Limits) (scale : double) (k : bool -> M B) :
  (stop <- and_then (IsMaxViewportScaleSet limits)
             (maxScale <- GetMaxViewportScale limits ;;
              ret (double_ge scale maxScale)) ;;
   k stop)
  = k (IsMaxViewportScaleSet limits && double_ge scale (m_maxViewportScale limits)).
Proof.
  unfold and_then, GetMaxViewportScale, ASSERT, IsMaxViewportScaleSet.
  destruct (m_maxViewportScaleSet limits); simpl;
    destruct (k _) as [[b t]| |]; reflexivity.
Qed.

Lemma min_check_bind (B : Type) (limits : Limits) (count : uint64_t) (k : bool -> M B) :
  (stop <- and_then (IsMinNumFeaturesSet limits)
             (minNum <- GetMinNumFeatures limits ;;
              ret (minNum <=? count)%N) ;;
   k stop)
  = k (IsMinNumFeaturesSet limits && (m_minNumFeatures limits <=? count)%N).
Proof.
  unfold and_then, GetMinNumFeatures, ASSERT, IsMinNumFeaturesSet.
  destruct (m_minNumFeaturesSet limits); simpl;
    destruct (k _) as [[b t]| |]; reflexivity.
Qed.

(** One iteration is the pass at the clamped scale followed by the exit
    test. *)
Lemma Go_loop_S (fuel : nat) (viewportScale : double) (r : Retrieval) :
  Go_loop (S fuel) viewportScale r
  = (r1 <- RetrieveForViewport
             (Scale (m_viewport r) (clamped_scale (m_limits r) viewportScale)) r ;;
     if loop_exits (clamped_scale (m_limits r) viewportScale) r1 then ret r1
     else Go_loop fuel (PrimFloat.mul viewportScale kViewportScaleMul) r1).
Proof.
  cbn [Go_loop]. rewrite clamp_bind. apply bind_ext. intros r1.
  unfold loop_exits. destruct (ViewportCoversAllMwms r1); [reflexivity|].
  rewrite max_check_bind.
  destruct (IsMaxViewportScaleSet (m_limits r1) && _); [reflexivity|].
  rewrite min_check_bind.
  destruct (IsMinNumFeaturesSet (m_limits r1) && _); reflexivity.
Qed.

Lemma Go_loop_loops (fuel : nat) :
  forall (viewportScale : double) (r r' : Retrieval) (t : list Event),
    Go_loop fuel viewportScale r = Returned (r', t) ->
    bucket_loops (m_params r) (m_buckets r) (m_buckets r') t
    /\ r' = set_buckets r (m_buckets r').
Proof.
  induction fuel as [|fuel IH]; intros viewportScale r r' t H; [discriminate|].
  rewrite Go_loop_S in H.
  apply bind_Returned in H as (r1 & t1 & t2 & Hpass & H & ->).
  apply RetrieveForViewport_Returned in Hpass as [Hpass Hr1].
  destruct (loop_exits _ r1).
  - apply ret_Returned in H as [-> ->]. rewrite app_nil_r. split; [|exact Hr1].
    eapply bucket_loops_one; [apply body_pass|exact Hpass].
  - apply IH in H as [Hloops Hr']. rewrite Hr1 in Hloops, Hr'. simpl in Hloops.
    split; [|exact Hr'].
    econstructor; [apply body_pass|exact Hpass|exact Hloops].
Qed.

Lemma Go_Returned (fuel : nat) (r r' : Retrieval) (t : list Event) :
  Go fuel r = Returned (r', t) ->
  exists rk t1 t2,
    Go_loop fuel 1%float r = Returned (rk, t1)
    /\ for_each_bucket Go_finish_bucket (m_buckets rk) = Returned (m_buckets r', t2)
    /\ r' = set_buckets rk (m_buckets r')
    /\ t = t1 ++ t2.
Proof.
  unfold Go. intros H.
  apply bind_Returned in H as (rk & t1 & t' & Hloop & H & ->).
  apply bind_Returned in H as (bs & t2 & t3 & Hfin & H & ->).
  apply ret_Returned in H as [-> ->]. rewrite app_nil_r.
  now exists rk, t1, t2.
Qed.

(** A run of [Go] is a run of loops over the buckets, and changes nothing
    but the buckets. *)
Lemma Go_loops (fuel : nat) (r r' : Retrieval) (t : list Event) :
  Go fuel r = Returned (r', t) ->
  bucket_loops (m_params r) (m_buckets r) (m_buckets r') t
  /\ r' = set_buckets r (m_buckets r').
Proof.
  intros H. apply Go_Returned in H as (rk & t1 & t2 & Hloop & Hfin & Hr' & ->).
  apply Go_loop_loops in Hloop as [Hloops Hrk].
  split.
  - eapply bucket_loops_app; [exact Hloops|].
    eapply bucket_loops_one; [apply body_finish|exact Hfin].
  - rewrite Hr', Hrk. reflexivity.
Qed.

(** The tile ids of what the newly finished buckets report are among the
    tile ids of the buckets, with no more repetitions. *)
Lemma finished_now_ids_In (params : SearchQueryParams) (bs bs' : list FeatureBucket)
  (id : MwmId) :
  Forall2 (bucket_evolves params) bs bs' ->
  In id (map fst (over_buckets finished_now bs bs')) ->
  In id (map (fun b => GetId (m_handle b)) bs).
Proof.
  induction 1 as [|a b l1 l2 Hab _ IH]; [tauto|].
  rewrite over_buckets_cons, map_app, in_app_iff. simpl.
  intros [Hin|Hin]; [left|right; now apply IH].
  destruct Hab as (Hh & _). unfold finished_now, report in Hin.
  destruct (m_finished a); [contradiction|].
  destruct (m_finished b); [|contradiction].
  destruct (empty _); [contradiction|].
  simpl in Hin. destruct Hin as [<-|[]]. now rewrite Hh.
Qed.

Lemma finished_now_ids_NoDup (params : SearchQueryParams) (bs bs' : list FeatureBucket) :
  Forall2 (bucket_evolves params) bs bs' ->
  NoDup (map (fun b => GetId (m_handle b)) bs) ->
  NoDup (map fst (over_buckets finished_now bs bs')).
Proof.
  induction 1 as [|a b l1 l2 Hab Hrest IH]; intros Hnd; [constructor|].
  simpl in Hnd. inversion Hnd as [|? ? Hnotin Hnd']; subst.
  rewrite over_buckets_cons, map_app.
  unfold finished_now at 1, report.
  destruct (m_finished a); [now apply IH|].
  destruct (m_finished b); [|now apply IH].
  destruct (empty _); [now apply IH|].
  simpl. constructor; [|now apply IH].
  intros Hin. apply Hnotin.
  destruct Hab as (Hh & _). rewrite <- Hh.
  eapply finished_now_ids_In; eauto.
Qed.

(** C2. In every run of [Go], the calls the sink receives are, up to order,
    exactly the reports of the buckets that went from not finished to
    finished during the run, one call for each such bucket whose
    intersection was not empty when it was finished and none for any other
    bucket; a finished bucket stays as it is, so no bucket is finished
    twice; hence, when the buckets carry distinct tile ids, no tile id
    reaches the sink twice. *)
Theorem sink_called_iff_finished_nonempty (fuel : nat) (r r' : Retrieval) (t : list Event) :
  Go fuel r = Returned (r', t) ->
  Permutation (sink_calls t) (over_buckets finished_now (m_buckets r) (m_buckets r'))
  /\ Forall2 (fun b b' => m_handle b' = m_handle b /\ (m_finished b = true -> b' = b))
       (m_buckets r) (m_buckets r')
  /\ (NoDup (map (fun b => GetId (m_handle b)) (m_buckets r)) ->
      NoDup (map fst (sink_calls t)))
  /\ (forall body b b1 t1,
         bucket_loop_body (m_params r) body -> body b = Returned (b1, t1) ->
         sink_calls t1 = finished_now b b1).
Proof.
  intros H. apply Go_loops in H as [Hloops _].
  pose proof (bucket_loops_evolve _ _ _ _ Hloops) as Hev.
  assert (Hperm : Permutation (sink_calls t)
                    (over_buckets finished_now (m_buckets r) (m_buckets r'))).
  { apply bucket_loops_over with (params := m_params r).
    - apply sink_calls_app.
    - reflexivity.
    - intros body b b' t' Hbody Hb.
      now apply (bucket_loop_body_step (m_params r) body b b' t' Hbody Hb).
    - apply finished_now_same.
    - apply finished_now_telescope.
    - exact Hloops. }
  split; [exact Hperm|]. split; [|split].
  - eapply Forall2_impl; [|exact Hev]. intros a b (Hh & _ & Hf & _). now split.
  - intros Hnd. eapply Permutation_NoDup.
    + apply Permutation_sym, Permutation_map, Hperm.
    + eapply finished_now_ids_NoDup; eauto.
  - intros body b b1 t1 Hbody Hb.
    now apply (bucket_loop_body_step (m_params r) body b b1 t1 Hbody Hb).
Qed.

(** C7. A finished bucket is skipped by both loop bodies, which return it as
    it is and record nothing; so the buckets that are finished when [Go]
    starts (or at any point from which the remaining loops are run) are, field
    for field, the same when it returns. *)
Theorem finished_bucket_is_never_mutated (params : SearchQueryParams)
  (body : FeatureBucket -> M FeatureBucket) (b : FeatureBucket) :
  bucket_loop_body params body ->
  m_finished b = true ->
  body b = Returned (b, [])
  /\ (forall bs bs' t, bucket_loops params bs bs' t ->
        Forall2 (fun b b' => m_finished b = true -> b' = b) bs bs')
  /\ (forall fuel r r' t, Go fuel r = Returned (r', t) ->
        Forall2 (fun b b' => m_finished b = true -> b' = b) (m_buckets r) (m_buckets r')).
Proof.
  intros Hbody Hfin. split; [|split].
  - destruct Hbody as [viewport|].
    + apply RetrieveForViewport_bucket_skipped. rewrite Hfin. apply orb_true_iff. left.
      apply orb_true_r.
    + rewrite Go_finish_bucket_eq, Hfin. reflexivity.
  - intros bs bs' t Hloops. apply bucket_loops_evolve in Hloops.
    eapply Forall2_impl; [|exact Hloops]. intros x y (_ & _ & Hf & _). exact Hf.
  - intros fuel r r' t H. apply Go_loops in H as [Hloops _].
    apply bucket_loops_evolve in Hloops.
    eapply Forall2_impl; [|exact Hloops]. intros x y (_ & _ & Hf & _). exact Hf.
Qed.

(** ** Init *)

Lemma Init_admit_fresh (index : Index) (infos : list MwmInfo) :
  forall buckets : list FeatureBucket,
  exists admitted_buckets,
    Init_admit index infos buckets = Returned (buckets ++ admitted_buckets, [])
    /\ Forall2 fresh_bucket_of (filter admitted (map (handle_of index) infos))
         admitted_buckets.
Proof.
  induction infos as [|info infos IH]; intros buckets; simpl.
  - exists []. rewrite app_nil_r. split; [reflexivity|constructor].
  - fold (handle_of index info). unfold admitted at 1.
    destruct (IsAlive (handle_of index info)); simpl.
    + destruct (GetValue (handle_of index info)) as [value|] eqn:Hvalue.
      * destruct (IsExist value SEARCH_INDEX_FILE_TAG && IsExist value INDEX_FILE_TAG).
        -- unfold FeatureBucket_ctor. rewrite Hvalue, bind_ret_l.
           match goal with
           | |- context [Init_admit index infos (buckets ++ [?b])] =>
               destruct (IH (buckets ++ [b])) as (rest & Hrest & Hfresh); exists (b :: rest)
           end.
           rewrite Hrest, <- app_assoc. split; [reflexivity|].
           constructor; [|exact Hfresh].
           unfold fresh_bucket_of; simpl. repeat split; auto. now exists value.
        -- apply IH.
      * apply IH.
    + apply IH.
Qed.

(** C10. [Init] returns, whatever the controller held before, the same
    controller: the four inputs captured, and as buckets one freshly
    constructed bucket (flags false, the three sequences empty, bounds read
    from the tile header) for each registry entry whose handle is alive and
    whose tile has both the search and the geometry index section, in registry
    order, and nothing else. *)
Theorem Init_replaces_working_set (index : Index) (viewport : RectD)
  (params : SearchQueryParams) (limits : Limits) :
  exists r,
    (forall this, Init this index viewport params limits = Returned (r, []))
    /\ m_index r = Some index /\ m_viewport r = viewport
    /\ m_params r = params /\ m_limits r = limits
    /\ Forall2 fresh_bucket_of
         (filter admitted (map (handle_of index) (GetMwmsInfo index)))
         (m_buckets r).
Proof.
  destruct (Init_admit_fresh index (GetMwmsInfo index) []) as (bs & Hbs & Hfresh).
  simpl in Hbs.
  exists {| m_index := Some index; m_viewport := viewport; m_params := params;
            m_limits := limits; m_buckets := bs |}.
  split; [|repeat split; auto].
  intros this. unfold Init, clear, set_buckets; simpl. rewrite Hbs. reflexivity.
Qed.

(** ** Runs on finished or absent buckets *)

Lemma for_each_bucket_finished (params : SearchQueryParams)
  (body : FeatureBucket -> M FeatureBucket) (bs : list FeatureBucket) :
  bucket_loop_body params body ->
  Forall (fun b => m_finished b = true) bs ->
  for_each_bucket body bs = Returned (bs, []).
Proof.
  intros Hbody. induction 1 as [|b bs Hb _ IH]; simpl; [reflexivity|].
  assert (Hstep : body b = Returned (b, [])).
  { destruct Hbody as [viewport|].
    - apply RetrieveForViewport_bucket_skipped. rewrite Hb.
      apply orb_true_iff. left. apply orb_true_r.
    - rewrite Go_finish_bucket_eq, Hb. reflexivity. }
  rewrite Hstep, IH. reflexivity.
Qed.

Lemma RetrieveForViewport_finished (viewport : RectD) (r : Retrieval) :
  Forall (fun b => m_finished b = true) (m_buckets r) ->
  RetrieveForViewport viewport r = Returned (r, []).
Proof.
  intros H. unfold RetrieveForViewport.
  rewrite (for_each_bucket_finished (m_params r) _ _ (body_pass _ viewport) H).
  unfold bind, ret. simpl. now rewrite set_buckets_same.
Qed.

Lemma Go_finish_all (bs bs' : list FeatureBucket) (t : list Event) :
  for_each_bucket Go_finish_bucket bs = Returned (bs', t) ->
  Forall (fun b => m_finished b = true) bs'
  /\ map m_coveredByViewport bs' = map m_coveredByViewport bs
  /\ map m_intersection bs' = map m_intersection bs.
Proof.
  intros H. apply for_each_bucket_each in H.
  induction H as [|b b' t bs bs' ts Hb _ (IH1 & IH2 & IH3)]; [repeat split; constructor|].
  rewrite Go_finish_bucket_eq in Hb. inversion Hb; subst; clear Hb.
  simpl. rewrite IH2, IH3.
  destruct (m_finished b) eqn:Hfin; simpl; repeat split; auto.
Qed.

Lemma ViewportCoversAllMwms_map (r1 r2 : Retrieval) :
  map m_coveredByViewport (m_buckets r1) = map m_coveredByViewport (m_buckets r2) ->
  ViewportCoversAllMwms r1 = ViewportCoversAllMwms r2.
Proof.
  unfold ViewportCoversAllMwms.
  generalize (m_buckets r1) (m_buckets r2).
  induction l as [|a l IH]; intros [|b l'] H; simpl in *; try discriminate; [reflexivity|].
  inversion H as [[Hab Hl]]. rewrite Hab. destruct (m_coveredByViewport b); simpl; auto.
Qed.

Lemma CountRetrievedFeatures_map (r1 r2 : Retrieval) :
  map m_intersection (m_buckets r1) = map m_intersection (m_buckets r2) ->
  CountRetrievedFeatures r1 = CountRetrievedFeatures r2.
Proof.
  unfold CountRetrievedFeatures.
  generalize 0%N. generalize (m_buckets r1) (m_buckets r2).
  induction l as [|a l IH]; intros [|b l'] n H; simpl in *; try discriminate; [reflexivity|].
  inversion H as [[Hab Hl]]. rewrite Hab. now apply IH.
Qed.

(** Running the loop anew on a state whose buckets are all finished and that
    shows the exit test what an earlier run showed it when it stopped. *)
Lemma Go_loop_again (fuel : nat) :
  forall (viewportScale : double) (r rk : Retrieval) (t : list Event),
    Go_loop fuel viewportScale r = Returned (rk, t) ->
    forall r' : Retrieval,
      Forall (fun b => m_finished b = true) (m_buckets r') ->
      m_limits r' = m_limits r ->
      ViewportCoversAllMwms r' = ViewportCoversAllMwms rk ->
      CountRetrievedFeatures r' = CountRetrievedFeatures rk ->
      Go_loop fuel viewportScale r' = Returned (r', []).
Proof.
  induction fuel as [|fuel IH]; intros viewportScale r rk t H r' Hfin Hlim Hcov Hcount;
    [discriminate|].
  rewrite Go_loop_S in H |- *.
  apply bind_Returned in H as (r1 & t1 & t2 & Hpass & H & ->).
  apply RetrieveForViewport_Returned in Hpass as [_ Hr1].
  rewrite (RetrieveForViewport_finished _ r' Hfin), Hlim.
  change (Returned (r', @nil Event)) with (ret r') at 1. rewrite bind_ret_l.
  destruct (loop_exits (clamped_scale (m_limits r) viewportScale) r') eqn:Hexit';
    [reflexivity|].
  destruct (loop_exits (clamped_scale (m_limits r) viewportScale) r1) eqn:Hexit.
  - apply ret_Returned in H as [-> ->].
    unfold loop_exits in Hexit, Hexit'.
    rewrite Hcov, Hcount, Hlim in Hexit'. rewrite Hr1 in Hexit at 2 3 4 5. simpl in Hexit.
    congruence.
  - eapply IH; eauto. rewrite Hr1. simpl. exact Hlim.
Qed.

(** C5. When [Go] returns, every bucket is finished; and [Go] called again
    on the controller it left, without [Init] in between and with the same
    bound on the number of iterations, returns too, leaves the controller as
    it is and records nothing: no matcher is run and the sink is not
    invoked. *)
Theorem second_Go_is_a_no_op (fuel : nat) (r r' : Retrieval) (t : list Event) :
  Go fuel r = Returned (r', t) ->
  Forall (fun b => m_finished b = true) (m_buckets r')
  /\ Go fuel r' = Returned (r', []).
Proof.
  intros H. apply Go_Returned in H as (rk & t1 & t2 & Hloop & Hfin & Hr' & ->).
  destruct (Go_finish_all _ _ _ Hfin) as (Hall & Hcov & Hint).
  split; [exact Hall|].
  assert (Hlim : m_limits r' = m_limits r).
  { rewrite Hr'. apply Go_loop_loops in Hloop as [_ ->]. reflexivity. }
  unfold Go.
  rewrite (Go_loop_again fuel 1%float r rk t1 Hloop r' Hall Hlim
             (ViewportCoversAllMwms_map r' rk Hcov)
             (CountRetrievedFeatures_map r' rk Hint)).
  change (Returned (r', @nil Event)) with (ret r') at 1. rewrite bind_ret_l.
  rewrite (for_each_bucket_finished (m_params r') _ _ (body_finish _) Hall).
  unfold bind, ret. simpl. now rewrite set_buckets_same.
Qed.

(** C8. With no bucket in the working set, [Go] returns after one iteration
    of its loop (one unit of fuel is enough), leaves the controller as it
    is and records nothing. *)
Theorem Go_on_empty_working_set (fuel : nat) (r : Retrieval) :
  m_buckets r = [] ->
  Go_loop 1 1%float r = Returned (r, [])
  /\ Go (S fuel) r = Returned (r, []).
Proof.
  intros Hempty.
  assert (Hloop : forall n, Go_loop (S n) 1%float r = Returned (r, [])).
  { intros n. rewrite Go_loop_S. unfold RetrieveForViewport. rewrite Hempty.
    cbn [for_each_bucket]. rewrite bind_ret_l, <- Hempty, set_buckets_same, bind_ret_l.
    unfold loop_exits, ViewportCoversAllMwms. rewrite Hempty. reflexivity. }
  split; [apply Hloop|].
  unfold Go. rewrite Hloop.
  change (Returned (r, @nil Event)) with (ret r) at 1. rewrite bind_ret_l, Hempty.
  cbn [for_each_bucket]. rewrite bind_ret_l, <- Hempty, set_buckets_same. reflexivity.
Qed.

(** ** The assertions of [Limits] *)

Lemma trips_bind (A B : Type) (m : M A) (k : A -> M B) :
  trips_limit_assertion m = false ->
  (forall a, trips_limit_assertion (k a) = false) ->
  trips_limit_assertion (bind m k) = false.
Proof.
  intros Hm Hk. unfold bind. destruct m as [[a t]|w|]; [|exact Hm|reflexivity].
  specialize (Hk a). destruct (k a) as [[b t']|w|]; [reflexivity|exact Hk|reflexivity].
Qed.

Lemma RetrieveForViewport_bucket_no_trip (params : SearchQueryParams) (viewport : RectD)
  (b : FeatureBucket) :
  trips_limit_assertion (RetrieveForViewport_bucket params viewport b) = false.
Proof.
  unfold RetrieveForViewport_bucket.
  destruct (_ || _ || _); [reflexivity|].
  apply trips_bind.
  - destruct (negb _); [|reflexivity].
    apply trips_bind; [|reflexivity].
    unfold RetrieveAddressFeatures, emit, bind. now destruct (GetValue _).
  - intros b1. apply trips_bind.
    + destruct (negb _); [|reflexivity].
      apply trips_bind; [|reflexivity].
      unfold RetrieveGeometryFeatures, emit, bind, ASSERT.
      destruct (GetValue _); [|reflexivity]. now destruct (IsIntersect _ _).
    + intros b2. destruct (_ && _); [|reflexivity].
      apply trips_bind; [|reflexivity]. now destruct (negb _).
Qed.

Lemma for_each_bucket_no_trip (body : FeatureBucket -> M FeatureBucket)
  (bs : list FeatureBucket) :
  (forall b, trips_limit_assertion (body b) = false) ->
  trips_limit_assertion (for_each_bucket body bs) = false.
Proof.
  intros Hbody. induction bs as [|b bs IH]; [reflexivity|].
  cbn [for_each_bucket]. apply trips_bind; [apply Hbody|].
  intros b'. apply trips_bind; [exact IH|reflexivity].
Qed.

Lemma Go_loop_no_trip (fuel : nat) :
  forall (viewportScale : double) (r : Retrieval),
    trips_limit_assertion (Go_loop fuel viewportScale r) = false.
Proof.
  induction fuel as [|fuel IH]; intros viewportScale r; [reflexivity|].
  rewrite Go_loop_S. apply trips_bind.
  - unfold RetrieveForViewport. apply trips_bind; [|reflexivity].
    apply for_each_bucket_no_trip, RetrieveForViewport_bucket_no_trip.
  - intros r1. destruct (loop_exits _ r1); [reflexivity|apply IH].
Qed.

(** C9. No run of [Go], whatever the limits and the state of the
    controller, ends on the assertion of [GetMinNumFeatures] or of
    [GetMaxViewportScale]; each of the two getters does abort on its
    assertion exactly when its limit is not set. *)
Theorem Go_never_reads_an_unset_limit (fuel : nat) (r : Retrieval) :
  trips_limit_assertion (Go fuel r) = false
  /\ (forall limits,
         GetMinNumFeatures limits
         = if IsMinNumFeaturesSet limits then ret (m_minNumFeatures limits)
           else AssertionFailed MinNumFeaturesUnset)
  /\ (forall limits,
         GetMaxViewportScale limits
         = if IsMaxViewportScaleSet limits then ret (m_maxViewportScale limits)
           else AssertionFailed MaxViewportScaleUnset).
Proof.
  split; [|split].
  - unfold Go. apply trips_bind; [apply Go_loop_no_trip|].
    intros rk. apply trips_bind; [|reflexivity].
    apply for_each_bucket_no_trip. intros b. now rewrite Go_finish_bucket_eq.
  - intros limits. unfold GetMinNumFeatures, ASSERT.
    destruct (IsMinNumFeaturesSet limits); reflexivity.
  - intros limits. unfold GetMaxViewportScale, ASSERT.
    destruct (IsMaxViewportScaleSet limits); reflexivity.
Qed.

(** ** The minimum number of features *)

(** C4, as the code has it. With [min_num_features] set to 0 and no maximum
    scale, the count test [count >= 0] holds after the first pass, so the
    loop is left at the end of its first iteration: [Go] is one pass over the
    base viewport (scale 1.0) followed by the final loop over the buckets,
    whether or not that viewport covers every tile. *)
Theorem Go_with_zero_minimum_is_one_pass (fuel : nat) (r : Retrieval) :
  IsMinNumFeaturesSet (m_limits r) = true ->
  m_minNumFeatures (m_limits r) = 0%N ->
  IsMaxViewportScaleSet (m_limits r) = false ->
  Go (S fuel) r
  = (r1 <- RetrieveForViewport (Scale (m_viewport r) 1%float) r ;;
     buckets <- for_each_bucket Go_finish_bucket (m_buckets r1) ;;
     ret (set_buckets r1 buckets)).
Proof.
  intros Hset Hzero Hmax. unfold Go. rewrite Go_loop_S.
  unfold clamped_scale. rewrite Hmax. cbn [andb].
  destruct (RetrieveForViewport (Scale (m_viewport r) 1%float) r) as [[r1 t1]| |] eqn:Hpass;
    [|reflexivity..].
  apply RetrieveForViewport_Returned in Hpass as [_ Hr1].
  assert (Hexit : loop_exits 1%float r1 = true).
  { unfold loop_exits. rewrite Hr1. cbn [m_limits set_buckets].
    rewrite Hset, Hzero. cbn [andb].
    apply orb_true_iff. right. apply N.leb_le. apply N.le_0_l. }
  cbn [bind]. rewrite Hexit. cbn [bind ret].
  destruct (for_each_bucket Go_finish_bucket (m_buckets r1)) as [[bs t2]| |];
    cbn; rewrite ?app_nil_r; reflexivity.
Qed.

(** ** The viewport of a pass *)

Lemma RetrieveForViewport_bucket_viewport (params : SearchQueryParams) (viewport : RectD)
  (b b' : FeatureBucket) (t : list Event) :
  RetrieveForViewport_bucket params viewport b = Returned (b', t) ->
  Forall (eq viewport) (geometry_viewports t).
Proof.
  intros H.
  destruct (m_coveredByViewport b || m_finished b
            || negb (IsIntersect viewport (m_bounds b))) eqn:Hskip.
  - rewrite (RetrieveForViewport_bucket_skipped params viewport b Hskip) in H.
    apply ret_Returned in H as [_ ->]. constructor.
  - destruct (RetrieveForViewport_bucket_visited params viewport b b' t Hskip H)
      as (address & tA & geometry & Haddr & _ & _ & ->).
    rewrite !geometry_viewports_app.
    assert (HtA : geometry_viewports tA = []).
    { destruct (m_intersectsWithViewport b).
      - now destruct Haddr as [_ ->].
      - destruct Haddr as (offsets & HA & _).
        now rewrite (RetrieveAddressFeatures_trace _ _ _ _ HA). }
    rewrite HtA. simpl.
    constructor; [reflexivity|]. destruct (_ && _); constructor.
Qed.

Lemma RetrieveForViewport_viewport (viewport : RectD) (r r1 : Retrieval) (t : list Event) :
  RetrieveForViewport viewport r = Returned (r1, t) ->
  Forall (eq viewport) (geometry_viewports t).
Proof.
  intros H. apply RetrieveForViewport_Returned in H as [H _].
  apply for_each_bucket_each in H.
  induction H as [|b b' t bs bs' ts Hb _ IH]; [constructor|].
  rewrite geometry_viewports_app. apply Forall_app. split; [|exact IH].
  eapply RetrieveForViewport_bucket_viewport; eauto.
Qed.

Lemma Go_finish_no_geometry (bs bs' : list FeatureBucket) (t : list Event) :
  for_each_bucket Go_finish_bucket bs = Returned (bs', t) ->
  geometry_viewports t = [].
Proof.
  intros H. apply for_each_bucket_each in H.
  induction H as [|b b' t bs bs' ts Hb _ IH]; [reflexivity|].
  rewrite geometry_viewports_app, IH, app_nil_r.
  rewrite Go_finish_bucket_eq in Hb. inversion Hb; subst.
  now destruct (m_finished b || empty (m_intersection b)).
Qed.

Lemma Go_loop_viewports (fuel : nat) :
  forall (k : nat) (r r' : Retrieval) (t : list Event),
    Go_loop fuel (viewportScale_at k) r = Returned (r', t) ->
    Forall (fun viewport =>
              exists k', viewport = Scale (m_viewport r)
                                      (clamped_scale (m_limits r) (viewportScale_at k')))
      (geometry_viewports t).
Proof.
  induction fuel as [|fuel IH]; intros k r r' t H; [discriminate|].
  rewrite Go_loop_S in H.
  apply bind_Returned in H as (r1 & t1 & t2 & Hpass & H & ->).
  rewrite geometry_viewports_app. apply Forall_app. split.
  - eapply Forall_impl; [|eapply RetrieveForViewport_viewport; exact Hpass].
    intros viewport <-. now exists k.
  - apply RetrieveForViewport_Returned in Hpass as [_ Hr1].
    destruct (loop_exits _ r1).
    + apply ret_Returned in H as [_ ->]. constructor.
    + apply (IH (S k)) in H. rewrite Hr1 in H. exact H.
Qed.

(** C1, as the code has it. Each iteration of the loop of [Go] hands the
    pass the base viewport scaled by the clamped [scale], the very value the
    second exit test reads; the clamped scale reaches the maximum only by
    being equal to it. So every viewport the Geometry Matcher is run with
    in a run of [Go] is the base viewport scaled by the clamped value of
    some iterate of [viewportScale], never by more than a set maximum. *)
Theorem pass_viewport_uses_clamped_scale (fuel : nat) (r r' : Retrieval) (t : list Event) :
  Go fuel r = Returned (r', t) ->
  Forall (fun viewport =>
            exists k, viewport = Scale (m_viewport r)
                                   (clamped_scale (m_limits r) (viewportScale_at k)))
    (geometry_viewports t)
  /\ (forall n viewportScale,
         Go_loop (S n) viewportScale r
         = (r1 <- RetrieveForViewport
                    (Scale (m_viewport r) (clamped_scale (m_limits r) viewportScale)) r ;;
            if loop_exits (clamped_scale (m_limits r) viewportScale) r1 then ret r1
            else Go_loop n (PrimFloat.mul viewportScale kViewportScaleMul) r1))
  /\ (forall viewportScale,
         IsMaxViewportScaleSet (m_limits r) = true ->
         double_ge (clamped_scale (m_limits r) viewportScale)
           (m_maxViewportScale (m_limits r)) = true ->
         clamped_scale (m_limits r) viewportScale = m_maxViewportScale (m_limits r)).
Proof.
  intros H. split; [|split].
  - apply Go_Returned in H as (rk & t1 & t2 & Hloop & Hfin & _ & ->).
    rewrite geometry_viewports_app, (Go_finish_no_geometry _ _ _ Hfin), app_nil_r.
    exact (Go_loop_viewports fuel 0 r rk t1 Hloop).
  - intros n viewportScale. apply Go_loop_S.
  - intros viewportScale Hset. unfold clamped_scale. rewrite Hset. cbn [andb].
    destruct (double_ge viewportScale (m_maxViewportScale (m_limits r))) eqn:Hge;
      [reflexivity|congruence].
Qed.

(** ** The Address Matcher *)

Lemma Init_Returned (this : Retrieval) (index : Index) (viewport : RectD)
  (params : SearchQueryParams) (limits : Limits) (r : Retrieval) (t : list Event) :
  Init this index viewport params limits = Returned (r, t) ->
  t = [] /\ m_params r = params /\ m_limits r = limits /\ m_viewport r = viewport
  /\ Forall2 fresh_bucket_of
       (filter admitted (map (handle_of index) (GetMwmsInfo index))) (m_buckets r).
Proof.
  destruct (Init_admit_fresh index (GetMwmsInfo index) []) as (bs & Hbs & Hfresh).
  simpl in Hbs. unfold Init, clear, set_buckets; simpl. rewrite Hbs.
  unfold bind, ret. intros H. inversion H; subst. simpl. auto.
Qed.

Lemma fresh_buckets_untouched (handles : list MwmHandle) (bs : list FeatureBucket) :
  Forall2 fresh_bucket_of handles bs ->
  Forall (fun b => m_intersectsWithViewport b = false /\ m_addressFeatures b = []
                   /\ m_intersection b = [] /\ m_coveredByViewport b = false
                   /\ m_finished b = false) bs.
Proof.
  induction 1 as [|h b hs bs Hb _ IH]; constructor; [|exact IH].
  destruct Hb as (_ & _ & Ha & _ & Hi & Hf1 & Hf2 & Hf3). auto.
Qed.

Lemma contacted_now_from_untouched (params : SearchQueryParams)
  (bs bs' : list FeatureBucket) :
  Forall (fun b => m_intersectsWithViewport b = false) bs ->
  Forall2 (bucket_evolves params) bs bs' ->
  over_buckets contacted_now bs bs'
  = map m_handle (filter m_intersectsWithViewport bs').
Proof.
  intros Hbs Hev. induction Hev as [|a b l1 l2 Hab _ IH]; [reflexivity|].
  inversion Hbs as [|? ? Ha Hl1]; subst.
  rewrite over_buckets_cons, (IH Hl1). unfold contacted_now. rewrite Ha. simpl.
  destruct (m_intersectsWithViewport b); reflexivity.
Qed.

(** C6, as the code has it. Over one retrieval ([Init], then [Go]) the
    Address Matcher is run at most once for a bucket: once for each bucket
    that some pass's viewport intersected, and for no other bucket; such a
    bucket holds the sorted output of that run, a bucket never intersected
    holds no address features. The run takes place in the first pass whose
    viewport intersects the bounds: a bucket not yet intersected stays
    neither covered nor finished while the passes go on, a pass leaves it
    alone when its viewport misses the bounds, and otherwise runs the
    matcher once, stores the sorted output and sets
    [m_intersectsWithViewport]. From then on no step runs the matcher on
    the bucket or writes its address features. *)
Theorem address_matcher_runs_at_first_contact_only
  (this : Retrieval) (index : Index) (viewport : RectD) (params : SearchQueryParams)
  (limits : Limits) (r0 : Retrieval) (t0 : list Event)
  (fuel : nat) (r' : Retrieval) (t : list Event) :
  Init this index viewport params limits = Returned (r0, t0) ->
  Go fuel r0 = Returned (r', t) ->
  Permutation (address_runs t)
    (map m_handle (filter m_intersectsWithViewport (m_buckets r')))
  /\ Forall (fun b' =>
               if m_intersectsWithViewport b'
               then exists offsets tA,
                   RetrieveAddressFeatures (m_handle b') params = Returned (offsets, tA)
                   /\ m_addressFeatures b' = sort offsets
               else m_addressFeatures b' = [])
       (m_buckets r')
  /\ Forall untouched_is_open (m_buckets r0)
  /\ (forall pass_viewport b b1 t1,
         RetrieveForViewport_bucket params pass_viewport b = Returned (b1, t1) ->
         untouched_is_open b ->
         untouched_is_open b1
         /\ (m_intersectsWithViewport b = false ->
             m_intersectsWithViewport b1 = IsIntersect pass_viewport (m_bounds b)
             /\ address_runs t1
                = (if IsIntersect pass_viewport (m_bounds b) then [m_handle b] else [])
             /\ (if IsIntersect pass_viewport (m_bounds b)
                 then exists offsets tA,
                     RetrieveAddressFeatures (m_handle b) params = Returned (offsets, tA)
                     /\ m_addressFeatures b1 = sort offsets
                 else m_addressFeatures b1 = m_addressFeatures b)))
  /\ (forall body b b1 t1,
         bucket_loop_body params body -> body b = Returned (b1, t1) ->
         m_intersectsWithViewport b = true ->
         m_intersectsWithViewport b1 = true
         /\ m_addressFeatures b1 = m_addressFeatures b
         /\ address_runs t1 = []).
Proof.
  intros HInit HGo.
  apply Init_Returned in HInit as (_ & Hparams & _ & _ & Hfresh).
  apply fresh_buckets_untouched in Hfresh.
  apply Go_loops in HGo as [Hloops _]. rewrite Hparams in Hloops.
  pose proof (bucket_loops_evolve _ _ _ _ Hloops) as Hev.
  split; [|split; [|split; [|split]]].
  - rewrite <- (contacted_now_from_untouched params (m_buckets r0) (m_buckets r')).
    + apply bucket_loops_over with (params := params).
      * apply address_runs_app.
      * reflexivity.
      * intros body b b' t' Hbody Hb.
        now apply (bucket_loop_body_step params body b b' t' Hbody Hb).
      * apply contacted_now_same.
      * apply contacted_now_telescope.
      * exact Hloops.
    + eapply Forall_impl; [|exact Hfresh]. now intros b (H & _).
    + exact Hev.
  - clear Hloops. induction Hev as [|a b l1 l2 Hab _ IH]; [constructor|].
    inversion Hfresh as [|? ? (Hflag & Haddr & _) Hl1]; subst.
    constructor; [|now apply IH].
    destruct Hab as (Hh & _ & _ & _ & _ & Hno & Hyes).
    destruct (m_intersectsWithViewport b) eqn:Hb.
    + destruct (Hyes Hflag eq_refl) as (offsets & tA & HA & Hs).
      exists offsets, tA. now rewrite Hh.
    + now rewrite (Hno eq_refl).
  - eapply Forall_impl; [|exact Hfresh].
    intros b (_ & _ & _ & Hc & Hf) _. now split.
  - intros pass_viewport b b1 t1 Hb Hopen.
    destruct (m_coveredByViewport b || m_finished b
              || negb (IsIntersect pass_viewport (m_bounds b))) eqn:Hskip.
    + rewrite (RetrieveForViewport_bucket_skipped params pass_viewport b Hskip) in Hb.
      apply ret_Returned in Hb as [-> ->].
      split; [exact Hopen|]. intros Hflag.
      destruct (Hopen Hflag) as [Hc Hf]. rewrite Hc, Hf in Hskip. simpl in Hskip.
      apply negb_true_iff in Hskip. rewrite Hskip. now rewrite Hflag.
    + destruct (RetrieveForViewport_bucket_visited params pass_viewport b b1 t1 Hskip Hb)
        as (address & tA & geometry & Haddr & _ & -> & ->).
      apply orb_false_elim in Hskip as [_ Hint]. apply negb_false_iff in Hint.
      split; [intros Hcontra; discriminate|].
      intros Hflag. rewrite Hflag in Haddr. rewrite Hint.
      destruct Haddr as (offsets & HA & ->).
      rewrite (RetrieveAddressFeatures_trace _ _ _ _ HA), !address_runs_app. simpl.
      split; [reflexivity|]. split.
      * now destruct (IsRectInside pass_viewport (m_bounds b) && _).
      * now exists offsets, tA.
  - intros body b b1 t1 Hbody Hb Hflag.
    destruct (bucket_loop_body_step params body b b1 t1 Hbody Hb)
      as ((_ & _ & _ & _ & Hkeep & _) & _ & Hruns).
    destruct (Hkeep Hflag) as [H1 H2]. split; [exact H1|]. split; [exact H2|].
    rewrite Hruns. unfold contacted_now. now rewrite Hflag.
Qed.

(** ** What the sink receives *)

Lemma each_bucket_invariant (body : FeatureBucket -> M FeatureBucket)
  (I : FeatureBucket -> Prop) (bs bs' : list FeatureBucket) (t : list Event) :
  (forall b b' t, body b = Returned (b', t) -> I b -> I b') ->
  each_bucket body bs bs' t -> Forall I bs -> Forall I bs'.
Proof.
  intros Hstep. induction 1 as [|b b' t bs bs' ts Hb _ IH]; intros HI; [constructor|].
  inversion HI; subst. constructor; eauto.
Qed.

Lemma bucket_loops_invariant (params : SearchQueryParams) (I : FeatureBucket -> Prop)
  (bs bs' : list FeatureBucket) (t : list Event) :
  (forall body b b' t, bucket_loop_body params body ->
                       body b = Returned (b', t) -> I b -> I b') ->
  bucket_loops params bs bs' t -> Forall I bs -> Forall I bs'.
Proof.
  intros Hstep. induction 1 as [bs|body bs bs1 bs2 t1 t2 Hbody Hfirst _ IH]; intros HI.
  - exact HI.
  - apply IH. apply for_each_bucket_each in Hfirst.
    eapply each_bucket_invariant; [|exact Hfirst|exact HI].
    intros b b' t Hb. now apply (Hstep body b b' t Hbody Hb).
Qed.

End Properties.

(** * Further properties of the engine *)
Section Further.

Context {C : Collaborators}.

(** ** What reaches the sink, and when the loop stops *)

Lemma Go_sink_calls (fuel : nat) (r r' : Retrieval) (t : list Event) :
  Go fuel r = Returned (r', t) ->
  Permutation (sink_calls t) (over_buckets finished_now (m_buckets r) (m_buckets r')).
Proof.
  intros H. apply Go_loops in H as [Hloops _].
  apply bucket_loops_over with (params := m_params r).
  - apply sink_calls_app.
  - reflexivity.
  - intros body b b' t' Hbody Hb.
    now apply (bucket_loop_body_step (m_params r) body b b' t' Hbody Hb).
  - apply finished_now_same.
  - apply finished_now_telescope.
  - exact Hloops.
Qed.

Lemma empty_false_not_nil (A : Type) (v : list A) : empty v = false -> v <> [].
Proof. destruct v; [discriminate|]. intros _ H. discriminate H. Qed.

(** X1. No call to the sink carries an empty sequence: both places that
    call [OnMwmProcessed] test [!bucket.m_intersection.empty()] first. *)
Theorem sink_never_receives_an_empty_sequence (fuel : nat) (r r' : Retrieval)
  (t : list Event) :
  Go fuel r = Returned (r', t) ->
  Forall (fun call => snd call <> []) (sink_calls t).
Proof.
  intros H. eapply Permutation_Forall;
    [apply Permutation_sym, (Go_sink_calls fuel r r' t H)|].
  unfold over_buckets. apply Forall_flat_map. apply Forall_forall.
  intros [a b] _. unfold finished_now, report. simpl.
  destruct (m_finished a); [constructor|].
  destruct (m_finished b); [|constructor].
  destruct (empty (m_intersection b)) eqn:He; [constructor|].
  constructor; [|constructor]. simpl. now apply empty_false_not_nil.
Qed.

Lemma Go_loop_exit (fuel : nat) :
  forall (viewportScale : double) (r r' : Retrieval) (t : list Event),
    Go_loop fuel viewportScale r = Returned (r', t) ->
    exists scale, loop_exits scale r' = true.
Proof.
  induction fuel as [|fuel IH]; intros viewportScale r r' t H; [discriminate|].
  rewrite Go_loop_S in H.
  apply bind_Returned in H as (r1 & t1 & t2 & _ & H & _).
  destruct (loop_exits _ r1) eqn:Hexit.
  - apply ret_Returned in H as [-> _]. eauto.
  - eapply IH; eauto.
Qed.

Lemma Go_exit_reason (fuel : nat) (r r' : Retrieval) (t : list Event) :
  Go fuel r = Returned (r', t) ->
  ViewportCoversAllMwms r' = true
  \/ IsMaxViewportScaleSet (m_limits r) = true
  \/ (IsMinNumFeaturesSet (m_limits r) = true
      /\ (m_minNumFeatures (m_limits r) <= CountRetrievedFeatures r')%N).
Proof.
  intros H. apply Go_Returned in H as (rk & t1 & t2 & Hloop & Hfin & Hr' & _).
  destruct (Go_finish_all _ _ _ Hfin) as (_ & Hcov & Hint).
  rewrite (ViewportCoversAllMwms_map r' rk Hcov), (CountRetrievedFeatures_map r' rk Hint).
  destruct (Go_loop_exit fuel _ _ _ _ Hloop) as (scale & Hexit).
  apply Go_loop_loops in Hloop as [_ Hrk].
  unfold loop_exits in Hexit. rewrite Hrk in Hexit at 2 3 4 5. cbn [m_limits set_buckets] in Hexit.
  apply orb_true_iff in Hexit as [Hexit|Hexit].
  - apply orb_true_iff in Hexit as [Hexit|Hexit]; [now left|].
    apply andb_true_iff in Hexit as [Hset _]. right. now left.
  - apply andb_true_iff in Hexit as [Hset Hle]. right. right.
    split; [exact Hset|]. now apply N.leb_le.
Qed.

(** X2. [Go] leaves its loop only through one of the three [break]s: when
    it returns, either every bucket is covered by the viewport, or the
    maximum scale is set, or the minimum number of features is set and the
    count of retrieved features has reached it. In particular, when only
    the minimum is set and some tile is still not covered, at least that
    many features have been retrieved. *)
Theorem Go_returns_for_a_reason (fuel : nat) (r r' : Retrieval) (t : list Event) :
  Go fuel r = Returned (r', t) ->
  ViewportCoversAllMwms r' = true
  \/ IsMaxViewportScaleSet (m_limits r) = true
  \/ (IsMinNumFeaturesSet (m_limits r) = true
      /\ (m_minNumFeatures (m_limits r) <= CountRetrievedFeatures r')%N).
Proof. apply Go_exit_reason. Qed.

(** ** What a bucket holds over a retrieval *)

Lemma fresh_bucket_sound (params : SearchQueryParams) (handle : MwmHandle)
  (b : FeatureBucket) :
  fresh_bucket_of handle b -> bucket_sound params b.
Proof.
  intros (Hh & (value & Hv & Hb) & Ha & Hg & Hi & Hf1 & Hf2 & Hf3).
  unfold bucket_sound, bucket_has_header, flags_ordered, holds_matches.
  rewrite Hf1, Hf2, Hh. split; [now exists value|]. split; [discriminate|auto].
Qed.

Lemma bucket_sound_step (params : SearchQueryParams)
  (body : FeatureBucket -> M FeatureBucket) (b b' : FeatureBucket) (t : list Event) :
  bucket_loop_body params body ->
  body b = Returned (b', t) ->
  bucket_sound params b -> bucket_sound params b'.
Proof.
  intros [viewport|] H (Hhdr & Hflags & Hholds).
  - destruct (m_coveredByViewport b || m_finished b
              || negb (IsIntersect viewport (m_bounds b))) eqn:Hskip.
    + rewrite (RetrieveForViewport_bucket_skipped params viewport b Hskip) in H.
      apply ret_Returned in H as [-> _]. exact (conj Hhdr (conj Hflags Hholds)).
    + destruct (RetrieveForViewport_bucket_visited params viewport b b' t Hskip H)
        as (address & tA & geometry & Haddr & HG & -> & _).
      unfold bucket_sound, bucket_has_header, flags_ordered, holds_matches. simpl.
      split; [exact Hhdr|]. split; [auto|].
      unfold holds_matches in Hholds.
      destruct (m_intersectsWithViewport b).
      * destruct Haddr as [-> _].
        destruct Hholds as (offsets & tA' & _ & _ & _ & HA & _ & Hs & _).
        exists offsets, tA', viewport, geometry, [GeometryMatcherRun (m_handle b) viewport].
        rewrite Hs. auto.
      * destruct Haddr as (offsets & HA & ->).
        exists offsets, tA, viewport, geometry, [GeometryMatcherRun (m_handle b) viewport].
        auto.
  - rewrite Go_finish_bucket_eq in H. inversion H; subst; clear H.
    destruct (m_finished b) eqn:Hfin; [exact (conj Hhdr (conj Hflags Hholds))|].
    unfold bucket_sound, bucket_has_header, flags_ordered, holds_matches in *. simpl.
    split; [exact Hhdr|]. split; [|exact Hholds].
    intros Hc. split; [reflexivity|]. now apply Hflags.
Qed.

Lemma Init_buckets_sound (this : Retrieval) (index : Index) (viewport : RectD)
  (params : SearchQueryParams) (limits : Limits) (r0 : Retrieval) (t0 : list Event) :
  Init this index viewport params limits = Returned (r0, t0) ->
  Forall (bucket_sound params) (m_buckets r0).
Proof.
  intros H. apply Init_Returned in H as (_ & _ & _ & _ & Hfresh).
  induction Hfresh as [|h b hs bs Hb _ IH]; constructor; [|exact IH].
  eapply fresh_bucket_sound; eauto.
Qed.

Lemma retrieval_buckets_sound (this : Retrieval) (index : Index) (viewport : RectD)
  (params : SearchQueryParams) (limits : Limits) (r0 : Retrieval) (t0 : list Event)
  (fuel : nat) (r' : Retrieval) (t : list Event) :
  Init this index viewport params limits = Returned (r0, t0) ->
  Go fuel r0 = Returned (r', t) ->
  Forall (bucket_sound params) (m_buckets r').
Proof.
  intros HInit HGo.
  pose proof (Init_buckets_sound _ _ _ _ _ _ _ HInit) as Hsound.
  apply Init_Returned in HInit as (_ & Hparams & _).
  apply Go_loops in HGo as [Hloops _]. rewrite Hparams in Hloops.
  eapply bucket_loops_invariant; [|exact Hloops|exact Hsound].
  intros body b b' t'. apply bucket_sound_step.
Qed.

(** ** The ids that reach the sink *)

(** On ascending ranges the merge finds every common element. *)
Lemma set_intersection_complete (a b : list uint32_t) (z : uint32_t) :
  StronglySorted N.le a -> StronglySorted N.le b ->
  In z a -> In z b -> In z (set_intersection a b).
Proof.
  intros Ha. revert b. induction Ha as [|x a Ha IHa Hx]; intros b Hb Hza Hzb; [contradiction|].
  induction Hb as [|y b Hb IHb Hy]; [contradiction|].
  pose proof (proj1 (Forall_forall _ _) Hx) as Hx'.
  pose proof (proj1 (Forall_forall _ _) Hy) as Hy'. simpl.
  destruct (N.ltb_spec x y) as [Hxy|Hxy].
  - apply IHa.
    + now constructor.
    + destruct Hza as [<-|Hza]; [|exact Hza].
      destruct Hzb as [Hzb|Hzb]; [lia|]. specialize (Hy' _ Hzb). lia.
    + exact Hzb.
  - destruct (N.ltb_spec y x) as [Hyx|Hyx].
    + apply IHb.
      destruct Hzb as [<-|Hzb]; [|exact Hzb].
      destruct Hza as [Hza|Hza]; [lia|]. specialize (Hx' _ Hza). lia.
    + assert (x = y) by lia. subst y.
      destruct Hza as [<-|Hza]; [now left|].
      destruct Hzb as [<-|Hzb]; [now left|].
      right. now apply IHa.
Qed.

Lemma sort_In (l : list uint32_t) (z : uint32_t) : In z (sort l) <-> In z l.
Proof.
  split; apply Permutation_in; [apply Permutation_sym|]; apply sort_perm.
Qed.

Lemma finished_now_In (bs bs' : list FeatureBucket) (call : MwmId * list uint32_t) :
  In call (over_buckets finished_now bs bs') ->
  exists b', In b' bs' /\ call = (GetId (m_handle b'), m_intersection b')
             /\ m_intersection b' <> [].
Proof.
  unfold over_buckets. rewrite in_flat_map. intros ([a b] & Hin & Hcall).
  apply in_combine_r in Hin. simpl in Hcall. unfold finished_now, report in Hcall.
  destruct (m_finished a); [contradiction|].
  destruct (m_finished b); [|contradiction].
  destruct (empty (m_intersection b)) eqn:He; [contradiction|].
  destruct Hcall as [<-|[]]. exists b. split; [exact Hin|]. split; [reflexivity|].
  now apply empty_false_not_nil.
Qed.

(** ** Counting *)

Lemma CountRetrievedFeatures_from (buckets : list FeatureBucket) (count : N) :
  fold_left
    (fun count bucket => uint64_add count (N.of_nat (length (m_intersection bucket))))
    buckets (count mod 2 ^ 64)%N
  = ((count + N.of_nat (ids_retrieved buckets)) mod 2 ^ 64)%N.
Proof.
  revert count. induction buckets as [|b bs IH]; intros count; simpl.
  - unfold ids_retrieved. simpl. now rewrite N.add_0_r.
  - unfold uint64_add. rewrite N.Div0.add_mod_idemp_l, IH.
    unfold ids_retrieved. simpl. rewrite Nat2N.inj_add. f_equal. lia.
Qed.

(** X5. [CountRetrievedFeatures] is the total number of ids in the
    intersections of all buckets, reduced modulo 2^64 by the [uint64_t]
    additions; it is that total itself as long as the total is below
    2^64. *)
Theorem CountRetrievedFeatures_is_the_total (r : Retrieval) :
  CountRetrievedFeatures r = (N.of_nat (ids_retrieved (m_buckets r)) mod 2 ^ 64)%N
  /\ ((N.of_nat (ids_retrieved (m_buckets r)) < 2 ^ 64)%N ->
      CountRetrievedFeatures r = N.of_nat (ids_retrieved (m_buckets r))).
Proof.
  assert (H : CountRetrievedFeatures r
              = (N.of_nat (ids_retrieved (m_buckets r)) mod 2 ^ 64)%N).
  { unfold CountRetrievedFeatures.
    change 0%N with (0 mod 2 ^ 64)%N at 1. now rewrite CountRetrievedFeatures_from. }
  split; [exact H|]. intros Hlt. rewrite H. now apply N.mod_small.
Qed.

Lemma ids_delivered_perm (l1 l2 : list (MwmId * list uint32_t)) :
  Permutation l1 l2 -> ids_delivered l1 = ids_delivered l2.
Proof.
  unfold ids_delivered. induction 1; simpl; lia.
Qed.

Lemma ids_delivered_app (l1 l2 : list (MwmId * list uint32_t)) :
  ids_delivered (l1 ++ l2) = (ids_delivered l1 + ids_delivered l2)%nat.
Proof.
  unfold ids_delivered. rewrite map_app. induction (map _ l1); simpl; lia.
Qed.

(** X6. Over one retrieval ([Init], then [Go]) the sink is handed, in
    total, as many ids as the intersections of the buckets hold when [Go]
    returns: every bucket is reported once with its final intersection, an
    empty intersection being skipped. That total, modulo 2^64, is what
    [CountRetrievedFeatures] then returns. *)
Theorem sink_is_handed_every_retrieved_id
  (this : Retrieval) (index : Index) (viewport : RectD) (params : SearchQueryParams)
  (limits : Limits) (r0 : Retrieval) (t0 : list Event)
  (fuel : nat) (r' : Retrieval) (t : list Event) :
  Init this index viewport params limits = Returned (r0, t0) ->
  Go fuel r0 = Returned (r', t) ->
  ids_delivered (sink_calls t) = ids_retrieved (m_buckets r')
  /\ CountRetrievedFeatures r'
     = (N.of_nat (ids_delivered (sink_calls t)) mod 2 ^ 64)%N.
Proof.
  intros HInit HGo.
  assert (Hsame : ids_delivered (sink_calls t) = ids_retrieved (m_buckets r')).
  { rewrite (ids_delivered_perm _ _ (Go_sink_calls fuel r0 r' t HGo)).
    apply Init_Returned in HInit as (_ & _ & _ & _ & Hfresh).
    apply fresh_buckets_untouched in Hfresh.
    pose proof HGo as HGo'. apply Go_Returned in HGo' as (rk & t1 & t2 & _ & Hfin & _).
    apply Go_finish_all in Hfin as (Hall & _).
    apply Go_loops in HGo as [Hloops _]. apply bucket_loops_evolve in Hloops.
    clear - Hfresh Hall Hloops.
    induction Hloops as [|a b l1 l2 Hab _ IH]; [reflexivity|].
    inversion Hfresh as [|? ? (_ & _ & _ & _ & Hfa) Hl1]; subst.
    inversion Hall as [|? ? Hfb Hl2]; subst.
    rewrite over_buckets_cons, ids_delivered_app, (IH Hl1 Hl2).
    unfold finished_now, report, ids_retrieved, ids_delivered. rewrite Hfa, Hfb.
    simpl. destruct (m_intersection b); simpl; lia. }
  split; [exact Hsame|]. rewrite Hsame.
  unfold CountRetrievedFeatures.
  change 0%N with (0 mod 2 ^ 64)%N at 1. now rewrite CountRetrievedFeatures_from.
Qed.

(** ** Without limits *)

Lemma ViewportCoversAllMwms_Forall (buckets : list FeatureBucket) :
  ViewportCoversAllMwms_from buckets = true ->
  Forall (fun b => m_coveredByViewport b = true) buckets.
Proof.
  induction buckets as [|b bs IH]; simpl; [constructor|].
  destruct (m_coveredByViewport b) eqn:Hb; simpl; [|discriminate].
  intros H. constructor; auto.
Qed.

Lemma Go_address_runs (this : Retrieval) (index : Index) (viewport : RectD)
  (params : SearchQueryParams) (limits : Limits) (r0 : Retrieval) (t0 : list Event)
  (fuel : nat) (r' : Retrieval) (t : list Event) :
  Init this index viewport params limits = Returned (r0, t0) ->
  Go fuel r0 = Returned (r', t) ->
  Permutation (address_runs t)
    (map m_handle (filter m_intersectsWithViewport (m_buckets r'))).
Proof.
  intros HInit HGo.
  apply Init_Returned in HInit as (_ & Hparams & _ & _ & Hfresh).
  apply fresh_buckets_untouched in Hfresh.
  apply Go_loops in HGo as [Hloops _]. rewrite Hparams in Hloops.
  rewrite <- (contacted_now_from_untouched params (m_buckets r0) (m_buckets r')).
  - apply bucket_loops_over with (params := params).
    + apply address_runs_app.
    + reflexivity.
    + intros body b b' t' Hbody Hb.
      now apply (bucket_loop_body_step params body b b' t' Hbody Hb).
    + apply contacted_now_same.
    + apply contacted_now_telescope.
    + exact Hloops.
  - eapply Forall_impl; [|exact Hfresh]. now intros b (H & _).
  - eapply bucket_loops_evolve; eauto.
Qed.

Lemma filter_all (A : Type) (f : A -> bool) (l : list A) :
  Forall (fun x => f x = true) l -> filter f l = l.
Proof.
  induction 1 as [|x l Hx _ IH]; simpl; [reflexivity|]. now rewrite Hx, IH.
Qed.

(** X7. A retrieval with neither limit set ([Init] with limits that have
    both flags off, then [Go]): when [Go] returns, the viewport has grown
    to cover every tile of the working set; the Address Matcher has been
    run exactly once on every bucket; and the sink has been called once for
    every bucket whose intersection is not empty, and for no other. *)
Theorem unlimited_retrieval_covers_every_tile
  (this : Retrieval) (index : Index) (viewport : RectD) (params : SearchQueryParams)
  (limits : Limits) (r0 : Retrieval) (t0 : list Event)
  (fuel : nat) (r' : Retrieval) (t : list Event) :
  IsMinNumFeaturesSet limits = false ->
  IsMaxViewportScaleSet limits = false ->
  Init this index viewport params limits = Returned (r0, t0) ->
  Go fuel r0 = Returned (r', t) ->
  ViewportCoversAllMwms r' = true
  /\ Permutation (address_runs t) (map m_handle (m_buckets r'))
  /\ Permutation (sink_calls t) (flat_map report (m_buckets r')).
Proof.
  intros Hmin Hmax HInit HGo.
  assert (Hcov : ViewportCoversAllMwms r' = true).
  { pose proof HInit as HI. apply Init_Returned in HI as (_ & _ & Hlim & _).
    destruct (Go_exit_reason fuel r0 r' t HGo) as [H|[H|[H _]]]; [exact H| |];
      rewrite Hlim in H; congruence. }
  split; [exact Hcov|].
  pose proof (retrieval_buckets_sound _ _ _ _ _ _ _ _ _ _ HInit HGo) as Hsound.
  apply ViewportCoversAllMwms_Forall in Hcov.
  split.
  - eapply perm_trans; [exact (Go_address_runs _ _ _ _ _ _ _ _ _ _ HInit HGo)|].
    rewrite filter_all; [apply Permutation_refl|].
    rewrite Forall_forall in Hsound, Hcov |- *. intros b Hb.
    destruct (Hsound b Hb) as (_ & Hflags & _). now apply Hflags, Hcov.
  - eapply perm_trans; [exact (Go_sink_calls fuel r0 r' t HGo)|].
    apply Init_Returned in HInit as (_ & _ & _ & _ & Hfresh).
    apply fresh_buckets_untouched in Hfresh.
    apply Go_loops in HGo as [Hloops _]. apply bucket_loops_evolve in Hloops.
    clear - Hfresh Hcov Hsound Hloops.
    induction Hloops as [|a b l1 l2 Hab _ IH]; [apply perm_nil|].
    inversion Hfresh as [|? ? (_ & _ & _ & _ & Hfa) Hl1]; subst.
    inversion Hcov as [|? ? Hcb Hl2]; subst.
    inversion Hsound as [|? ? (_ & Hflags & _) Hs2]; subst.
    rewrite over_buckets_cons. simpl. apply Permutation_app; [|now apply IH].
    unfold finished_now. rewrite Hfa. destruct (Hflags Hcb) as [-> _].
    apply Permutation_refl.
Qed.

(** ** No assertion fails after [Init] *)

Lemma loop_body_returns (params : SearchQueryParams)
  (body : FeatureBucket -> M FeatureBucket) (b : FeatureBucket) :
  bucket_loop_body params body ->
  bucket_has_header b ->
  exists b' t, body b = Returned (b', t).
Proof.
  intros [viewport|] (value & Hvalue & Hbounds).
  - unfold RetrieveForViewport_bucket.
    destruct (m_coveredByViewport b || m_finished b
              || negb (IsIntersect viewport (m_bounds b))) eqn:Hskip;
      [exists b, []; reflexivity|].
    apply orb_false_elim in Hskip as [Hskip Hint].
    apply orb_false_elim in Hskip as [Hcov Hfin].
    apply negb_false_iff in Hint. rewrite Hbounds in Hint.
    assert (HA : exists offsets,
               RetrieveAddressFeatures (m_handle b) params
               = Returned (offsets, [AddressMatcherRun (m_handle b)])).
    { unfold RetrieveAddressFeatures. rewrite Hvalue. eexists. reflexivity. }
    assert (HG : exists geometry,
               RetrieveGeometryFeatures (m_handle b) viewport params
               = Returned (geometry, [GeometryMatcherRun (m_handle b) viewport])).
    { unfold RetrieveGeometryFeatures, ASSERT. rewrite Hvalue, Hint.
      eexists. reflexivity. }
    destruct HA as (offsets & HA). destruct HG as (geometry & HG).
    destruct (m_intersectsWithViewport b); cbn [negb].
    + rewrite bind_ret_l, Hcov. cbn [negb]. rewrite HG. cbn [bind ret].
      cbn [m_coveredByViewport set_intersection_member set_geometryFeatures m_bounds].
      rewrite Hcov. cbn [negb andb].
      destruct (IsRectInside viewport (m_bounds b)); cbn; [|eauto].
      match goal with
      | |- context [empty ?l] => destruct (empty l); cbn
      end; eauto.
    + rewrite HA. cbn [bind ret].
      cbn [m_coveredByViewport set_intersectsWithViewport set_addressFeatures m_handle].
      rewrite Hcov. cbn [negb]. rewrite HG. cbn [bind ret].
      cbn [m_coveredByViewport set_intersection_member set_geometryFeatures
             set_intersectsWithViewport set_addressFeatures m_bounds].
      rewrite Hcov. cbn [negb andb].
      destruct (IsRectInside viewport (m_bounds b)); cbn; [|eauto].
      match goal with
      | |- context [empty ?l] => destruct (empty l); cbn
      end; eauto.
  - rewrite Go_finish_bucket_eq. eauto.
Qed.

Lemma for_each_bucket_returns (params : SearchQueryParams)
  (body : FeatureBucket -> M FeatureBucket) (bs : list FeatureBucket) :
  bucket_loop_body params body ->
  Forall bucket_has_header bs ->
  exists bs' t, for_each_bucket body bs = Returned (bs', t)
                /\ Forall bucket_has_header bs'.
Proof.
  intros Hbody. induction 1 as [|b bs Hb _ (bs' & ts & Hrest & Hhdr)].
  - exists [], []. split; [reflexivity|constructor].
  - destruct (loop_body_returns params body b Hbody Hb) as (b' & t & Hstep).
    exists (b' :: bs'), (t ++ ts). cbn [for_each_bucket]. rewrite Hstep, Hrest.
    unfold bind, ret. rewrite app_nil_r. split; [reflexivity|].
    constructor; [|exact Hhdr].
    destruct (bucket_loop_body_step params body b b' t Hbody Hstep)
      as ((Hh & Hbd & _) & _).
    destruct Hb as (value & Hv & Hbv). exists value. now rewrite Hh, Hbd.
Qed.

Lemma Go_loop_trips_nothing (fuel : nat) :
  forall (viewportScale : double) (r : Retrieval),
    Forall bucket_has_header (m_buckets r) ->
    Go_loop fuel viewportScale r = OutOfFuel
    \/ exists r' t, Go_loop fuel viewportScale r = Returned (r', t)
                    /\ Forall bucket_has_header (m_buckets r').
Proof.
  induction fuel as [|fuel IH]; intros viewportScale r Hhdr; [now left|].
  rewrite Go_loop_S. unfold RetrieveForViewport.
  destruct (for_each_bucket_returns (m_params r) _ (m_buckets r)
              (body_pass (m_params r)
                 (Scale (m_viewport r) (clamped_scale (m_limits r) viewportScale))) Hhdr)
    as (bs' & t & Hpass & Hhdr').
  rewrite Hpass. cbn [bind ret]. rewrite app_nil_r.
  destruct (loop_exits _ _).
  - right. exists (set_buckets r bs'), t. cbn [ret]. rewrite app_nil_r. now split.
  - destruct (IH (PrimFloat.mul viewportScale kViewportScaleMul) (set_buckets r bs') Hhdr')
      as [Hout|(r' & t' & Hret & Hh)].
    + left. now rewrite Hout.
    + right. exists r', (t ++ t'). rewrite Hret. now split.
Qed.

(** X8. Over one retrieval no assertion of retrieval.cpp fails: [Init]
    admits a tile only with its value at hand, so [ASSERT(value, ())] holds
    in the constructor and in both matchers, and a pass runs the Geometry
    Matcher only on buckets whose bounds the viewport intersects, which is
    what its [ASSERT(viewport.IsIntersect(header.GetBounds()), ())] asks
    for. Every call of [Go] after [Init] either returns or is still looping
    when the bound on the iterations is reached. *)
Theorem retrieval_trips_no_assertion
  (this : Retrieval) (index : Index) (viewport : RectD) (params : SearchQueryParams)
  (limits : Limits) (r0 : Retrieval) (t0 : list Event) (fuel : nat) :
  Init this index viewport params limits = Returned (r0, t0) ->
  Go fuel r0 = OutOfFuel \/ exists r' t, Go fuel r0 = Returned (r', t).
Proof.
  intros HInit.
  assert (Hhdr : Forall bucket_has_header (m_buckets r0)).
  { eapply Forall_impl; [|exact (Init_buckets_sound _ _ _ _ _ _ _ HInit)].
    now intros b (H & _). }
  unfold Go.
  destruct (Go_loop_trips_nothing fuel 1%float r0 Hhdr) as [Hout|(rk & t1 & Hloop & Hk)].
  - left. now rewrite Hout.
  - right. rewrite Hloop.
    destruct (for_each_bucket_returns (m_params rk) Go_finish_bucket (m_buckets rk)
                (body_finish (m_params rk)) Hk) as (bs' & t2 & Hfin & _).
    exists (set_buckets rk bs'), (t1 ++ t2). cbn [bind]. rewrite Hfin.
    cbn [bind ret]. now rewrite app_nil_r.
Qed.

(** ** The working set *)

Lemma Forall2_map_eq (A B : Type) (f : A -> B) (l1 l2 : list A) :
  Forall2 (fun x y => f y = f x) l1 l2 -> map f l2 = map f l1.
Proof. induction 1; simpl; congruence. Qed.

(** X9. [Go] only ever writes to the buckets: the index, the base viewport,
    the query parameters and the limits are as [Init] left them, and the
    working set keeps its buckets, in order, each with the handle and the
    bounds it was constructed with. *)
Theorem Go_keeps_the_working_set (fuel : nat) (r r' : Retrieval) (t : list Event) :
  Go fuel r = Returned (r', t) ->
  m_index r' = m_index r /\ m_viewport r' = m_viewport r
  /\ m_params r' = m_params r /\ m_limits r' = m_limits r
  /\ map m_handle (m_buckets r') = map m_handle (m_buckets r)
  /\ map m_bounds (m_buckets r') = map m_bounds (m_buckets r).
Proof.
  intros H. apply Go_loops in H as [Hloops Hr'].
  apply bucket_loops_evolve in Hloops.
  rewrite Hr' at 1 2 3 4. cbn [m_index m_viewport m_params m_limits set_buckets].
  repeat (split; [reflexivity|]). split.
  - apply Forall2_map_eq. eapply Forall2_impl; [|exact Hloops]. now intros a b (H & _).
  - apply Forall2_map_eq. eapply Forall2_impl; [|exact Hloops]. now intros a b (_ & H & _).
Qed.

Lemma Forall2_In_r (A B : Type) (R : A -> B -> Prop) (l1 : list A) (l2 : list B) (y : B) :
  Forall2 R l1 l2 -> In y l2 -> exists x, In x l1 /\ R x y.
Proof.
  induction 1 as [|a b l1 l2 Hab _ IH]; [contradiction|].
  intros [<-|Hin].
  - exists a. split; [now left|exact Hab].
  - destruct (IH Hin) as (x & Hx & Hxy). exists x. split; [now right|exact Hxy].
Qed.

(** X10. Over one retrieval the sink is only ever called with the id of a
    tile that [Init] admitted: a registry entry whose handle is alive and
    whose tile has both the search and the geometry index section. *)
Theorem sink_is_called_for_admitted_tiles_only
  (this : Retrieval) (index : Index) (viewport : RectD) (params : SearchQueryParams)
  (limits : Limits) (r0 : Retrieval) (t0 : list Event)
  (fuel : nat) (r' : Retrieval) (t : list Event) :
  Init this index viewport params limits = Returned (r0, t0) ->
  Go fuel r0 = Returned (r', t) ->
  Forall (fun call =>
            exists info,
              In info (GetMwmsInfo index)
              /\ admitted (handle_of index info) = true
              /\ fst call = GetId (handle_of index info))
    (sink_calls t).
Proof.
  intros HInit HGo.
  apply Init_Returned in HInit as (_ & _ & _ & _ & Hfresh).
  eapply Permutation_Forall; [apply Permutation_sym, (Go_sink_calls fuel r0 r' t HGo)|].
  apply Go_loops in HGo as [Hloops _]. apply bucket_loops_evolve in Hloops.
  apply Forall_forall. intros call Hcall.
  apply finished_now_In in Hcall as (b' & Hb' & -> & _).
  destruct (Forall2_In_r _ _ _ _ _ _ Hloops Hb') as (b & Hb & (Hh & _)).
  destruct (Forall2_In_r _ _ _ _ _ _ Hfresh Hb) as (handle & Hhandle & (Hhb & _)).
  apply filter_In in Hhandle as [Hin Hadm].
  apply in_map_iff in Hin as (info & <- & Hinfo).
  exists info. simpl. rewrite Hh, Hhb. auto.
Qed.

(** ** Limits *)

(** X11. A limit that was set reads back as the value it was set to; setting
    one limit leaves the other as it was; setting a limit again overwrites
    it; the two setters commute; and on default-constructed limits both
    getters abort on their assertion. *)
Theorem Limits_set_then_get (limits : Limits) (minNumFeatures other : uint64_t)
  (maxViewportScale : double) :
  GetMinNumFeatures (SetMinNumFeatures limits minNumFeatures) = ret minNumFeatures
  /\ GetMaxViewportScale (SetMaxViewportScale limits maxViewportScale)
     = ret maxViewportScale
  /\ GetMaxViewportScale (SetMinNumFeatures limits minNumFeatures)
     = GetMaxViewportScale limits
  /\ GetMinNumFeatures (SetMaxViewportScale limits maxViewportScale)
     = GetMinNumFeatures limits
  /\ SetMinNumFeatures (SetMinNumFeatures limits other) minNumFeatures
     = SetMinNumFeatures limits minNumFeatures
  /\ SetMinNumFeatures (SetMaxViewportScale limits maxViewportScale) minNumFeatures
     = SetMaxViewportScale (SetMinNumFeatures limits minNumFeatures) maxViewportScale
  /\ GetMinNumFeatures Limits_ctor = AssertionFailed MinNumFeaturesUnset
  /\ GetMaxViewportScale Limits_ctor = AssertionFailed MaxViewportScaleUnset.
Proof. repeat split. Qed.

(** ** The scale of the Geometry Matcher *)

(** X12. On a tile whose value is at hand, whose bounds the viewport
    intersects and whose scale range is not empty, [RetrieveGeometryFeatures]
    returns, for one scale inside the tile's scale range (the scale of the
    query itself when that lies in the range, else the nearer end of the
    range), the ids of the scale index over the intervals that cover the
    viewport at that scale, interval after interval. *)
Theorem RetrieveGeometryFeatures_reads_at_a_scale_of_the_tile
  (handle : MwmHandle) (value : MwmValue) (viewport : RectD)
  (params : SearchQueryParams) :
  GetValue handle = Some value ->
  IsIntersect viewport (GetBounds value) = true ->
  (fst (GetScaleRange value) <= snd (GetScaleRange value))%Z ->
  exists scale,
    (fst (GetScaleRange value) <= scale <= snd (GetScaleRange value))%Z
    /\ ((fst (GetScaleRange value) <= m_scale params <= snd (GetScaleRange value))%Z ->
        scale = m_scale params)
    /\ ((m_scale params < fst (GetScaleRange value))%Z ->
        scale = fst (GetScaleRange value))
    /\ ((snd (GetScaleRange value) < m_scale params)%Z ->
        scale = snd (GetScaleRange value))
    /\ RetrieveGeometryFeatures handle viewport params
       = Returned
           (flat_map
              (fun interval =>
                 ForEachInIntervalAndScale value (fst interval) (snd interval) scale)
              (CoveringIntervals viewport scale),
            [GeometryMatcherRun handle viewport]).
Proof.
  intros Hvalue Hint Hrange.
  exists (Z.min (Z.max (m_scale params) (fst (GetScaleRange value)))
            (snd (GetScaleRange value))).
  split; [lia|]. split; [lia|]. split; [lia|]. split; [lia|].
  unfold RetrieveGeometryFeatures, ASSERT. rewrite Hvalue, Hint. reflexivity.
Qed.

(** ** With a maximum scale *)

(** A double that something compares [>=] to is not a NaN, hence [>=]
    itself. *)
Lemma double_ge_refl_of_ge (x m : double) :
  double_ge x m = true -> double_ge m m = true.
Proof.
  unfold double_ge. rewrite !leb_spec. unfold SFleb, SFcompare.
  destruct (Prim2SF m) as [s|s| |s mm e]; destruct (Prim2SF x); intros H;
    try discriminate H; try reflexivity.
  all: try (destruct s; reflexivity).
  all: destruct s; rewrite Z.compare_refl, Pos.compare_cont_refl; reflexivity.
Qed.

Lemma clamped_scale_at_maximum (limits : Limits) (viewportScale : double) :
  IsMaxViewportScaleSet limits = true ->
  double_ge viewportScale (m_maxViewportScale limits) = true ->
  clamped_scale limits viewportScale = m_maxViewportScale limits
  /\ double_ge (m_maxViewportScale limits) (m_maxViewportScale limits) = true.
Proof.
  intros Hset Hge. unfold clamped_scale. rewrite Hset, Hge. split; [reflexivity|].
  eapply double_ge_refl_of_ge; eauto.
Qed.

Lemma Go_loop_returns_at_maximum (n : nat) :
  forall (j : nat) (r : Retrieval),
    Forall bucket_has_header (m_buckets r) ->
    IsMaxViewportScaleSet (m_limits r) = true ->
    double_ge (viewportScale_at (j + n)) (m_maxViewportScale (m_limits r)) = true ->
    exists r' t, Go_loop (S n) (viewportScale_at j) r = Returned (r', t)
                 /\ Forall bucket_has_header (m_buckets r').
Proof.
  induction n as [|n IH]; intros j r Hhdr Hset Hge.
  - rewrite Nat.add_0_r in Hge.
    destruct (clamped_scale_at_maximum _ _ Hset Hge) as [Hclamp Hrefl].
    rewrite Go_loop_S, Hclamp. unfold RetrieveForViewport.
    destruct (for_each_bucket_returns (m_params r) _ (m_buckets r)
                (body_pass (m_params r)
                   (Scale (m_viewport r) (m_maxViewportScale (m_limits r)))) Hhdr)
      as (bs' & t & Hpass & Hhdr').
    rewrite Hpass. cbn [bind ret]. rewrite app_nil_r.
    assert (Hexit : loop_exits (m_maxViewportScale (m_limits r)) (set_buckets r bs') = true).
    { unfold loop_exits. cbn [m_limits set_buckets]. rewrite Hset, Hrefl.
      cbn [andb]. now rewrite orb_true_r. }
    rewrite Hexit. exists (set_buckets r bs'), t. cbn [ret]. rewrite app_nil_r. now split.
  - rewrite Go_loop_S. unfold RetrieveForViewport.
    destruct (for_each_bucket_returns (m_params r) _ (m_buckets r)
                (body_pass (m_params r)
                   (Scale (m_viewport r)
                      (clamped_scale (m_limits r) (viewportScale_at j)))) Hhdr)
      as (bs' & t & Hpass & Hhdr').
    rewrite Hpass. cbn [bind ret]. rewrite app_nil_r.
    destruct (loop_exits _ _).
    + exists (set_buckets r bs'), t. cbn [ret]. rewrite app_nil_r. now split.
    + destruct (IH (S j) (set_buckets r bs') Hhdr' Hset) as (r' & t' & Hret & Hh).
      * cbn [m_limits set_buckets]. now rewrite Nat.add_succ_comm.
      * exists r', (t ++ t'). cbn [viewportScale_at] in Hret. rewrite Hret. now split.
Qed.

(** X16. With a maximum scale set, a retrieval terminates: if the loop
    variable [viewportScale], which starts at 1.0 and is multiplied by
    [sqrt(2.0)] on every iteration, is [>=] the maximum on iteration [k]
    (counting from 0), then [Go] after [Init] returns after at most [k + 1]
    iterations of its loop. *)
Theorem Go_with_a_maximum_scale_returns
  (this : Retrieval) (index : Index) (viewport : RectD) (params : SearchQueryParams)
  (limits : Limits) (r0 : Retrieval) (t0 : list Event) (k : nat) :
  IsMaxViewportScaleSet limits = true ->
  double_ge (viewportScale_at k) (m_maxViewportScale limits) = true ->
  Init this index viewport params limits = Returned (r0, t0) ->
  exists r' t, Go (S k) r0 = Returned (r', t).
Proof.
  intros Hset Hge HInit.
  assert (Hhdr : Forall bucket_has_header (m_buckets r0)).
  { eapply Forall_impl; [|exact (Init_buckets_sound _ _ _ _ _ _ _ HInit)].
    now intros b (H & _). }
  apply Init_Returned in HInit as (_ & _ & Hlim & _).
  destruct (Go_loop_returns_at_maximum k 0 r0 Hhdr) as (rk & t1 & Hloop & Hk).
  - now rewrite Hlim.
  - now rewrite Hlim.
  - unfold Go. cbn [viewportScale_at] in Hloop. rewrite Hloop.
    destruct (for_each_bucket_returns (m_params rk) Go_finish_bucket (m_buckets rk)
                (body_finish (m_params rk)) Hk) as (bs' & t2 & Hfin & _).
    exists (set_buckets rk bs'), (t1 ++ t2). cbn [bind]. rewrite Hfin.
    cbn [bind ret]. now rewrite app_nil_r.
Qed.

(** X17. A maximum scale of at most 1.0 makes [Go] a single pass: the
    first iteration clamps the scale to the maximum and the second exit
    test then holds, so [Go] is one pass over the base viewport scaled by
    the maximum (shrunk, when the maximum is below 1.0) followed by the
    final loop over the buckets. *)
Theorem Go_with_maximum_at_most_one_is_one_pass (fuel : nat) (r : Retrieval) :
  IsMaxViewportScaleSet (m_limits r) = true ->
  double_ge 1%float (m_maxViewportScale (m_limits r)) = true ->
  Go (S fuel) r
  = bind (RetrieveForViewport
            (Scale (m_viewport r) (m_maxViewportScale (m_limits r))) r)
      (fun r1 =>
         bind (for_each_bucket Go_finish_bucket (m_buckets r1))
           (fun buckets => ret (set_buckets r1 buckets))).
Proof.
  intros Hset Hge.
  destruct (clamped_scale_at_maximum _ _ Hset Hge) as [Hclamp Hrefl].
  unfold Go. rewrite Go_loop_S, Hclamp.
  destruct (RetrieveForViewport
              (Scale (m_viewport r) (m_maxViewportScale (m_limits r))) r)
    as [[r1 t1]| |] eqn:Hpass; [|reflexivity..].
  apply RetrieveForViewport_Returned in Hpass as [_ Hr1].
  assert (Hexit : loop_exits (m_maxViewportScale (m_limits r)) r1 = true).
  { unfold loop_exits. rewrite Hr1. cbn [m_limits set_buckets]. rewrite Hset, Hrefl.
    cbn [andb]. now rewrite orb_true_r. }
  cbn [bind]. rewrite Hexit. cbn [bind ret].
  destruct (for_each_bucket Go_finish_bucket (m_buckets r1)) as [[bs t2]| |];
    cbn; rewrite ?app_nil_r; reflexivity.
Qed.

(** ** Where the Geometry Matcher is run *)

Lemma geometry_runs_app (t1 t2 : list Event) :
  geometry_runs (t1 ++ t2) = geometry_runs t1 ++ geometry_runs t2.
Proof. apply flat_map_app. Qed.

Lemma loop_body_geometry_runs (params : SearchQueryParams)
  (body : FeatureBucket -> M FeatureBucket) (b b' : FeatureBucket) (t : list Event) :
  bucket_loop_body params body ->
  body b = Returned (b', t) ->
  Forall (fun run => fst run = m_handle b
                     /\ IsIntersect (snd run) (m_bounds b) = true
                     /\ m_finished b = false /\ m_coveredByViewport b = false)
    (geometry_runs t).
Proof.
  intros [viewport|] H.
  - destruct (m_coveredByViewport b || m_finished b
              || negb (IsIntersect viewport (m_bounds b))) eqn:Hskip.
    + rewrite (RetrieveForViewport_bucket_skipped params viewport b Hskip) in H.
      apply ret_Returned in H as [_ ->]. constructor.
    + destruct (RetrieveForViewport_bucket_visited params viewport b b' t Hskip H)
        as (address & tA & geometry & Haddr & _ & _ & ->).
      apply orb_false_elim in Hskip as [Hskip Hint].
      apply orb_false_elim in Hskip as [Hcov Hfin]. apply negb_false_iff in Hint.
      rewrite !geometry_runs_app.
      assert (HtA : geometry_runs tA = []).
      { destruct (m_intersectsWithViewport b).
        - now destruct Haddr as [_ ->].
        - destruct Haddr as (offsets & HA & _).
          now rewrite (RetrieveAddressFeatures_trace _ _ _ _ HA). }
      rewrite HtA. simpl. constructor; [now auto|].
      destruct (_ && _); constructor.
  - rewrite Go_finish_bucket_eq in H. inversion H; subst.
    destruct (m_finished b || empty (m_intersection b)); constructor.
Qed.

Lemma bucket_loops_geometry_runs (params : SearchQueryParams)
  (bs bs' : list FeatureBucket) (t : list Event) :
  bucket_loops params bs bs' t ->
  Forall (fun run =>
            exists b, In b bs /\ fst run = m_handle b
                      /\ IsIntersect (snd run) (m_bounds b) = true
                      /\ m_finished b = false)
    (geometry_runs t).
Proof.
  induction 1 as [bs|body bs bs1 bs2 t1 t2 Hbody Hfirst Hrest IH]; [constructor|].
  rewrite geometry_runs_app. apply Forall_app. split.
  - apply for_each_bucket_each in Hfirst. clear - Hbody Hfirst.
    induction Hfirst as [|b b' t bs bs' ts Hb _ IHe]; [constructor|].
    rewrite geometry_runs_app. apply Forall_app. split.
    + eapply Forall_impl; [|exact (loop_body_geometry_runs params body b b' t Hbody Hb)].
      intros run (H1 & H2 & H3 & _). exists b. split; [now left|auto].
    + eapply Forall_impl; [|exact IHe].
      intros run (b0 & Hin & Hrun). exists b0. split; [now right|exact Hrun].
  - pose proof (bucket_loops_evolve params bs bs1 t1
                  (bucket_loops_one params body bs bs1 t1 Hbody Hfirst)) as Hev.
    eapply Forall_impl; [|exact IH].
    intros run (b1 & Hin & Hh & Hint & Hfin).
    destruct (Forall2_In_r _ _ _ _ _ _ Hev Hin) as (b0 & Hin0 & (Hh0 & Hb0 & Hf0 & _)).
    exists b0. split; [exact Hin0|]. rewrite Hh, Hh0, <- Hb0. split; [reflexivity|].
    split; [exact Hint|].
    destruct (m_finished b0) eqn:Hfb0; [|reflexivity].
    rewrite (Hf0 eq_refl) in Hfin. congruence.
Qed.

(** X18. In every run of [Go] the Geometry Matcher is run only on tiles of
    the working set, only with a viewport that intersects the bounds of
    the tile's bucket, and never on a bucket that was already finished when
    [Go] was called. *)
Theorem geometry_matcher_runs_where_the_viewport_intersects
  (fuel : nat) (r r' : Retrieval) (t : list Event) :
  Go fuel r = Returned (r', t) ->
  Forall (fun run =>
            exists b, In b (m_buckets r) /\ fst run = m_handle b
                      /\ IsIntersect (snd run) (m_bounds b) = true
                      /\ m_finished b = false)
    (geometry_runs t).
Proof.
  intros H. apply Go_loops in H as [Hloops _].
  eapply bucket_loops_geometry_runs; eauto.
Qed.

(** ** What a bucket holds, and from which run of the Geometry Matcher *)

Lemma holds_matches_of_incl (params : SearchQueryParams)
  (runs runs' : list (MwmHandle * RectD)) (b : FeatureBucket) :
  incl runs runs' ->
  holds_matches_of params runs b -> holds_matches_of params runs' b.
Proof.
  intros Hincl. unfold holds_matches_of.
  destruct (m_intersectsWithViewport b); [|exact (fun H => H)].
  intros (offsets & tA & pv & geometry & tG & HA & HG & Hin & H).
  exists offsets, tA, pv, geometry, tG.
  split; [exact HA|]. split; [exact HG|]. split; [apply Hincl, Hin|exact H].
Qed.

Lemma holds_matches_of_step (params : SearchQueryParams)
  (body : FeatureBucket -> M FeatureBucket) (b b' : FeatureBucket) (t : list Event)
  (runs : list (MwmHandle * RectD)) :
  bucket_loop_body params body ->
  body b = Returned (b', t) ->
  holds_matches_of params runs b ->
  holds_matches_of params (runs ++ geometry_runs t) b'.
Proof.
  intros [viewport|] H Hholds.
  - destruct (m_coveredByViewport b || m_finished b
              || negb (IsIntersect viewport (m_bounds b))) eqn:Hskip.
    + rewrite (RetrieveForViewport_bucket_skipped params viewport b Hskip) in H.
      apply ret_Returned in H as [-> _].
      eapply holds_matches_of_incl; [apply incl_appl, incl_refl|exact Hholds].
    + destruct (RetrieveForViewport_bucket_visited params viewport b b' t Hskip H)
        as (address & tA & geometry & Haddr & HG & -> & ->).
      assert (Hrun : forall rest : list Event,
                 In (m_handle b, viewport)
                   (runs ++ geometry_runs
                              (tA ++ GeometryMatcherRun (m_handle b) viewport :: rest))).
      { intros rest. apply in_or_app. right. rewrite geometry_runs_app.
        apply in_or_app. right. simpl. now left. }
      unfold holds_matches_of in Hholds |- *. simpl.
      destruct (m_intersectsWithViewport b).
      * destruct Haddr as [-> _].
        destruct Hholds as (offsets & tA' & _ & _ & _ & HA & _ & _ & _ & Hs & _).
        exists offsets, tA', viewport, geometry, [GeometryMatcherRun (m_handle b) viewport].
        rewrite Hs. split; [exact HA|]. split; [exact HG|]. split; [apply Hrun|auto].
      * destruct Haddr as (offsets & HA & ->).
        exists offsets, tA, viewport, geometry, [GeometryMatcherRun (m_handle b) viewport].
        split; [exact HA|]. split; [exact HG|]. split; [apply Hrun|auto].
  - rewrite Go_finish_bucket_eq in H. inversion H; subst; clear H.
    eapply holds_matches_of_incl; [apply incl_appl, incl_refl|].
    destruct (m_finished b); [exact Hholds|]. exact Hholds.
Qed.

Lemma each_bucket_holds (params : SearchQueryParams)
  (body : FeatureBucket -> M FeatureBucket) (bs bs' : list FeatureBucket)
  (t : list Event) (runs : list (MwmHandle * RectD)) :
  bucket_loop_body params body ->
  each_bucket body bs bs' t ->
  Forall (holds_matches_of params runs) bs ->
  Forall (holds_matches_of params (runs ++ geometry_runs t)) bs'.
Proof.
  intros Hbody. induction 1 as [|b b' t bs bs' ts Hb _ IH]; intros H; [constructor|].
  inversion H as [|? ? Hb0 Hbs]; subst. rewrite geometry_runs_app. constructor.
  - eapply holds_matches_of_incl;
      [|exact (holds_matches_of_step params body b b' t runs Hbody Hb Hb0)].
    intros run Hrun. rewrite !in_app_iff in *. tauto.
  - eapply Forall_impl; [|exact (IH Hbs)].
    intros b1. apply holds_matches_of_incl.
    intros run Hrun. rewrite !in_app_iff in *. tauto.
Qed.

Lemma bucket_loops_hold (params : SearchQueryParams)
  (bs bs' : list FeatureBucket) (t : list Event) :
  bucket_loops params bs bs' t ->
  forall runs : list (MwmHandle * RectD),
    Forall (holds_matches_of params runs) bs ->
    Forall (holds_matches_of params (runs ++ geometry_runs t)) bs'.
Proof.
  induction 1 as [bs|body bs bs1 bs2 t1 t2 Hbody Hfirst _ IH]; intros runs H.
  - simpl. now rewrite app_nil_r.
  - rewrite geometry_runs_app, app_assoc. apply IH.
    apply for_each_bucket_each in Hfirst.
    now apply (each_bucket_holds params body bs bs1 t1 runs Hbody Hfirst).
Qed.

(** Over one retrieval every bucket holds the outputs of the two matchers
    for its tile, the output of the Geometry Matcher being that of a run of
    this retrieval. *)
Lemma retrieval_buckets_hold (this : Retrieval) (index : Index) (viewport : RectD)
  (params : SearchQueryParams) (limits : Limits) (r0 : Retrieval) (t0 : list Event)
  (fuel : nat) (r' : Retrieval) (t : list Event) :
  Init this index viewport params limits = Returned (r0, t0) ->
  Go fuel r0 = Returned (r', t) ->
  Forall (holds_matches_of params (geometry_runs t)) (m_buckets r').
Proof.
  intros HInit HGo.
  apply Init_Returned in HInit as (_ & Hparams & _ & _ & Hfresh).
  apply Go_loops in HGo as [Hloops _]. rewrite Hparams in Hloops.
  apply (bucket_loops_hold params (m_buckets r0) (m_buckets r') t Hloops []).
  clear - Hfresh.
  induction Hfresh as [|h b hs bs Hb _ IH]; constructor; [|exact IH].
  destruct Hb as (_ & _ & Ha & Hg & Hi & Hf1 & Hf2 & _).
  unfold holds_matches_of. rewrite Hf1. auto.
Qed.

(** ** How often the merge reports an id *)

Lemma count_occ_below_head (y z : N) (b : list N) :
  StronglySorted N.le (y :: b) -> (z < y)%N -> count_occ N.eq_dec (y :: b) z = 0%nat.
Proof.
  intros Hb Hz. apply count_occ_not_In. intros [->|Hin]; [lia|].
  apply StronglySorted_inv in Hb as [_ Hy].
  rewrite Forall_forall in Hy. specialize (Hy z Hin). simpl in Hy. lia.
Qed.

(** On ascending ranges the merge reports an id as often as both ranges
    have it: the smaller of its two multiplicities. *)
Lemma set_intersection_count (a b : list uint32_t) (z : uint32_t) :
  StronglySorted N.le a -> StronglySorted N.le b ->
  count_occ N.eq_dec (set_intersection a b) z
  = Nat.min (count_occ N.eq_dec a z) (count_occ N.eq_dec b z).
Proof.
  intros Ha. revert b. induction Ha as [|x a Ha IHa Hx]; intros b Hb; [reflexivity|].
  induction Hb as [|y b Hb IHb Hy].
  - simpl set_intersection. now rewrite Nat.min_0_r.
  - assert (Hxa : StronglySorted N.le (x :: a)) by now constructor.
    assert (Hyb : StronglySorted N.le (y :: b)) by now constructor.
    change (set_intersection (x :: a) (y :: b))
      with (if (x <? y)%N then set_intersection a (y :: b)
            else if (y <? x)%N then set_intersection (x :: a) b
                 else x :: set_intersection a b).
    destruct (N.ltb_spec x y) as [Hxy|Hxy].
    + rewrite (IHa (y :: b) Hyb).
      destruct (N.eq_dec x z) as [->|Hne].
      * rewrite (count_occ_below_head y z b Hyb Hxy). now rewrite !Nat.min_0_r.
      * now rewrite (count_occ_cons_neq N.eq_dec a Hne).
    + destruct (N.ltb_spec y x) as [Hyx|Hyx].
      * rewrite IHb.
        destruct (N.eq_dec y z) as [->|Hne].
        -- rewrite (count_occ_below_head x z a Hxa Hyx). now rewrite !Nat.min_0_l.
        -- now rewrite (count_occ_cons_neq N.eq_dec b Hne).
      * assert (x = y) by lia. subst y.
        destruct (N.eq_dec x z) as [->|Hne].
        -- rewrite !count_occ_cons_eq by reflexivity.
           rewrite (IHa b Hb). now rewrite Nat.succ_min_distr.
        -- rewrite !(count_occ_cons_neq N.eq_dec _ Hne). apply (IHa b Hb).
Qed.

Lemma sort_count (l : list uint32_t) (z : uint32_t) :
  count_occ N.eq_dec (sort l) z = count_occ N.eq_dec l z.
Proof.
  symmetry. revert z. apply (Permutation_count_occ N.eq_dec). apply sort_perm.
Qed.

Lemma strictly_ascending_NoDup (l : list uint32_t) : StronglySorted N.lt l -> NoDup l.
Proof.
  induction 1 as [|x l Hl IH Hx]; constructor; [|exact IH].
  intros Hin. rewrite Forall_forall in Hx. specialize (Hx x Hin). simpl in Hx. lia.
Qed.

(** C3, as the code has it. Over one retrieval ([Init], then [Go]) every
    call to the sink is made for a bucket of the working set and carries
    the merge of two sorted sequences: the output of the Address Matcher
    for the bucket's tile and the output of the Geometry Matcher for that
    tile with a viewport with which it was run on the tile during this
    [Go]. The ids are in ascending order. An id is reported as often as
    both outputs have it (the smaller of its two multiplicities), so an id
    that both matchers emit twice reaches the sink twice. The order is
    strict, and the sequence free of duplicates, as soon as one of these two
    outputs for that tile is free of duplicates. *)
Theorem sink_receives_ascending_ids
  (this : Retrieval) (index : Index) (viewport : RectD) (params : SearchQueryParams)
  (limits : Limits) (r0 : Retrieval) (t0 : list Event)
  (fuel : nat) (r' : Retrieval) (t : list Event) :
  Init this index viewport params limits = Returned (r0, t0) ->
  Go fuel r0 = Returned (r', t) ->
  Forall (fun call =>
            exists b offsets tA pass_viewport geometry tG,
              In b (m_buckets r')
              /\ call = (GetId (m_handle b), m_intersection b)
              /\ RetrieveAddressFeatures (m_handle b) params = Returned (offsets, tA)
              /\ RetrieveGeometryFeatures (m_handle b) pass_viewport params
                 = Returned (geometry, tG)
              /\ In (m_handle b, pass_viewport) (geometry_runs t)
              /\ Sorted N.le (snd call)
              /\ (forall z, count_occ N.eq_dec (snd call) z
                            = Nat.min (count_occ N.eq_dec offsets z)
                                (count_occ N.eq_dec geometry z))
              /\ (NoDup offsets \/ NoDup geometry ->
                  Sorted N.lt (snd call) /\ NoDup (snd call)))
    (sink_calls t).
Proof.
  intros HInit HGo.
  pose proof (retrieval_buckets_hold _ _ _ _ _ _ _ _ _ _ HInit HGo) as Hheld.
  rewrite Forall_forall in Hheld.
  eapply Permutation_Forall; [apply Permutation_sym, (Go_sink_calls fuel r0 r' t HGo)|].
  apply Forall_forall. intros call Hcall.
  apply finished_now_In in Hcall as (b & Hb & -> & Hne).
  specialize (Hheld b Hb). unfold holds_matches_of in Hheld.
  destruct (m_intersectsWithViewport b); [|now destruct Hheld as (_ & _ & _ & Hnil)].
  destruct Hheld as (offsets & tA & pv & geometry & tG & HA & HG & Hrun & _ & _ & _ & Hint).
  exists b, offsets, tA, pv, geometry, tG. cbn [snd].
  split; [exact Hb|]. split; [reflexivity|]. split; [exact HA|]. split; [exact HG|].
  split; [exact Hrun|]. rewrite Hint. split; [|split].
  - apply StronglySorted_Sorted, set_intersection_sorted_second, sort_ascending.
  - intros z. rewrite set_intersection_count by apply sort_ascending.
    now rewrite !sort_count.
  - intros Hnodup.
    assert (Hstrict : StronglySorted N.lt (set_intersection (sort offsets) (sort geometry))).
    { destruct Hnodup as [Hnd|Hnd].
      - now apply set_intersection_sorted_first, sort_strict.
      - now apply set_intersection_sorted_second, sort_strict. }
    split; [now apply StronglySorted_Sorted|now apply strictly_ascending_NoDup].
Qed.

(** X3. Over one retrieval ([Init], then [Go]) the flags of every bucket
    keep their order: a covered bucket is finished and was intersected;
    a bucket that was never intersected is not covered and its three
    sequences are still empty; and a bucket that was intersected holds the
    sorted output of the Address Matcher for its tile, the sorted output of
    the Geometry Matcher for its tile with a viewport with which the
    Geometry Matcher was run on the tile during this [Go], and their merge;
    it is covered exactly when that viewport contains its bounds. *)
Theorem buckets_hold_what_the_matchers_returned
  (this : Retrieval) (index : Index) (viewport : RectD) (params : SearchQueryParams)
  (limits : Limits) (r0 : Retrieval) (t0 : list Event)
  (fuel : nat) (r' : Retrieval) (t : list Event) :
  Init this index viewport params limits = Returned (r0, t0) ->
  Go fuel r0 = Returned (r', t) ->
  Forall (fun b =>
            (m_coveredByViewport b = true ->
             m_finished b = true /\ m_intersectsWithViewport b = true)
            /\ (if m_intersectsWithViewport b
                then exists offsets tA pass_viewport geometry tG,
                    RetrieveAddressFeatures (m_handle b) params = Returned (offsets, tA)
                    /\ RetrieveGeometryFeatures (m_handle b) pass_viewport params
                       = Returned (geometry, tG)
                    /\ In (m_handle b, pass_viewport) (geometry_runs t)
                    /\ m_coveredByViewport b = IsRectInside pass_viewport (m_bounds b)
                    /\ m_addressFeatures b = sort offsets
                    /\ m_geometryFeatures b = sort geometry
                    /\ m_intersection b = set_intersection (sort offsets) (sort geometry)
                else m_coveredByViewport b = false
                     /\ m_addressFeatures b = [] /\ m_geometryFeatures b = []
                     /\ m_intersection b = []))
    (m_buckets r').
Proof.
  intros HInit HGo.
  pose proof (retrieval_buckets_sound _ _ _ _ _ _ _ _ _ _ HInit HGo) as Hsound.
  pose proof (retrieval_buckets_hold _ _ _ _ _ _ _ _ _ _ HInit HGo) as Hheld.
  rewrite Forall_forall in Hsound, Hheld |- *. intros b Hb.
  destruct (Hsound b Hb) as (_ & Hflags & _). split; [exact Hflags|].
  exact (Hheld b Hb).
Qed.

(** X4. Over one retrieval ([Init], then [Go]) every call to the sink is
    made for a bucket of the working set and carries the tile id of its
    handle and exactly the ids that the Address Matcher emitted for that
    tile and that the Geometry Matcher emitted for that tile with a
    viewport with which it was run on the tile during this [Go]. So a tile
    for which either matcher emits nothing is never reported. *)
Theorem sink_receives_the_common_matches
  (this : Retrieval) (index : Index) (viewport : RectD) (params : SearchQueryParams)
  (limits : Limits) (r0 : Retrieval) (t0 : list Event)
  (fuel : nat) (r' : Retrieval) (t : list Event) :
  Init this index viewport params limits = Returned (r0, t0) ->
  Go fuel r0 = Returned (r', t) ->
  Forall (fun call =>
            exists b offsets tA pass_viewport geometry tG,
              In b (m_buckets r')
              /\ fst call = GetId (m_handle b)
              /\ RetrieveAddressFeatures (m_handle b) params = Returned (offsets, tA)
              /\ RetrieveGeometryFeatures (m_handle b) pass_viewport params
                 = Returned (geometry, tG)
              /\ In (m_handle b, pass_viewport) (geometry_runs t)
              /\ (forall z, In z (snd call) <-> In z offsets /\ In z geometry)
              /\ offsets <> [] /\ geometry <> [])
    (sink_calls t).
Proof.
  intros HInit HGo.
  pose proof (retrieval_buckets_hold _ _ _ _ _ _ _ _ _ _ HInit HGo) as Hheld.
  rewrite Forall_forall in Hheld.
  eapply Permutation_Forall; [apply Permutation_sym, (Go_sink_calls fuel r0 r' t HGo)|].
  apply Forall_forall. intros call Hcall.
  apply finished_now_In in Hcall as (b & Hb & -> & Hne).
  specialize (Hheld b Hb). unfold holds_matches_of in Hheld.
  destruct (m_intersectsWithViewport b); [|now destruct Hheld as (_ & _ & _ & Hnil)].
  destruct Hheld as (offsets & tA & pv & geometry & tG & HA & HG & Hrun & _ & _ & _ & Hint).
  assert (Hiff : forall z, In z (m_intersection b) <-> In z offsets /\ In z geometry).
  { intros z. rewrite Hint, <- (sort_In offsets), <- (sort_In geometry). split.
    - apply set_intersection_In.
    - intros [H1 H2]. apply set_intersection_complete; auto using sort_ascending. }
  exists b, offsets, tA, pv, geometry, tG. simpl.
  repeat (split; [assumption || reflexivity|]).
  destruct (m_intersection b) as [|z l] eqn:Hl; [contradiction|].
  destruct (proj1 (Hiff z) (or_introl eq_refl)) as [H1 H2].
  split; intros ->; contradiction.
Qed.


End Further.

(** * The integration tests' callbacks on the runs of [Go] *)
Section TestCallbackProperties.

Context {C : Collaborators}.
Variable MwmId_eqb : MwmId -> MwmId -> bool.
Hypothesis MwmId_eqb_eq : forall a b, MwmId_eqb a b = true <-> a = b.

Lemma Go_again (fuel : nat) (r r' : Retrieval) (t : list Event) :
  Go fuel r = Returned (r', t) -> Go fuel r' = Returned (r', []).
Proof.
  intros H. apply Go_Returned in H as (rk & t1 & t2 & Hloop & Hfin & Hr' & ->).
  destruct (Go_finish_all _ _ _ Hfin) as (Hall & Hcov & Hint).
  assert (Hlim : m_limits r' = m_limits r).
  { rewrite Hr'. apply Go_loop_loops in Hloop as [_ ->]. reflexivity. }
  unfold Go.
  rewrite (Go_loop_again fuel 1%float r rk t1 Hloop r' Hall Hlim
             (ViewportCoversAllMwms_map r' rk Hcov)
             (CountRetrievedFeatures_map r' rk Hint)).
  change (Returned (r', @nil Event)) with (ret r') at 1. rewrite bind_ret_l.
  rewrite (for_each_bucket_finished (m_params r') _ _ (body_finish _) Hall).
  unfold bind, ret. simpl. now rewrite set_buckets_same.
Qed.

Lemma contains_In (s : list MwmId) (id : MwmId) :
  contains MwmId_eqb s id = true <-> In id s.
Proof.
  unfold contains. rewrite existsb_exists. split.
  - intros (x & Hx & Heq). apply MwmId_eqb_eq in Heq. now subst.
  - intros H. exists id. split; [exact H|]. now apply MwmId_eqb_eq.
Qed.

Lemma contains_not_In (s : list MwmId) (id : MwmId) :
  contains MwmId_eqb s id = false <-> ~ In id s.
Proof.
  rewrite <- contains_In. destruct (contains MwmId_eqb s id); split; congruence.
Qed.

(** ** MultiMwmCallback *)

Lemma MultiMwmCallback_deliver_passes (calls : list (MwmId * list uint32_t)) :
  forall (callback : MultiMwmCallback) (count : N),
    NoDup (map fst calls) ->
    (forall id, In id (map fst calls) ->
                In id (m_ids callback) /\ ~ In id (m_retrieved callback)) ->
    m_numFeatures callback = (count mod 2 ^ 64)%N ->
    exists callback',
      deliver (MultiMwmCallback_OnMwmProcessed MwmId_eqb) callback calls = Passed callback'
      /\ m_ids callback' = m_ids callback
      /\ length (m_retrieved callback')
         = (length (m_retrieved callback) + length calls)%nat
      /\ m_numFeatures callback'
         = ((count + N.of_nat (ids_delivered calls)) mod 2 ^ 64)%N.
Proof.
  induction calls as [|[id offsets] calls IH]; intros callback count Hnd Hknown Hcount.
  - exists callback. simpl. rewrite Nat.add_0_r, N.add_0_r. auto.
  - simpl in Hnd. inversion Hnd as [|? ? Hnotin Hnd']; subst.
    destruct (Hknown id (or_introl eq_refl)) as [Hid Hnew].
    cbn [deliver]. unfold MultiMwmCallback_OnMwmProcessed.
    rewrite (proj2 (contains_In _ _) Hid), (proj2 (contains_not_In _ _) Hnew). cbn [negb].
    unfold set_insert. rewrite (proj2 (contains_not_In _ _) Hnew).
    match goal with
    | |- context [deliver _ ?cb calls] =>
        destruct (IH cb (count + N.of_nat (length offsets))%N Hnd') as (cb' & Hd & Hi & Hl & Hn)
    end.
    + intros id' Hin'. destruct (Hknown id' (or_intror Hin')) as [Hk Hn]. simpl.
      split; [exact Hk|]. intros [<-|Hr]; [contradiction|contradiction].
    + simpl. unfold uint64_add. rewrite Hcount. apply N.Div0.add_mod_idemp_l.
    + exists cb'. split; [exact Hd|]. split; [exact Hi|]. split.
      * rewrite Hl. simpl. lia.
      * rewrite Hn. unfold ids_delivered. simpl. f_equal. rewrite Nat2N.inj_add. lia.
Qed.

Lemma MultiMwmCallback_deliver_passed (calls : list (MwmId * list uint32_t)) :
  forall callback callback' : MultiMwmCallback,
    deliver (MultiMwmCallback_OnMwmProcessed MwmId_eqb) callback calls = Passed callback' ->
    NoDup (map fst calls)
    /\ (forall id, In id (map fst calls) ->
                   In id (m_ids callback) /\ ~ In id (m_retrieved callback)).
Proof.
  induction calls as [|[id offsets] calls IH]; intros callback callback' H.
  - split; [constructor|contradiction].
  - cbn [deliver] in H. unfold MultiMwmCallback_OnMwmProcessed in H.
    destruct (contains MwmId_eqb (m_ids callback) id) eqn:Hid; [|discriminate H].
    destruct (contains MwmId_eqb (m_retrieved callback) id) eqn:Hnew; [discriminate H|].
    cbn [negb] in H. apply IH in H as [Hnd Hknown]. cbn [m_ids m_retrieved] in Hknown.
    unfold set_insert in Hknown. rewrite Hnew in Hknown.
    apply contains_In in Hid. apply contains_not_In in Hnew.
    split.
    + simpl. constructor; [|exact Hnd].
      intros Hin. destruct (Hknown id Hin) as [_ Hn]. apply Hn. now left.
    + intros id' [<-|Hin]; [now split|].
      destruct (Hknown id' Hin) as [Hk Hn]. split; [exact Hk|].
      intros Hr. apply Hn. now right.
Qed.

(** X13. [MultiMwmCallback] accepts a sequence of calls exactly when every
    id is one of the ids it was constructed with and no id comes twice;
    it then reports as [GetNumMwms] the number of calls and as
    [GetNumFeatures] the number of ids it was handed, modulo 2^64. *)
Theorem MultiMwmCallback_accepts_known_distinct_ids
  (ids : list MwmId) (calls : list (MwmId * list uint32_t)) :
  (NoDup (map fst calls) /\ (forall id, In id (map fst calls) -> In id ids))
  <-> (exists callback,
          deliver (MultiMwmCallback_OnMwmProcessed MwmId_eqb)
            (MultiMwmCallback_ctor ids) calls = Passed callback
          /\ GetNumMwms callback = N.of_nat (length calls)
          /\ GetNumFeatures callback
             = (N.of_nat (ids_delivered calls) mod 2 ^ 64)%N).
Proof.
  split.
  - intros [Hnd Hknown].
    destruct (MultiMwmCallback_deliver_passes calls (MultiMwmCallback_ctor ids) 0%N Hnd)
      as (cb & Hd & _ & Hl & Hn).
    + intros id Hin. split; [now apply Hknown|intros []].
    + reflexivity.
    + exists cb. split; [exact Hd|]. unfold GetNumMwms, GetNumFeatures.
      rewrite Hl, Hn. simpl. split; reflexivity.
  - intros (cb & Hd & _).
    apply MultiMwmCallback_deliver_passed in Hd as [Hnd Hknown].
    split; [exact Hnd|]. intros id Hin. now apply Hknown.
Qed.

(** X14. Every run of [Go] satisfies [MultiMwmCallback]: when the buckets
    carry pairwise distinct tile ids and the callback was constructed with
    (at least) those ids, none of its [TEST]s fails on the calls of the run;
    afterwards [GetNumMwms] is the number of sink calls of the run and
    [GetNumFeatures] the number of ids they carried, modulo 2^64. *)
Theorem Go_satisfies_MultiMwmCallback (ids : list MwmId)
  (fuel : nat) (r r' : Retrieval) (t : list Event) :
  Go fuel r = Returned (r', t) ->
  NoDup (map (fun b => GetId (m_handle b)) (m_buckets r)) ->
  (forall b, In b (m_buckets r) -> In (GetId (m_handle b)) ids) ->
  exists callback,
    deliver (MultiMwmCallback_OnMwmProcessed MwmId_eqb)
      (MultiMwmCallback_ctor ids) (sink_calls t) = Passed callback
    /\ GetNumMwms callback = N.of_nat (length (sink_calls t))
    /\ GetNumFeatures callback
       = (N.of_nat (ids_delivered (sink_calls t)) mod 2 ^ 64)%N.
Proof.
  intros HGo Hnd Hknown.
  pose proof (Go_sink_calls fuel r r' t HGo) as Hperm.
  apply Go_loops in HGo as [Hloops _]. apply bucket_loops_evolve in Hloops.
  destruct (MultiMwmCallback_deliver_passes (sink_calls t) (MultiMwmCallback_ctor ids) 0%N)
    as (cb & Hd & _ & Hl & Hn).
  - eapply Permutation_NoDup; [apply Permutation_sym, Permutation_map, Hperm|].
    eapply finished_now_ids_NoDup; eauto.
  - intros id Hin. split; [|intros []].
    eapply Permutation_in in Hin; [|apply Permutation_map, Hperm].
    eapply finished_now_ids_In in Hin; [|exact Hloops].
    apply in_map_iff in Hin as (b & <- & Hb). now apply Hknown.
  - reflexivity.
  - exists cb. split; [exact Hd|]. unfold GetNumMwms, GetNumFeatures.
    rewrite Hl, Hn. simpl. split; reflexivity.
Qed.

(** ** TestCallback *)

(** X15. [Go] on a working set of one tile satisfies the [TestCallback]
    constructed with that tile's id: neither [TEST] fails; the callback is
    triggered exactly when the final intersection of the bucket is not
    empty, and then holds that intersection as its offsets. Another [Go]
    on the same controller leaves a fresh callback untriggered, as
    Retrieval_Smoke expects of its [dummyCallback]. *)
Theorem Go_satisfies_TestCallback (id : MwmId) (b : FeatureBucket)
  (fuel : nat) (r r' : Retrieval) (t : list Event) :
  m_buckets r = [b] ->
  m_finished b = false ->
  GetId (m_handle b) = id ->
  Go fuel r = Returned (r', t) ->
  exists b' callback,
    m_buckets r' = [b']
    /\ deliver (TestCallback_OnMwmProcessed MwmId_eqb) (TestCallback_ctor id)
         (sink_calls t) = Passed callback
    /\ WasTriggered callback = negb (empty (m_intersection b'))
    /\ Offsets callback = m_intersection b'
    /\ exists t2,
        Go fuel r' = Returned (r', t2)
        /\ deliver (TestCallback_OnMwmProcessed MwmId_eqb) (TestCallback_ctor id)
             (sink_calls t2) = Passed (TestCallback_ctor id).
Proof.
  intros Hone Hfin Hid HGo.
  pose proof (Go_sink_calls fuel r r' t HGo) as Hperm.
  pose proof (Go_again fuel r r' t HGo) as Hagain.
  pose proof HGo as HGo'. apply Go_Returned in HGo' as (rk & t1 & t2 & _ & Hdrain & _).
  apply Go_finish_all in Hdrain as (Hall & _).
  apply Go_loops in HGo as [Hloops _]. apply bucket_loops_evolve in Hloops.
  rewrite Hone in Hloops, Hperm.
  inversion Hloops as [|? b' ? l2 Hev Hnil Heq1 Heq2]; subst. inversion Hnil; subst.
  rewrite <- Heq2 in Hperm, Hall. inversion Hall as [|? ? Hfin' _]; subst.
  rewrite over_buckets_cons in Hperm. unfold over_buckets in Hperm. simpl in Hperm.
  rewrite app_nil_r in Hperm. unfold finished_now, report in Hperm.
  rewrite Hfin, Hfin' in Hperm. destruct Hev as (Hh & _).
  exists b'.
  destruct (empty (m_intersection b')) eqn:Hempty.
  - apply Permutation_sym, Permutation_nil in Hperm.
    exists (TestCallback_ctor (GetId (m_handle b))). rewrite Hperm.
    split; [reflexivity|]. split; [reflexivity|]. split; [reflexivity|].
    split; [now destruct (m_intersection b')|].
    exists []. split; [exact Hagain|reflexivity].
  - apply Permutation_sym, Permutation_length_1_inv in Hperm.
    exists {| m_id := GetId (m_handle b); m_offsets := m_intersection b';
              m_triggered := true |}.
    rewrite Hperm. split; [reflexivity|]. split.
    + cbn [deliver]. unfold TestCallback_OnMwmProcessed. cbn [TestCallback_ctor m_triggered m_id negb].
      rewrite Hh, (proj2 (MwmId_eqb_eq _ _) eq_refl). reflexivity.
    + split; [reflexivity|]. split; [reflexivity|].
      exists []. split; [exact Hagain|reflexivity].
Qed.

End TestCallbackProperties.

(** * The channel converters *)
Module PixelTraits.

Import yg.

Lemma Downsample_Denom_power (FromBig ToSmall : N) :
  (ToSmall <= FromBig)%N -> (FromBig < 2 ^ 32)%N -> (FromBig - ToSmall < 31)%N ->
  Downsample_Denom FromBig ToSmall = Some (2 ^ (FromBig - ToSmall))%N.
Proof.
  intros Hle Hbig Hshift. unfold Downsample_Denom, unsigned_sub.
  assert (Hsub : ((FromBig + 2 ^ 32 - ToSmall mod 2 ^ 32) mod 2 ^ 32
                  = FromBig - ToSmall)%N).
  { rewrite (N.mod_small ToSmall) by lia.
    replace (FromBig + 2 ^ 32 - ToSmall)%N with (FromBig - ToSmall + 1 * 2 ^ 32)%N by lia.
    rewrite N.Div0.mod_add. apply N.mod_small. lia. }
  rewrite Hsub. destruct (N.ltb_spec (FromBig - ToSmall) 31) as [_|Hcontra]; [|lia].
  now rewrite N.shiftl_1_l.
Qed.

Lemma DownsampleImpl_bounds (shift ToSmall ch : N) :
  (ch < 2 ^ (ToSmall + shift))%N ->
  (DownsampleImpl (2 ^ shift) ch < 2 ^ ToSmall)%N
  /\ (DownsampleImpl (2 ^ shift) ch * 2 ^ shift <= ch)%N
  /\ (ch < (DownsampleImpl (2 ^ shift) ch + 1) * 2 ^ shift)%N.
Proof.
  intros Hch. unfold DownsampleImpl.
  assert (Hpos : (2 ^ shift <> 0)%N) by (apply N.pow_nonzero; lia).
  pose proof (N.Div0.mul_div_le ch (2 ^ shift)%N) as Hlow.
  pose proof (N.mul_succ_div_gt ch (2 ^ shift)%N Hpos) as Hhigh.
  split; [|split; lia].
  apply N.Div0.div_lt_upper_bound. rewrite N.pow_add_r in Hch. lia.
Qed.

Lemma unsigned_channel_holds (bits ToSmall value : N) :
  (ToSmall <= bits)%N -> (value < 2 ^ ToSmall)%N -> unsigned_channel bits value = value.
Proof.
  intros Hbits Hvalue. unfold unsigned_channel. apply N.mod_small.
  assert (2 ^ ToSmall <= 2 ^ bits)%N by (apply N.pow_le_mono_r; lia). lia.
Qed.

(** X19. [Downsample<FromBig, ToSmall>] with [ToSmall <= FromBig] and a
    shift below 31, applied to a pixel whose channels fit [FromBig] bits and
    written to channels of a type that holds every value below [2^ToSmall]
    unchanged, divides every channel by [2^(FromBig - ToSmall)], rounding
    down: the destination has as many channels, each of which fits
    [ToSmall] bits and, scaled back by the divisor, is at most the source
    channel and less than one divisor below it; among source channels that
    fit [FromBig] bits the converter keeps the order of channel values.
    Unsigned channels of at least [ToSmall] bits are such a type and receive
    these same values. Unsigned channels of any width receive these values
    modulo two to the power of their width, so a narrower channel loses the
    high bits of the quotient. *)
Theorem Downsample_fits_the_small_channel (Ch2 : N -> N) (FromBig ToSmall : N)
  (src : list N) :
  (ToSmall <= FromBig)%N -> (FromBig < 2 ^ 32)%N -> (FromBig - ToSmall < 31)%N ->
  (forall value, (value < 2 ^ ToSmall)%N -> Ch2 value = value) ->
  Forall (fun ch => (ch < 2 ^ FromBig)%N) src ->
  exists dst,
    Downsample_to Ch2 FromBig ToSmall src = Some dst
    /\ length dst = length src
    /\ Forall2 (fun ch1 ch2 =>
                  (ch2 < 2 ^ ToSmall)%N
                  /\ (ch2 * 2 ^ (FromBig - ToSmall) <= ch1)%N
                  /\ (ch1 < (ch2 + 1) * 2 ^ (FromBig - ToSmall))%N)
         src dst
    /\ (forall a b, (a <= b)%N -> (b < 2 ^ FromBig)%N ->
          (DownsampleImpl_to Ch2 (2 ^ (FromBig - ToSmall)) a
           <= DownsampleImpl_to Ch2 (2 ^ (FromBig - ToSmall)) b)%N)
    /\ (forall bits, (ToSmall <= bits)%N ->
          Downsample_to (unsigned_channel bits) FromBig ToSmall src = Some dst)
    /\ (forall bits,
          Downsample_to (unsigned_channel bits) FromBig ToSmall src
          = Some (map (fun ch2 => (ch2 mod 2 ^ bits)%N) dst)).
Proof.
  intros Hle Hbig Hshift HCh2 Hsrc. unfold Downsample_to.
  rewrite (Downsample_Denom_power FromBig ToSmall Hle Hbig Hshift).
  assert (Hfit : forall ch, (ch < 2 ^ FromBig)%N ->
                   (DownsampleImpl (2 ^ (FromBig - ToSmall)) ch < 2 ^ ToSmall)%N
                   /\ (DownsampleImpl (2 ^ (FromBig - ToSmall)) ch
                       * 2 ^ (FromBig - ToSmall) <= ch)%N
                   /\ (ch < (DownsampleImpl (2 ^ (FromBig - ToSmall)) ch + 1)
                            * 2 ^ (FromBig - ToSmall))%N).
  { intros ch Hch. apply DownsampleImpl_bounds.
    now replace (ToSmall + (FromBig - ToSmall))%N with FromBig by lia. }
  assert (Hexact : static_for_each (DownsampleImpl_to Ch2 (2 ^ (FromBig - ToSmall))) src
                   = static_for_each (DownsampleImpl (2 ^ (FromBig - ToSmall))) src).
  { unfold static_for_each. apply map_ext_in. intros ch Hch.
    rewrite Forall_forall in Hsrc. unfold DownsampleImpl_to.
    apply HCh2, (Hfit ch (Hsrc ch Hch)). }
  exists (static_for_each (DownsampleImpl (2 ^ (FromBig - ToSmall))) src).
  split; [now rewrite Hexact|]. unfold static_for_each.
  split; [apply length_map|]. split; [|split; [|split]].
  - clear Hexact. induction Hsrc as [|ch src Hch _ IH]; simpl; [constructor|].
    constructor; [exact (Hfit ch Hch)|exact IH].
  - intros a b Hab Hb. unfold DownsampleImpl_to.
    rewrite (HCh2 _ (proj1 (Hfit a ltac:(lia)))), (HCh2 _ (proj1 (Hfit b Hb))).
    unfold DownsampleImpl. apply N.Div0.div_le_mono. exact Hab.
  - intros bits Hbits. f_equal. apply map_ext_in. intros ch Hch.
    rewrite Forall_forall in Hsrc. unfold DownsampleImpl_to.
    apply (unsigned_channel_holds bits ToSmall _ Hbits), (Hfit ch (Hsrc ch Hch)).
  - intros bits. f_equal. rewrite map_map. reflexivity.
Qed.

(** X20. The constants of the two pixel traits agree with their
    converters on 8-bit channels: the converter of either traits maps every
    channel into [0, maxChannelVal] and maps 255 to [maxChannelVal]; the
    converted channel times [channelScaleFactor] is at most the source
    channel and less than [channelScaleFactor] below it; and the converter
    of [RGBA8Traits] returns the pixel as it is. *)
Theorem traits_constants_match_their_converters (OMIM_GL_ES : bool) (src : list N) :
  Forall (fun ch => (ch < 2 ^ 8)%N) src ->
  exists dst,
    convert (DATA_TRAITS OMIM_GL_ES) src = Some dst
    /\ Forall2 (fun ch1 ch2 =>
                  (Z.of_N ch2 <= maxChannelVal (DATA_TRAITS OMIM_GL_ES))%Z
                  /\ (Z.of_N ch2 * channelScaleFactor (DATA_TRAITS OMIM_GL_ES)
                      <= Z.of_N ch1)%Z
                  /\ (Z.of_N ch1 - channelScaleFactor (DATA_TRAITS OMIM_GL_ES)
                      < Z.of_N ch2 * channelScaleFactor (DATA_TRAITS OMIM_GL_ES))%Z)
         src dst
    /\ convert (DATA_TRAITS OMIM_GL_ES) [255%N]
       = Some [Z.to_N (maxChannelVal (DATA_TRAITS OMIM_GL_ES))]
    /\ (OMIM_GL_ES = false -> dst = src).
Proof.
  intros Hsrc. destruct OMIM_GL_ES; unfold convert; simpl.
  - exists (map (DownsampleImpl 16) src). split; [reflexivity|]. split; [|split].
    + induction Hsrc as [|ch src Hch _ IH]; simpl; [constructor|].
      constructor; [|exact IH].
      destruct (DownsampleImpl_bounds 4 4 ch Hch) as (H1 & H2 & H3).
      change (2 ^ 4)%N with 16%N in *. lia.
    + reflexivity.
    + discriminate.
  - exists (map (DownsampleImpl 1) src). split; [reflexivity|].
    assert (Hid : map (DownsampleImpl 1) src = src).
    { clear Hsrc. induction src as [|ch src IH]; simpl; [reflexivity|].
      unfold DownsampleImpl at 1. now rewrite N.div_1_r, IH. }
    split; [|split; [reflexivity|now intros _]].
    rewrite Hid. clear Hid.
    induction Hsrc as [|ch src Hch _ IH]; [constructor|].
    constructor; [|exact IH].
    change (2 ^ 8)%N with 256%N in Hch. lia.
Qed.

End PixelTraits.

(** * The statements on concrete runs *)
Module Runs.

Import Town.

(** *** Witnesses *)

Lemma sink_called_iff_finished_nonempty_witness :
  Go 10 three_tiles = Returned three_tiles_done
  /\ Permutation (sink_calls (snd three_tiles_done))
       (over_buckets finished_now (m_buckets three_tiles)
          (m_buckets (fst three_tiles_done)))
  /\ NoDup (map fst (sink_calls (snd three_tiles_done))).
Proof.
  assert (H : Go 10 three_tiles = Returned three_tiles_done) by (vm_compute; reflexivity).
  destruct (sink_called_iff_finished_nonempty 10 three_tiles
              (fst three_tiles_done) (snd three_tiles_done) H) as (Hperm & _ & Hnodup & _).
  split; [exact H|]. split; [exact Hperm|].
  apply Hnodup. clear H Hperm Hnodup. vm_compute.
  repeat constructor; simpl; intuition discriminate.
Defined.

Lemma finished_bucket_is_never_mutated_witness :
  m_finished (set_finished (hd_bucket three_tiles) true) = true
  /\ RetrieveForViewport_bucket mtv_query around_origin
       (set_finished (hd_bucket three_tiles) true)
     = Returned (set_finished (hd_bucket three_tiles) true, []).
Proof.
  split; [reflexivity|].
  exact (proj1 (finished_bucket_is_never_mutated mtv_query
                  (RetrieveForViewport_bucket mtv_query around_origin)
                  (set_finished (hd_bucket three_tiles) true)
                  (body_pass mtv_query around_origin) eq_refl)).
Defined.

Lemma second_Go_is_a_no_op_witness :
  Go 10 three_tiles = Returned three_tiles_done
  /\ Forall (fun b => m_finished b = true) (m_buckets (fst three_tiles_done))
  /\ Go 10 (fst three_tiles_done) = Returned (fst three_tiles_done, []).
Proof.
  assert (H : Go 10 three_tiles = Returned three_tiles_done) by (vm_compute; reflexivity).
  split; [exact H|].
  exact (second_Go_is_a_no_op 10 three_tiles (fst three_tiles_done)
           (snd three_tiles_done) H).
Defined.

Lemma Go_on_empty_working_set_witness :
  m_buckets nothing_admitted = []
  /\ Go_loop 1 1%float nothing_admitted = Returned (nothing_admitted, [])
  /\ Go 1 nothing_admitted = Returned (nothing_admitted, []).
Proof.
  split; [reflexivity|].
  exact (Go_on_empty_working_set 0 nothing_admitted eq_refl).
Defined.

Lemma Go_with_zero_minimum_is_one_pass_witness :
  IsMinNumFeaturesSet (m_limits bars_min0) = true
  /\ m_minNumFeatures (m_limits bars_min0) = 0%N
  /\ IsMaxViewportScaleSet (m_limits bars_min0) = false
  /\ Go 10 bars_min0
     = bind (RetrieveForViewport (Scale (m_viewport bars_min0) 1%float) bars_min0)
         (fun r1 =>
            bind (for_each_bucket Go_finish_bucket (m_buckets r1))
              (fun buckets => ret (set_buckets r1 buckets))).
Proof.
  split; [reflexivity|]. split; [reflexivity|]. split; [reflexivity|].
  exact (Go_with_zero_minimum_is_one_pass 9 bars_min0 eq_refl eq_refl eq_refl).
Defined.

Lemma pass_viewport_uses_clamped_scale_witness :
  Go 10 bars_max5 = Returned bars_max5_done
  /\ Forall (fun viewport =>
               exists k, viewport = Scale (m_viewport bars_max5)
                                      (clamped_scale (m_limits bars_max5)
                                         (viewportScale_at k)))
       (geometry_viewports (snd bars_max5_done)).
Proof.
  assert (H : Go 10 bars_max5 = Returned bars_max5_done) by (vm_compute; reflexivity).
  split; [exact H|].
  exact (proj1 (pass_viewport_uses_clamped_scale 10 bars_max5 (fst bars_max5_done)
                  (snd bars_max5_done) H)).
Defined.

Lemma address_matcher_runs_at_first_contact_only_witness :
  Init blank registry around_origin mtv_query Limits_ctor = Returned (three_tiles, [])
  /\ Go 10 three_tiles = Returned three_tiles_done
  /\ Permutation (address_runs (snd three_tiles_done))
       (map m_handle (filter m_intersectsWithViewport (m_buckets (fst three_tiles_done)))).
Proof.
  assert (HInit : Init blank registry around_origin mtv_query Limits_ctor
                  = Returned (three_tiles, [])) by (vm_compute; reflexivity).
  assert (H : Go 10 three_tiles = Returned three_tiles_done) by (vm_compute; reflexivity).
  split; [exact HInit|]. split; [exact H|].
  exact (proj1 (address_matcher_runs_at_first_contact_only blank registry around_origin
                  mtv_query Limits_ctor three_tiles [] 10 (fst three_tiles_done)
                  (snd three_tiles_done) HInit H)).
Defined.

(** *** Counterexamples *)

(** C1 as stated, on Retrieval_Smoke with a maximum scale of 5: the sixth
    pass (iteration 5, where [viewportScale] has grown past 5) is handed the
    base viewport scaled by 5, namely [-2, 3] x [-2, 3], not the base
    viewport scaled by [viewportScale]. *)
Lemma pass_viewport_is_not_scaled_by_viewportScale :
  ~ (forall r' t,
        Go 10 bars_max5 = Returned (r', t) ->
        forall k viewport,
          nth_error (geometry_viewports t) k = Some viewport ->
          viewport = Scale (m_viewport bars_max5) (viewportScale_at k)).
Proof.
  intros Hclaim.
  assert (H : Go 10 bars_max5 = Returned bars_max5_done) by (vm_compute; reflexivity).
  specialize (Hclaim (fst bars_max5_done) (snd bars_max5_done) H 5%nat
                (rect (-2) (-2) 3 3) eq_refl).
  apply (f_equal (fun viewport => PrimFloat.leb (maxX viewport) 3)) in Hclaim.
  vm_compute in Hclaim. discriminate Hclaim.
Qed.

(** C3 as stated, on the street that both matchers emit twice: the sink
    receives [7; 7]. *)
Lemma duplicate_ids_reach_the_sink :
  ~ (forall r0 t0 r' t,
        Init blank [HighStreet] unit_square whiskey Limits_ctor = Returned (r0, t0) ->
        Go 10 r0 = Returned (r', t) ->
        Forall (fun call => Sorted N.lt (snd call)) (sink_calls t)).
Proof.
  intros Hclaim.
  assert (HInit : Init blank [HighStreet] unit_square whiskey Limits_ctor
                  = Returned (street, [])) by (vm_compute; reflexivity).
  assert (H : Go 10 street = Returned street_done) by (vm_compute; reflexivity).
  specialize (Hclaim street [] (fst street_done) (snd street_done) HInit H).
  vm_compute in Hclaim.
  inversion Hclaim as [|call calls Hsorted _]; subst.
  inversion Hsorted as [|x l _ Hhd]; subst.
  inversion Hhd as [|y l' Hlt]; subst.
  vm_compute in Hlt. discriminate Hlt.
Qed.

(** C6 as stated, on Retrieval_3Mwms with a minimum of 1 feature: the first
    pass finds the one feature of the tile around the origin and the loop
    stops; the Address Matcher has been run on that tile only, not once on
    each of the three buckets. *)
Lemma address_matcher_is_not_run_on_every_bucket :
  ~ (forall r0 t0 r' t,
        Init blank registry around_origin mtv_query (SetMinNumFeatures Limits_ctor 1)
        = Returned (r0, t0) ->
        Go 10 r0 = Returned (r', t) ->
        Permutation (address_runs t) (map m_handle (m_buckets r'))).
Proof.
  intros Hclaim.
  assert (HInit : Init blank registry around_origin mtv_query
                    (SetMinNumFeatures Limits_ctor 1)
                  = Returned (three_tiles_min1, [])) by (vm_compute; reflexivity).
  assert (H : Go 10 three_tiles_min1 = Returned three_tiles_min1_done)
    by (vm_compute; reflexivity).
  specialize (Hclaim three_tiles_min1 [] (fst three_tiles_min1_done)
                (snd three_tiles_min1_done) HInit H).
  apply Permutation_length in Hclaim. vm_compute in Hclaim. discriminate Hclaim.
Qed.

(** C4 as stated, on Retrieval_Smoke with a minimum of 0 features and no
    maximum scale: [Go] returns after one pass over the unit square, which
    does not cover the tile's bounds [0, 9] x [0, 9]. *)
Lemma zero_minimum_stops_before_full_coverage :
  IsMinNumFeaturesSet (m_limits bars_min0) = true
  /\ m_minNumFeatures (m_limits bars_min0) = 0%N
  /\ IsMaxViewportScaleSet (m_limits bars_min0) = false
  /\ ~ (forall r' t,
           Go 10 bars_min0 = Returned (r', t) -> ViewportCoversAllMwms r' = true).
Proof.
  split; [reflexivity|]. split; [reflexivity|]. split; [reflexivity|].
  intros Hclaim.
  assert (H : Go 10 bars_min0 = Returned bars_min0_done) by (vm_compute; reflexivity).
  specialize (Hclaim (fst bars_min0_done) (snd bars_min0_done) H).
  vm_compute in Hclaim. discriminate Hclaim.
Qed.

(** *** Witnesses of the further properties *)

Lemma sink_never_receives_an_empty_sequence_witness :
  Go 10 three_tiles = Returned three_tiles_done
  /\ Forall (fun call => snd call <> []) (sink_calls (snd three_tiles_done)).
Proof.
  assert (H : Go 10 three_tiles = Returned three_tiles_done) by (vm_compute; reflexivity).
  split; [exact H|].
  exact (sink_never_receives_an_empty_sequence 10 three_tiles (fst three_tiles_done)
           (snd three_tiles_done) H).
Defined.

Lemma Go_returns_for_a_reason_witness :
  Go 10 three_tiles_min1 = Returned three_tiles_min1_done
  /\ (ViewportCoversAllMwms (fst three_tiles_min1_done) = true
      \/ IsMaxViewportScaleSet (m_limits three_tiles_min1) = true
      \/ (IsMinNumFeaturesSet (m_limits three_tiles_min1) = true
          /\ (m_minNumFeatures (m_limits three_tiles_min1)
              <= CountRetrievedFeatures (fst three_tiles_min1_done))%N)).
Proof.
  assert (H : Go 10 three_tiles_min1 = Returned three_tiles_min1_done)
    by (vm_compute; reflexivity).
  split; [exact H|].
  exact (Go_returns_for_a_reason 10 three_tiles_min1 (fst three_tiles_min1_done)
           (snd three_tiles_min1_done) H).
Defined.

Lemma sink_is_handed_every_retrieved_id_witness :
  Init blank [WhiskeyTown] unit_square whiskey (SetMaxViewportScale Limits_ctor 5)
  = Returned (bars_max5, [])
  /\ Go 10 bars_max5 = Returned bars_max5_done
  /\ ids_delivered (sink_calls (snd bars_max5_done))
     = ids_retrieved (m_buckets (fst bars_max5_done))
  /\ CountRetrievedFeatures (fst bars_max5_done)
     = (N.of_nat (ids_delivered (sink_calls (snd bars_max5_done))) mod 2 ^ 64)%N.
Proof.
  assert (HInit : Init blank [WhiskeyTown] unit_square whiskey
                    (SetMaxViewportScale Limits_ctor 5)
                  = Returned (bars_max5, [])) by (vm_compute; reflexivity).
  assert (H : Go 10 bars_max5 = Returned bars_max5_done) by (vm_compute; reflexivity).
  split; [exact HInit|]. split; [exact H|].
  exact (sink_is_handed_every_retrieved_id blank [WhiskeyTown] unit_square whiskey
           (SetMaxViewportScale Limits_ctor 5) bars_max5 [] 10
           (fst bars_max5_done) (snd bars_max5_done) HInit H).
Defined.

Lemma unlimited_retrieval_covers_every_tile_witness :
  Init blank registry around_origin mtv_query Limits_ctor = Returned (three_tiles, [])
  /\ Go 10 three_tiles = Returned three_tiles_done
  /\ ViewportCoversAllMwms (fst three_tiles_done) = true
  /\ Permutation (address_runs (snd three_tiles_done))
       (map m_handle (m_buckets (fst three_tiles_done)))
  /\ Permutation (sink_calls (snd three_tiles_done))
       (flat_map report (m_buckets (fst three_tiles_done))).
Proof.
  assert (HInit : Init blank registry around_origin mtv_query Limits_ctor
                  = Returned (three_tiles, [])) by (vm_compute; reflexivity).
  assert (H : Go 10 three_tiles = Returned three_tiles_done) by (vm_compute; reflexivity).
  split; [exact HInit|]. split; [exact H|].
  exact (unlimited_retrieval_covers_every_tile blank registry around_origin mtv_query
           Limits_ctor three_tiles [] 10 (fst three_tiles_done) (snd three_tiles_done)
           eq_refl eq_refl HInit H).
Defined.

Lemma retrieval_trips_no_assertion_witness :
  Init blank registry around_origin mtv_query Limits_ctor = Returned (three_tiles, [])
  /\ (Go 3 three_tiles = OutOfFuel \/ exists r' t, Go 3 three_tiles = Returned (r', t)).
Proof.
  assert (HInit : Init blank registry around_origin mtv_query Limits_ctor
                  = Returned (three_tiles, [])) by (vm_compute; reflexivity).
  split; [exact HInit|].
  exact (retrieval_trips_no_assertion blank registry around_origin mtv_query
           Limits_ctor three_tiles [] 3 HInit).
Defined.

Lemma Go_keeps_the_working_set_witness :
  Go 10 three_tiles = Returned three_tiles_done
  /\ m_index (fst three_tiles_done) = m_index three_tiles
  /\ m_viewport (fst three_tiles_done) = m_viewport three_tiles
  /\ m_params (fst three_tiles_done) = m_params three_tiles
  /\ m_limits (fst three_tiles_done) = m_limits three_tiles
  /\ map m_handle (m_buckets (fst three_tiles_done)) = map m_handle (m_buckets three_tiles)
  /\ map m_bounds (m_buckets (fst three_tiles_done)) = map m_bounds (m_buckets three_tiles).
Proof.
  assert (H : Go 10 three_tiles = Returned three_tiles_done) by (vm_compute; reflexivity).
  split; [exact H|].
  exact (Go_keeps_the_working_set 10 three_tiles (fst three_tiles_done)
           (snd three_tiles_done) H).
Defined.

Lemma sink_is_called_for_admitted_tiles_only_witness :
  Init blank registry around_origin mtv_query Limits_ctor = Returned (three_tiles, [])
  /\ Go 10 three_tiles = Returned three_tiles_done
  /\ Forall (fun call =>
               exists info,
                 In info (GetMwmsInfo registry)
                 /\ admitted (handle_of registry info) = true
                 /\ fst call = GetId (handle_of registry info))
       (sink_calls (snd three_tiles_done)).
Proof.
  assert (HInit : Init blank registry around_origin mtv_query Limits_ctor
                  = Returned (three_tiles, [])) by (vm_compute; reflexivity).
  assert (H : Go 10 three_tiles = Returned three_tiles_done) by (vm_compute; reflexivity).
  split; [exact HInit|]. split; [exact H|].
  exact (sink_is_called_for_admitted_tiles_only blank registry around_origin mtv_query
           Limits_ctor three_tiles [] 10 (fst three_tiles_done) (snd three_tiles_done)
           HInit H).
Defined.

Lemma RetrieveGeometryFeatures_reads_at_a_scale_of_the_tile_witness :
  GetValue WhiskeyTown = Some WhiskeyTown
  /\ IsIntersect unit_square (GetBounds WhiskeyTown) = true
  /\ exists scale,
      (0 <= scale <= 17)%Z
      /\ RetrieveGeometryFeatures WhiskeyTown unit_square
           {| params_token := 1; params_scale := 19 |}
         = Returned
             (flat_map
                (fun interval =>
                   ForEachInIntervalAndScale WhiskeyTown (fst interval) (snd interval) scale)
                (CoveringIntervals unit_square scale),
              [GeometryMatcherRun WhiskeyTown unit_square]).
Proof.
  split; [reflexivity|]. split; [reflexivity|].
  destruct (RetrieveGeometryFeatures_reads_at_a_scale_of_the_tile (C := world)
              WhiskeyTown WhiskeyTown
              unit_square {| params_token := 1; params_scale := 19 |}
              eq_refl eq_refl)
    as (scale & Hrange & _ & _ & _ & Hrun).
  - simpl. lia.
  - exists scale. split; [exact Hrange|exact Hrun].
Defined.

Lemma MultiMwmCallback_accepts_known_distinct_ids_witness :
  (NoDup (map fst [(11%N, [0%N]); (13%N, [4%N; 5%N])])
   /\ (forall id, In id (map fst [(11%N, [0%N]); (13%N, [4%N; 5%N])]) ->
                  In id [11%N; 12%N; 13%N]))
  <-> (exists callback,
          deliver (MultiMwmCallback_OnMwmProcessed N.eqb)
            (MultiMwmCallback_ctor [11%N; 12%N; 13%N])
            [(11%N, [0%N]); (13%N, [4%N; 5%N])] = Passed callback
          /\ GetNumMwms callback = 2%N
          /\ GetNumFeatures callback = 3%N).
Proof.
  exact (MultiMwmCallback_accepts_known_distinct_ids (C := world) N.eqb N.eqb_eq
           [11%N; 12%N; 13%N] [(11%N, [0%N]); (13%N, [4%N; 5%N])]).
Defined.

Lemma Go_satisfies_MultiMwmCallback_witness :
  Go 10 three_tiles = Returned three_tiles_done
  /\ exists callback,
      deliver (MultiMwmCallback_OnMwmProcessed N.eqb)
        (MultiMwmCallback_ctor [11%N; 12%N; 13%N]) (sink_calls (snd three_tiles_done))
      = Passed callback
      /\ GetNumMwms callback = N.of_nat (length (sink_calls (snd three_tiles_done)))
      /\ GetNumFeatures callback
         = (N.of_nat (ids_delivered (sink_calls (snd three_tiles_done))) mod 2 ^ 64)%N.
Proof.
  assert (H : Go 10 three_tiles = Returned three_tiles_done) by (vm_compute; reflexivity).
  split; [exact H|].
  apply (Go_satisfies_MultiMwmCallback (C := world) N.eqb N.eqb_eq [11%N; 12%N; 13%N] 10
           three_tiles (fst three_tiles_done) (snd three_tiles_done) H).
  - clear H. vm_compute. repeat constructor; simpl; intuition discriminate.
  - clear H. intros b Hb. vm_compute in Hb.
    destruct Hb as [<-|[<-|[<-|[]]]]; vm_compute; tauto.
Defined.

Lemma Go_satisfies_TestCallback_witness :
  Go 10 bars_max5 = Returned bars_max5_done
  /\ exists b' callback,
      m_buckets (fst bars_max5_done) = [b']
      /\ deliver (TestCallback_OnMwmProcessed N.eqb) (TestCallback_ctor 1%N)
           (sink_calls (snd bars_max5_done)) = Passed callback
      /\ WasTriggered callback = negb (empty (m_intersection b'))
      /\ Offsets callback = m_intersection b'
      /\ exists t2,
          Go 10 (fst bars_max5_done) = Returned (fst bars_max5_done, t2)
          /\ deliver (TestCallback_OnMwmProcessed N.eqb) (TestCallback_ctor 1%N)
               (sink_calls t2) = Passed (TestCallback_ctor 1%N).
Proof.
  assert (H : Go 10 bars_max5 = Returned bars_max5_done) by (vm_compute; reflexivity).
  split; [exact H|].
  exact (Go_satisfies_TestCallback (C := world) N.eqb N.eqb_eq 1%N (hd_bucket bars_max5)
           10 bars_max5 (fst bars_max5_done) (snd bars_max5_done)
           eq_refl eq_refl eq_refl H).
Defined.

Lemma Go_with_a_maximum_scale_returns_witness :
  double_ge (viewportScale_at 5) 5%float = true
  /\ Init blank [WhiskeyTown] unit_square whiskey (SetMaxViewportScale Limits_ctor 5)
     = Returned (bars_max5, [])
  /\ exists r' t, Go 6 bars_max5 = Returned (r', t).
Proof.
  assert (HInit : Init blank [WhiskeyTown] unit_square whiskey
                    (SetMaxViewportScale Limits_ctor 5)
                  = Returned (bars_max5, [])) by (vm_compute; reflexivity).
  assert (Hge : double_ge (viewportScale_at 5) 5%float = true)
    by (vm_compute; reflexivity).
  split; [exact Hge|]. split; [exact HInit|].
  exact (Go_with_a_maximum_scale_returns blank [WhiskeyTown] unit_square whiskey
           (SetMaxViewportScale Limits_ctor 5) bars_max5 [] 5 eq_refl Hge HInit).
Defined.

Lemma Go_with_maximum_at_most_one_is_one_pass_witness :
  IsMaxViewportScaleSet (m_limits bars_max_half) = true
  /\ double_ge 1%float (m_maxViewportScale (m_limits bars_max_half)) = true
  /\ Go 10 bars_max_half
     = bind (RetrieveForViewport
               (Scale (m_viewport bars_max_half)
                  (m_maxViewportScale (m_limits bars_max_half))) bars_max_half)
         (fun r1 =>
            bind (for_each_bucket Go_finish_bucket (m_buckets r1))
              (fun buckets => ret (set_buckets r1 buckets))).
Proof.
  assert (Hge : double_ge 1%float (m_maxViewportScale (m_limits bars_max_half)) = true)
    by (vm_compute; reflexivity).
  split; [reflexivity|]. split; [exact Hge|].
  exact (Go_with_maximum_at_most_one_is_one_pass 9 bars_max_half eq_refl Hge).
Defined.

Lemma geometry_matcher_runs_where_the_viewport_intersects_witness :
  Go 10 three_tiles = Returned three_tiles_done
  /\ Forall (fun run =>
               exists b, In b (m_buckets three_tiles) /\ fst run = m_handle b
                         /\ IsIntersect (snd run) (m_bounds b) = true
                         /\ m_finished b = false)
       (geometry_runs (snd three_tiles_done)).
Proof.
  assert (H : Go 10 three_tiles = Returned three_tiles_done) by (vm_compute; reflexivity).
  split; [exact H|].
  exact (geometry_matcher_runs_where_the_viewport_intersects 10 three_tiles
           (fst three_tiles_done) (snd three_tiles_done) H).
Defined.

Lemma traits_constants_match_their_converters_witness :
  exists dst,
    yg.convert (yg.DATA_TRAITS true) [255; 128; 17; 0]%N = Some dst
    /\ Forall2 (fun ch1 ch2 =>
                  (Z.of_N ch2 <= yg.maxChannelVal (yg.DATA_TRAITS true))%Z
                  /\ (Z.of_N ch2 * yg.channelScaleFactor (yg.DATA_TRAITS true)
                      <= Z.of_N ch1)%Z
                  /\ (Z.of_N ch1 - yg.channelScaleFactor (yg.DATA_TRAITS true)
                      < Z.of_N ch2 * yg.channelScaleFactor (yg.DATA_TRAITS true))%Z)
         [255; 128; 17; 0]%N dst
    /\ yg.convert (yg.DATA_TRAITS true) [255%N]
       = Some [Z.to_N (yg.maxChannelVal (yg.DATA_TRAITS true))]
    /\ (true = false -> dst = [255; 128; 17; 0]%N).
Proof.
  apply (PixelTraits.traits_constants_match_their_converters true [255; 128; 17; 0]%N).
  repeat constructor.
Defined.

Lemma sink_receives_ascending_ids_witness :
  Init blank [WhiskeyTown] unit_square whiskey (SetMaxViewportScale Limits_ctor 5)
  = Returned (bars_max5, [])
  /\ Go 10 bars_max5 = Returned bars_max5_done
  /\ Forall (fun call => Sorted N.lt (snd call) /\ NoDup (snd call))
       (sink_calls (snd bars_max5_done)).
Proof.
  assert (HInit : Init blank [WhiskeyTown] unit_square whiskey
                    (SetMaxViewportScale Limits_ctor 5)
                  = Returned (bars_max5, [])) by (vm_compute; reflexivity).
  assert (H : Go 10 bars_max5 = Returned bars_max5_done) by (vm_compute; reflexivity).
  split; [exact HInit|]. split; [exact H|].
  eapply Forall_impl;
    [|exact (sink_receives_ascending_ids blank [WhiskeyTown] unit_square whiskey
               (SetMaxViewportScale Limits_ctor 5) bars_max5 [] 10
               (fst bars_max5_done) (snd bars_max5_done) HInit H)].
  clear HInit H.
  intros call (b & offsets & tA & pv & geometry & tG & Hb & _ & HA & _ & _ & _ & _ & Hstrict).
  apply Hstrict. left. clear Hstrict.
  destruct Hb as [<-|[]]. vm_compute in HA.
  injection HA as <- _.
  refine (eq_ind _ (@NoDup N) (NoDup_nodup N.eq_dec (map N.of_nat (seq 0 100))) _ _).
  vm_compute. reflexivity.
Defined.

Lemma buckets_hold_what_the_matchers_returned_witness :
  Init blank registry around_origin mtv_query (SetMinNumFeatures Limits_ctor 1)
  = Returned (three_tiles_min1, [])
  /\ Go 10 three_tiles_min1 = Returned three_tiles_min1_done
  /\ Forall (fun b =>
               (m_coveredByViewport b = true ->
                m_finished b = true /\ m_intersectsWithViewport b = true)
               /\ (if m_intersectsWithViewport b
                   then exists offsets tA pass_viewport geometry tG,
                       RetrieveAddressFeatures (m_handle b) mtv_query
                       = Returned (offsets, tA)
                       /\ RetrieveGeometryFeatures (m_handle b) pass_viewport mtv_query
                          = Returned (geometry, tG)
                       /\ In (m_handle b, pass_viewport)
                            (geometry_runs (snd three_tiles_min1_done))
                       /\ m_coveredByViewport b
                          = IsRectInside pass_viewport (m_bounds b)
                       /\ m_addressFeatures b = sort offsets
                       /\ m_geometryFeatures b = sort geometry
                       /\ m_intersection b
                          = set_intersection (sort offsets) (sort geometry)
                   else m_coveredByViewport b = false
                        /\ m_addressFeatures b = [] /\ m_geometryFeatures b = []
                        /\ m_intersection b = []))
       (m_buckets (fst three_tiles_min1_done)).
Proof.
  assert (HInit : Init blank registry around_origin mtv_query
                    (SetMinNumFeatures Limits_ctor 1)
                  = Returned (three_tiles_min1, [])) by (vm_compute; reflexivity).
  assert (H : Go 10 three_tiles_min1 = Returned three_tiles_min1_done)
    by (vm_compute; reflexivity).
  split; [exact HInit|]. split; [exact H|].
  exact (buckets_hold_what_the_matchers_returned blank registry around_origin
           mtv_query (SetMinNumFeatures Limits_ctor 1) three_tiles_min1 [] 10
           (fst three_tiles_min1_done) (snd three_tiles_min1_done) HInit H).
Defined.

Lemma sink_receives_the_common_matches_witness :
  Init blank [WhiskeyTown] unit_square whiskey (SetMaxViewportScale Limits_ctor 5)
  = Returned (bars_max5, [])
  /\ Go 10 bars_max5 = Returned bars_max5_done
  /\ Forall (fun call =>
               exists b offsets tA pass_viewport geometry tG,
                 In b (m_buckets (fst bars_max5_done))
                 /\ fst call = GetId (m_handle b)
                 /\ RetrieveAddressFeatures (m_handle b) whiskey = Returned (offsets, tA)
                 /\ RetrieveGeometryFeatures (m_handle b) pass_viewport whiskey
                    = Returned (geometry, tG)
                 /\ In (m_handle b, pass_viewport) (geometry_runs (snd bars_max5_done))
                 /\ (forall z, In z (snd call) <-> In z offsets /\ In z geometry)
                 /\ offsets <> [] /\ geometry <> [])
       (sink_calls (snd bars_max5_done)).
Proof.
  assert (HInit : Init blank [WhiskeyTown] unit_square whiskey
                    (SetMaxViewportScale Limits_ctor 5)
                  = Returned (bars_max5, [])) by (vm_compute; reflexivity).
  assert (H : Go 10 bars_max5 = Returned bars_max5_done) by (vm_compute; reflexivity).
  split; [exact HInit|]. split; [exact H|].
  exact (sink_receives_the_common_matches blank [WhiskeyTown] unit_square whiskey
           (SetMaxViewportScale Limits_ctor 5) bars_max5 [] 10
           (fst bars_max5_done) (snd bars_max5_done) HInit H).
Defined.

Lemma Downsample_fits_the_small_channel_witness :
  exists dst,
    yg.Downsample_to (yg.unsigned_channel 16) 16 12 [65535; 4096; 255; 0]%N = Some dst
    /\ length dst = 4%nat
    /\ Forall2 (fun ch1 ch2 =>
                  (ch2 < 2 ^ 12)%N
                  /\ (ch2 * 2 ^ (16 - 12) <= ch1)%N
                  /\ (ch1 < (ch2 + 1) * 2 ^ (16 - 12))%N)
         [65535; 4096; 255; 0]%N dst
    /\ (forall a b, (a <= b)%N -> (b < 2 ^ 16)%N ->
          (yg.DownsampleImpl_to (yg.unsigned_channel 16) (2 ^ (16 - 12)) a
           <= yg.DownsampleImpl_to (yg.unsigned_channel 16) (2 ^ (16 - 12)) b)%N)
    /\ (forall bits, (12 <= bits)%N ->
          yg.Downsample_to (yg.unsigned_channel bits) 16 12 [65535; 4096; 255; 0]%N
          = Some dst)
    /\ (forall bits,
          yg.Downsample_to (yg.unsigned_channel bits) 16 12 [65535; 4096; 255; 0]%N
          = Some (map (fun ch2 => (ch2 mod 2 ^ bits)%N) dst)).
Proof.
  apply (PixelTraits.Downsample_fits_the_small_channel (yg.unsigned_channel 16) 16 12
           [65535; 4096; 255; 0]%N).
  - vm_compute. discriminate.
  - vm_compute. reflexivity.
  - vm_compute. reflexivity.
  - intros value Hvalue. unfold yg.unsigned_channel. apply N.mod_small.
    change (2 ^ 12)%N with 4096%N in Hvalue. change (2 ^ 16)%N with 65536%N. lia.
  - repeat constructor.
Defined.


End Runs.
